(** * Service REST storage: strategy, IP-family defaulting and allocation

    A shallow embedding of
      - pkg/registry/core/service/strategy.go
      - pkg/registry/core/service/storage/rest.go
    Go pointers to a Service become values that are passed in and returned;
    Go maps become [gmap]s, slices become lists (a nil slice and an empty
    slice are both [[]]: the code only ever takes [len] of them or tests
    [== nil] to replace nil by an empty slice); a nil map or nil pointer is
    [None]. *)

From Stdlib Require Import ZArith Lia Bool.
From stdpp Require Import base option list gmap sets strings.

Set Warnings "-clear-no-such-hyp".

Local Open Scope string_scope.
Local Open Scope Z_scope.

(** ** The API types the two files work on (pkg/apis/core) *)

(** Modelled from the spec: the type declarations of pkg/apis/core are not
    part of the sources at hand.  Section 3 of the specification gives
    [IPFamilies] as a sequence of the enum values v4 and v6, [IPFamilyPolicy]
    as an optional enum of three values, [Type] as one of ClusterIP, NodePort,
    LoadBalancer and ExternalName (headless is ClusterIP with the sentinel
    "None"), and [ExternalTrafficPolicy] as Cluster or Local, or cleared. *)
Inductive IPFamily := IPv4Protocol | IPv6Protocol.

Inductive IPFamilyPolicyType := SingleStack | PreferDualStack | RequireDualStack.

Inductive ServiceType :=
| ServiceTypeClusterIP
| ServiceTypeNodePort
| ServiceTypeLoadBalancer
| ServiceTypeExternalName.

Inductive ServiceExternalTrafficPolicyType :=
| ServiceExternalTrafficPolicyTypeUnset   (* the empty string *)
| ServiceExternalTrafficPolicyTypeLocal
| ServiceExternalTrafficPolicyTypeCluster.

#[global] Instance IPFamily_eq_dec : EqDecision IPFamily.
Proof. solve_decision. Defined.
#[global] Instance IPFamilyPolicyType_eq_dec : EqDecision IPFamilyPolicyType.
Proof. solve_decision. Defined.
#[global] Instance ServiceType_eq_dec : EqDecision ServiceType.
Proof. solve_decision. Defined.
#[global] Instance ServiceExternalTrafficPolicyType_eq_dec :
  EqDecision ServiceExternalTrafficPolicyType.
Proof. solve_decision. Defined.

#[global] Instance IPFamily_countable : Countable IPFamily.
Proof.
  refine (inj_countable'
            (λ f, match f with IPv4Protocol => false | IPv6Protocol => true end)
            (λ b : bool, if b then IPv6Protocol else IPv4Protocol) _).
  by intros [].
Defined.

(** api.ClusterIPNone *)
Definition ClusterIPNone : string := "None".

(** intstr.IntOrString *)
Inductive IntOrString := FromInt (n : Z) | FromString (s : string).

Record ServicePort := mkServicePort {
  PortName : string;
  Protocol : string;
  Port : Z;                (* int32 *)
  TargetPort : IntOrString;
  NodePort : Z             (* int32 *)
}.

Record LoadBalancerIngress := mkIngress {
  IngressIP : string;
  IngressHostname : string
}.

Record ServiceStatus := mkStatus {
  LoadBalancer : list LoadBalancerIngress
}.

Record ServiceSpec := mkSpec {
  Type_ : ServiceType;
  Ports : list ServicePort;
  Selector : option (gmap string string);
  ClusterIPs : list string;
  IPFamilies : list IPFamily;
  IPFamilyPolicy : option IPFamilyPolicyType;
  ExternalTrafficPolicy : ServiceExternalTrafficPolicyType;
  HealthCheckNodePort : Z;  (* int32 *)
  SessionAffinity : string;
  TopologyKeys : list string
}.

Record ObjectMeta := mkMeta {
  Name : string;
  Namespace : string;
  GenerateName : string;
  ResourceVersion : string
}.

Record Service := mkService {
  Meta : ObjectMeta;
  Spec : ServiceSpec;
  Status : ServiceStatus
}.

(** runtime.Object, as far as the strategy's type assertions tell apart. *)
Inductive Object :=
| ObjService (svc : Service)
| ObjOther (kind : string).

(** Field assignments [service.Spec.X = v]. *)
Definition setSpec (svc : Service) (sp : ServiceSpec) : Service :=
  mkService (Meta svc) sp (Status svc).
Definition setStatus (svc : Service) (st : ServiceStatus) : Service :=
  mkService (Meta svc) (Spec svc) st.

Definition specSetPorts (sp : ServiceSpec) (v : list ServicePort) : ServiceSpec :=
  mkSpec (Type_ sp) v (Selector sp) (ClusterIPs sp) (IPFamilies sp)
         (IPFamilyPolicy sp) (ExternalTrafficPolicy sp) (HealthCheckNodePort sp)
         (SessionAffinity sp) (TopologyKeys sp).
Definition specSetClusterIPs (sp : ServiceSpec) (v : list string) : ServiceSpec :=
  mkSpec (Type_ sp) (Ports sp) (Selector sp) v (IPFamilies sp)
         (IPFamilyPolicy sp) (ExternalTrafficPolicy sp) (HealthCheckNodePort sp)
         (SessionAffinity sp) (TopologyKeys sp).
Definition specSetIPFamilies (sp : ServiceSpec) (v : list IPFamily) : ServiceSpec :=
  mkSpec (Type_ sp) (Ports sp) (Selector sp) (ClusterIPs sp) v
         (IPFamilyPolicy sp) (ExternalTrafficPolicy sp) (HealthCheckNodePort sp)
         (SessionAffinity sp) (TopologyKeys sp).
Definition specSetIPFamilyPolicy (sp : ServiceSpec) (v : option IPFamilyPolicyType)
  : ServiceSpec :=
  mkSpec (Type_ sp) (Ports sp) (Selector sp) (ClusterIPs sp) (IPFamilies sp)
         v (ExternalTrafficPolicy sp) (HealthCheckNodePort sp)
         (SessionAffinity sp) (TopologyKeys sp).
Definition specSetExternalTrafficPolicy (sp : ServiceSpec)
  (v : ServiceExternalTrafficPolicyType) : ServiceSpec :=
  mkSpec (Type_ sp) (Ports sp) (Selector sp) (ClusterIPs sp) (IPFamilies sp)
         (IPFamilyPolicy sp) v (HealthCheckNodePort sp)
         (SessionAffinity sp) (TopologyKeys sp).
Definition specSetHealthCheckNodePort (sp : ServiceSpec) (v : Z) : ServiceSpec :=
  mkSpec (Type_ sp) (Ports sp) (Selector sp) (ClusterIPs sp) (IPFamilies sp)
         (IPFamilyPolicy sp) (ExternalTrafficPolicy sp) v
         (SessionAffinity sp) (TopologyKeys sp).
Definition specSetTopologyKeys (sp : ServiceSpec) (v : list string) : ServiceSpec :=
  mkSpec (Type_ sp) (Ports sp) (Selector sp) (ClusterIPs sp) (IPFamilies sp)
         (IPFamilyPolicy sp) (ExternalTrafficPolicy sp) (HealthCheckNodePort sp)
         (SessionAffinity sp) v.

Definition setPorts (svc : Service) v := setSpec svc (specSetPorts (Spec svc) v).
Definition setClusterIPs (svc : Service) v := setSpec svc (specSetClusterIPs (Spec svc) v).
Definition setIPFamilies (svc : Service) v := setSpec svc (specSetIPFamilies (Spec svc) v).
Definition setIPFamilyPolicy (svc : Service) v :=
  setSpec svc (specSetIPFamilyPolicy (Spec svc) v).
Definition setExternalTrafficPolicy (svc : Service) v :=
  setSpec svc (specSetExternalTrafficPolicy (Spec svc) v).
Definition setHealthCheckNodePort (svc : Service) v :=
  setSpec svc (specSetHealthCheckNodePort (Spec svc) v).
Definition setTopologyKeys (svc : Service) v :=
  setSpec svc (specSetTopologyKeys (Spec svc) v).

Definition setNodePort (p : ServicePort) (v : Z) : ServicePort :=
  mkServicePort (PortName p) (Protocol p) (Port p) (TargetPort p) v.

(** Go's conversion [int32(x)] of an [int]: two's-complement wrap-around. *)
Definition int32 (x : Z) : Z := (x + 2^31) mod 2^32 - 2^31.

(** Modelled from the spec: the declarations of Endpoints and Pod are not
    part of the sources at hand.  Section 4.2 (ResourceLocation) and the
    glossary: an Endpoints object is a list of subsets, a subset a tuple of
    backend addresses and named ports; an address has an IP and may
    reference, by namespace and name, the Pod behind it, whose
    [Status.PodIPs] lists the Pod's addresses.  The fields are those the
    code reads. *)
Record ObjectReference := mkObjectReference {
  RefNamespace : string;
  RefName : string
}.

Record EndpointAddress := mkEndpointAddress {
  AddressIP : string;
  TargetRef : option ObjectReference      (* a pointer: nil is [None] *)
}.

Record EndpointPort := mkEndpointPort {
  EndpointPortName : string;
  EndpointPortNumber : Z       (* int32 *)
}.

Record EndpointSubset := mkEndpointSubset {
  Addresses : list EndpointAddress;
  SubsetPorts : list EndpointPort
}.

Record Endpoints := mkEndpoints {
  Subsets : list EndpointSubset
}.

Record Pod := mkPod {
  PodIPs : list string
}.

(** What [pods.Get] hands back as runtime.Object: a *api.Pod, possibly nil,
    or an object of another type. *)
Inductive PodObject :=
| ObjPod (pod : option Pod)
| ObjNotPod.

(** url.URL, the two fields [ResourceLocation] fills. *)
Record URL := mkURL {
  Scheme : string;
  Host : string
}.

(** ** Errors *)

(** field.Path, as built by [field.NewPath(..).Index(i).Child(..)]. *)
Inductive PathElem := Child (name : string) | Index (i : nat).

(** The errors the two files build or pass on.  [ErrInvalid] is
    [errors.NewInvalid] of a single [field.Invalid] (the offending value is
    not recorded), [ErrInternal] is [errors.NewInternalError], [ErrOther] is
    an error of a collaborator or of [fmt.Errorf]. *)
Inductive error :=
| ErrInvalid (fldPath : list PathElem) (detail : string)
| ErrInternal (cause : error)
| ErrOther (msg : string).

Definition isInvalid (e : error) : bool :=
  match e with ErrInvalid _ _ => true | _ => false end.

(** ** pkg/registry/core/service/strategy.go *)

Module Strategy.

(** utilfeature.DefaultFeatureGate, the two gates the strategy reads. *)
Record FeatureGates := mkGates {
  IPv6DualStack : bool;
  ServiceTopology : bool
}.

Definition serviceDualStackFieldsInUse (svc : option Service) : bool :=
  match svc with
  | None => false
  | Some svc =>
      bool_decide (IPFamilyPolicy (Spec svc) ≠ None)
      || negb (length (IPFamilies (Spec svc)) =? 0)%nat
  end.

Definition topologyKeysInUse (svc : option Service) : bool :=
  match svc with
  | None => false
  | Some svc => (0 <? length (TopologyKeys (Spec svc)))%nat
  end.

Definition dropServiceDisabledFields (gates : FeatureGates)
  (newSvc : Service) (oldSvc : option Service) : Service :=
  let newSvc :=
    if negb (IPv6DualStack gates)
       && negb (serviceDualStackFieldsInUse oldSvc)
       && negb (serviceDualStackFieldsInUse (Some newSvc))
    then setIPFamilyPolicy (setIPFamilies newSvc []) None
    else newSvc in
  if negb (ServiceTopology gates) && negb (topologyKeysInUse oldSvc)
  then setTopologyKeys newSvc []
  else newSvc.

Definition clearClusterIPRelatedFields (newService oldService : Service) : Service :=
  if bool_decide (Type_ (Spec newService) = ServiceTypeExternalName)
     && bool_decide (Type_ (Spec oldService) ≠ ServiceTypeExternalName)
  then
    if (length (ClusterIPs (Spec newService)) =? 0)%nat
       || (match ClusterIPs (Spec newService) with
           | ip0 :: _ => (String.length ip0 =? 0)%nat
           | [] => false
           end
           && (length (ClusterIPs (Spec newService)) =? 1)%nat)
    then setIPFamilyPolicy (setIPFamilies (setClusterIPs newService []) []) None
    else newService
  else newService.

(** svcStrategy.PrepareForCreate *)
Definition PrepareForCreate (gates : FeatureGates) (service : Service) : Service :=
  let service := setStatus service (mkStatus []) in
  dropServiceDisabledFields gates service None.

(** svcStrategy.PrepareForUpdate *)
Definition PrepareForUpdate (gates : FeatureGates) (newService oldService : Service)
  : Service :=
  let newService := setStatus newService (Status oldService) in
  let newService := dropServiceDisabledFields gates newService (Some oldService) in
  clearClusterIPRelatedFields newService oldService.

(** svcStrategy.Export: the object after the call and the error returned. *)
Definition Export (obj : Object) (exact : bool) : Object * option error :=
  match obj with
  | ObjOther _ => (obj, Some (ErrOther "unexpected object"))
  | ObjService t =>
      let t := setStatus t (mkStatus []) in
      if exact then (ObjService t, None)
      else
        let t :=
          match ClusterIPs (Spec t) with
          | ip0 :: _ =>
              if bool_decide (ip0 ≠ ClusterIPNone) then setClusterIPs t [] else t
          | [] => t
          end in
        let t :=
          if bool_decide (Type_ (Spec t) = ServiceTypeNodePort)
          then setPorts t (map (λ p, setNodePort p 0) (Ports (Spec t)))
          else t in
        (ObjService t, None)
  end.

(** serviceStatusStrategy.PrepareForUpdate *)
Definition StatusPrepareForUpdate (newService oldService : Service) : Service :=
  setSpec newService (Spec oldService).

(** svcStrategy, as far as this file tells strategies apart: the families
    it is built with. *)
Record svcStrategy := mkStrategy {
  ipFamilies : list IPFamily
}.

(** StrategyForServiceCIDRs: the strategy and the default family.
    [primaryIsIPv6] is [netutil.IsIPv6CIDR] of the primary CIDR. *)
Definition StrategyForServiceCIDRs (primaryIsIPv6 hasSecondary : bool)
  : svcStrategy * IPFamily :=
  let serviceIPFamily := if primaryIsIPv6 then IPv6Protocol else IPv4Protocol in
  let strategy :=
    if hasSecondary && bool_decide (serviceIPFamily = IPv4Protocol) then
      mkStrategy [IPv4Protocol; IPv6Protocol]
    else if hasSecondary && bool_decide (serviceIPFamily = IPv6Protocol) then
      mkStrategy [IPv6Protocol; IPv4Protocol]
    else if bool_decide (serviceIPFamily = IPv6Protocol) then
      mkStrategy [IPv6Protocol]
    else mkStrategy [IPv4Protocol] in
  (strategy, serviceIPFamily).

End Strategy.

(** ** Collaborators of the storage layer *)

(** The Go library functions on IP addresses the storage layer calls.
    [IP] is net.IP; a nil net.IP is [None]. *)
Class NetLib (IP : Type) := {
  ParseIP : string → option IP;        (* net.ParseIP *)
  IPString : IP → string;              (* net.IP.String *)
  IsIPv6String : string → bool         (* netutil.IsIPv6String *)
}.

(** A Go function either returns or panics; deferred calls run in both
    cases. *)
Inductive outcome (X : Type) :=
| Returns (x : X)
| Panics.
Arguments Returns {X} x.
Arguments Panics {X}.

(** Go ranges over a map in an order of its choosing; with the two keys of
    [map[api.IPFamily]string] there are two orders. *)
Inductive MapOrder := IPv4First | IPv6First.

Definition rangeOrder (ord : MapOrder) : list IPFamily :=
  match ord with
  | IPv4First => [IPv4Protocol; IPv6Protocol]
  | IPv6First => [IPv6Protocol; IPv4Protocol]
  end.

Definition rangeMap {V} (ord : MapOrder) (m : gmap IPFamily V) : list (IPFamily * V) :=
  omap (λ family, (λ v, (family, v)) <$> m !! family) (rangeOrder ord).

Module ipallocator.

(** ipallocator.Interface: the methods the storage layer calls on a
    per-family allocator whose state is [A].  A call that fails leaves the
    allocator as it was.  [IsIPv6CIDR a] is [netutil.IsIPv6CIDR] of
    [a.CIDR()]. *)
Class Interface (IP A : Type) := {
  Allocate : A → option IP → error + A;
  AllocateNext : A → error + (IP * A);
  Release : A → option IP → error + A;
  IsIPv6CIDR : A → bool
}.

(** The contract of section 4.4.3 as far as a caller relies on it:
    [Release] unmarks what [Allocate] or [AllocateNext] has just marked,
    and an address printed by [String] parses back to itself. *)
Class Contract (IP A : Type) `{NetLib IP, Interface IP A} : Prop := {
  Release_Allocate : ∀ a ip a', Allocate a ip = inr a' → Release a' ip = inr a;
  Release_AllocateNext :
    ∀ a ip a', AllocateNext a = inr (ip, a') → Release a' (Some ip) = inr a;
  ParseIP_String : ∀ ip : IP, ParseIP (IPString ip) = Some ip
}.

(** Modelled from the spec: the allocator of pkg/registry/core/service/ipallocator
    is not part of the sources at hand.  Section 4.4.3: [Allocate(ip)] marks
    that IP reserved and fails if it is already reserved or outside the CIDR;
    [AllocateNext()] returns any free IP and fails if exhausted; [Release(ip)]
    unmarks.  The state is the set of reserved addresses; [rangeNext] is the
    choice [AllocateNext] makes among the free addresses. *)
Record Range (IP : Type) `{Countable IP} := mkRange {
  rangeIsIPv6 : bool;
  rangeContains : IP → bool;
  rangeNext : gset IP → option IP;
  rangeUsed : gset IP
}.
Arguments mkRange {IP _ _}.
Arguments rangeIsIPv6 {IP _ _}.
Arguments rangeContains {IP _ _}.
Arguments rangeNext {IP _ _}.
Arguments rangeUsed {IP _ _}.

Definition rangeSetUsed `{Countable IP} (r : Range IP) (u : gset IP) : Range IP :=
  mkRange (rangeIsIPv6 r) (rangeContains r) (rangeNext r) u.

Definition rangeAllocate `{Countable IP} (r : Range IP) (ip : option IP)
  : error + Range IP :=
  match ip with
  | None => inl (ErrOther "provided IP is not in the valid range")
  | Some x =>
      if negb (rangeContains r x) then
        inl (ErrOther "provided IP is not in the valid range")
      else if bool_decide (x ∈ rangeUsed r) then
        inl (ErrOther "provided IP is already allocated")
      else inr (rangeSetUsed r ({[x]} ∪ rangeUsed r))
  end.

Definition rangeAllocateNext `{Countable IP} (r : Range IP) : error + (IP * Range IP) :=
  match rangeNext r (rangeUsed r) with
  | Some x =>
      if rangeContains r x && negb (bool_decide (x ∈ rangeUsed r))
      then inr (x, rangeSetUsed r ({[x]} ∪ rangeUsed r))
      else inl (ErrOther "range is full")
  | None => inl (ErrOther "range is full")
  end.

Definition rangeRelease `{Countable IP} (r : Range IP) (ip : option IP)
  : error + Range IP :=
  match ip with
  | None => inr r
  | Some x => inr (rangeSetUsed r (rangeUsed r ∖ {[x]}))
  end.

#[global] Instance Range_Interface `{Countable IP} : Interface IP (Range IP) := {
  Allocate := rangeAllocate;
  AllocateNext := rangeAllocateNext;
  Release := rangeRelease;
  IsIPv6CIDR := rangeIsIPv6
}.

End ipallocator.

Module portallocator.

(** Modelled from the spec: the allocator and the operation of
    pkg/registry/core/service/portallocator are not part of the sources at
    hand.  Section 3: a PortAllocator owns a bitmap over a port range.  The
    state is the set of reserved ports; [Next] is the choice [AllocateNext]
    makes among the free ports of the range [Base, Base+Size). *)
Record PortAllocator := mkPortAllocator {
  Base : Z;
  Size : Z;
  Next : gset Z → option Z;
  Used : gset Z
}.

Definition setUsed (pa : PortAllocator) (u : gset Z) : PortAllocator :=
  mkPortAllocator (Base pa) (Size pa) (Next pa) u.

Definition inRange (pa : PortAllocator) (port : Z) : bool :=
  (Base pa <=? port) && (port <? Base pa + Size pa).

Definition isFree (pa : PortAllocator) (taken : gset Z) (port : Z) : bool :=
  inRange pa port && negb (bool_decide (port ∈ taken)).

(** Interface.Release *)
Definition Release (pa : PortAllocator) (port : Z) : PortAllocator :=
  setUsed pa (Used pa ∖ {[port]}).

(** Modelled from the spec: section 4.5, the two-phase operation: a list of
    staged allocations, a list of deferred releases, and whether [Finish]
    still has to roll back.  [pa] is the allocator the operation works on
    (the Go struct holds a reference to the shared allocator: while an
    operation is open, its [pa] is that allocator's state).  The spec gives
    [StartOperation] a dry-run flag and says no more about it: a dry-run
    operation is taken to stage ports without reserving or releasing
    anything in the allocator. *)
Record PortAllocationOperation := mkOp {
  pa : PortAllocator;
  allocated : list Z;
  releaseDeferred : list Z;
  shouldRollback : bool;
  dryRun : bool
}.

Definition StartOperation (pa : PortAllocator) (dryRun : bool)
  : PortAllocationOperation :=
  mkOp pa [] [] true dryRun.

Definition taken (op : PortAllocationOperation) : gset Z :=
  if dryRun op then Used (pa op) ∪ list_to_set (allocated op) else Used (pa op).

Definition stage (op : PortAllocationOperation) (port : Z) : PortAllocationOperation :=
  mkOp (if dryRun op then pa op else setUsed (pa op) ({[port]} ∪ Used (pa op)))
       (allocated op ++ [port])%list (releaseDeferred op) (shouldRollback op) (dryRun op).

(** [Allocate(p)]: reserve a specific port; fail if taken or outside the
    range. *)
Definition Allocate (op : PortAllocationOperation) (port : Z)
  : error + PortAllocationOperation :=
  if negb (inRange (pa op) port) then
    inl (ErrOther "provided port is not in the valid range")
  else if bool_decide (port ∈ taken op) then
    inl (ErrOther "provided port is already allocated")
  else inr (stage op port).

(** [AllocateNext()]: reserve any port. *)
Definition AllocateNext (op : PortAllocationOperation)
  : error + (Z * PortAllocationOperation) :=
  match Next (pa op) (taken op) with
  | Some port =>
      if isFree (pa op) (taken op) port then inr (port, stage op port)
      else inl (ErrOther "range is full")
  | None => inl (ErrOther "range is full")
  end.

(** [ReleaseDeferred(p)]: schedule a release, effective only at [Commit]. *)
Definition ReleaseDeferred (op : PortAllocationOperation) (port : Z)
  : PortAllocationOperation :=
  mkOp (pa op) (allocated op) (releaseDeferred op ++ [port])%list
       (shouldRollback op) (dryRun op).

Definition Rollback (op : PortAllocationOperation) : PortAllocationOperation :=
  if dryRun op then op
  else mkOp (foldl Release (pa op) (allocated op))
            (allocated op) (releaseDeferred op) (shouldRollback op) (dryRun op).

(** [Finish()]: if [Commit] was not called, undo all staged allocations. *)
Definition Finish (op : PortAllocationOperation) : PortAllocationOperation :=
  if shouldRollback op then Rollback op else op.

(** [Commit()]: keep the staged allocations and carry out the deferred
    releases. *)
Definition Commit (op : PortAllocationOperation) : PortAllocationOperation :=
  mkOp (if dryRun op then pa op else foldl Release (pa op) (releaseDeferred op))
       (allocated op) (releaseDeferred op) false (dryRun op).

End portallocator.

(** Modelled from the spec: [apiservice.NeedsHealthCheck] (pkg/api/service)
    is not part of the sources at hand.  Section 4.6: true iff the Service is
    a LoadBalancer with [ExternalTrafficPolicy == Local]. *)
Definition NeedsHealthCheck (service : Service) : bool :=
  bool_decide (Type_ (Spec service) = ServiceTypeLoadBalancer)
  && bool_decide (ExternalTrafficPolicy (Spec service)
                  = ServiceExternalTrafficPolicyTypeLocal).

(** ** pkg/registry/core/service/storage/rest.go *)

Module Storage.

Import portallocator.

Section REST.

Context {IP A : Type} `{!NetLib IP} `{!ipallocator.Interface IP A}.

(** The REST struct: the allocators it holds and the default family.  The
    object stores, the strategy and the validation package are passed to the
    operations as [Collaborators]. *)
Record REST := mkREST {
  serviceIPAllocatorsByFamily : gmap IPFamily A;
  defaultServiceIPFamily : IPFamily;
  serviceNodePorts : PortAllocator
}.

Definition setAllocator (rs : REST) (family : IPFamily) (allocator : A) : REST :=
  mkREST (<[family := allocator]> (serviceIPAllocatorsByFamily rs))
         (defaultServiceIPFamily rs) (serviceNodePorts rs).

Definition setServiceNodePorts (rs : REST) (ports : PortAllocator) : REST :=
  mkREST (serviceIPAllocatorsByFamily rs) (defaultServiceIPFamily rs) ports.

Definition NewREST (serviceIPs : A) (secondaryServiceIPs : option A)
  (serviceNodePorts : PortAllocator) : REST :=
  let serviceIPFamily :=
    if ipallocator.IsIPv6CIDR serviceIPs then IPv6Protocol else IPv4Protocol in
  let byIPFamily : gmap IPFamily A := <[serviceIPFamily := serviceIPs]> ∅ in
  let byIPFamily :=
    match secondaryServiceIPs with
    | Some secondary =>
        let secondaryServiceIPFamily :=
          if bool_decide (serviceIPFamily = IPv6Protocol)
          then IPv4Protocol else IPv6Protocol in
        <[secondaryServiceIPFamily := secondary]> byIPFamily
    | None => byIPFamily
    end in
  mkREST byIPFamily serviceIPFamily serviceNodePorts.

Definition errorString (err : error) : string :=
  match err with
  | ErrInvalid _ detail => detail
  | ErrInternal _ => "Internal error occurred"
  | ErrOther msg => msg
  end.

(** *** Cluster IPs *)

Fixpoint allocClusterIPsRange (rs : REST) (toAlloc : list (IPFamily * string))
  (allocated : gmap IPFamily string)
  : REST * outcome (gmap IPFamily string * option error) :=
  match toAlloc with
  | [] => (rs, Returns (allocated, None))
  | (family, ip) :: toAlloc =>
      match serviceIPAllocatorsByFamily rs !! family with
      | None => (rs, Panics)   (* a method call on a nil interface *)
      | Some allocator =>
          if bool_decide (ip = "") then
            match ipallocator.AllocateNext allocator with
            | inl err =>
                (rs, Returns (allocated, Some (ErrInternal
                       (ErrOther ("failed to allocate a serviceIP: " +:+ errorString err)))))
            | inr (allocatedIP, allocator) =>
                allocClusterIPsRange (setAllocator rs family allocator) toAlloc
                                     (<[family := IPString allocatedIP]> allocated)
            end
          else
            let parsedIP := ParseIP ip in
            match ipallocator.Allocate allocator parsedIP with
            | inl err =>
                (rs, Returns (allocated, Some (ErrInvalid
                       [Child "spec"; Child "clusterIPs"]
                       ("failed to allocated ip:" +:+ ip +:+ " with error:"
                        +:+ errorString err))))
            | inr allocator =>
                allocClusterIPsRange (setAllocator rs family allocator) toAlloc
                                     (<[family := ip]> allocated)
            end
      end
  end.

Definition allocClusterIPs (ord : MapOrder) (rs : REST)
  (toAlloc : gmap IPFamily string)
  : REST * outcome (gmap IPFamily string * option error) :=
  allocClusterIPsRange rs (rangeMap ord toAlloc) ∅.

Fixpoint releaseClusterIPsRange (rs : REST) (toRelease : list (IPFamily * string))
  (released : gmap IPFamily string)
  : REST * (option (gmap IPFamily string) * option error) :=
  match toRelease with
  | [] => (rs, (Some released, None))
  | (family, ip) :: toRelease =>
      match serviceIPAllocatorsByFamily rs !! family with
      | None =>
          (* cluster was configured for dual stack, then single stack *)
          releaseClusterIPsRange rs toRelease released
      | Some allocator =>
          let parsedIP := ParseIP ip in
          match ipallocator.Release allocator parsedIP with
          | inl err => (rs, (Some released, Some err))
          | inr allocator =>
              releaseClusterIPsRange (setAllocator rs family allocator) toRelease
                                     (<[family := ip]> released)
          end
      end
  end.

Definition releaseClusterIPs (ord : MapOrder) (rs : REST)
  (toRelease : option (gmap IPFamily string))
  : REST * (option (gmap IPFamily string) * option error) :=
  match toRelease with
  | None => (rs, (None, None))
  | Some toRelease => releaseClusterIPsRange rs (rangeMap ord toRelease) ∅
  end.

(** The loop of [allocServiceClusterIPs] that extends [ClusterIPs] with
    markers and collects [toAlloc]; [i] is the index of the first family of
    [families]. *)
Fixpoint markClusterIPs (i : nat) (families : list IPFamily)
  (clusterIPs : list string) (toAlloc : gmap IPFamily string)
  : outcome (list string * gmap IPFamily string) :=
  match families with
  | [] => Returns (clusterIPs, toAlloc)
  | ipFamily :: families =>
      let clusterIPs :=
        if Z.of_nat i >? Z.of_nat (length clusterIPs) - 1
        then (clusterIPs ++ [""])%list else clusterIPs in
      match clusterIPs !! i with
      | None => Panics      (* index out of range *)
      | Some ip => markClusterIPs (S i) families clusterIPs (<[ipFamily := ip]> toAlloc)
      end
  end.

(** The loops of [allocServiceClusterIPs] that write the allocated
    addresses back. *)
Fixpoint setClusterIPsOfFamily (family : IPFamily) (ip : string) (i : nat)
  (families : list IPFamily) (clusterIPs : list string) : list string :=
  match families with
  | [] => clusterIPs
  | check :: families =>
      setClusterIPsOfFamily family ip (S i) families
        (if bool_decide (family = check) then <[i := ip]> clusterIPs else clusterIPs)
  end.

Definition setAllocatedClusterIPs (allocated : list (IPFamily * string))
  (families : list IPFamily) (clusterIPs : list string) : list string :=
  foldl (λ clusterIPs entry,
           setClusterIPsOfFamily (fst entry) (snd entry) 0 families clusterIPs)
        clusterIPs allocated.

Definition isHeadless (service : Service) : bool :=
  bool_decide (ClusterIPs (Spec service) !! 0%nat = Some ClusterIPNone).

Definition allocServiceClusterIPs (ordAlloc ordSet : MapOrder) (rs : REST)
  (service : Service)
  : REST * Service * outcome (option (gmap IPFamily string) * option error) :=
  if bool_decide (Type_ (Spec service) = ServiceTypeExternalName) then
    (rs, service, Returns (None, None))
  else if (0 <? length (ClusterIPs (Spec service)))%nat && isHeadless service then
    (rs, service, Returns (None, None))
  else
    match markClusterIPs 0 (IPFamilies (Spec service)) (ClusterIPs (Spec service)) ∅ with
    | Panics => (rs, service, Panics)
    | Returns (clusterIPs, toAlloc) =>
        let service := setClusterIPs service clusterIPs in
        match allocClusterIPs ordAlloc rs toAlloc with
        | (rs, Panics) => (rs, service, Panics)
        | (rs, Returns (allocated, Some err)) =>
            (rs, service, Returns (Some allocated, Some err))
        | (rs, Returns (allocated, None)) =>
            let service :=
              setClusterIPs service
                (setAllocatedClusterIPs (rangeMap ordSet allocated)
                   (IPFamilies (Spec service)) (ClusterIPs (Spec service))) in
            (rs, service, Returns (Some allocated, None))
        end
    end.

(** The loop of [releaseServiceClusterIPs] that collects [toRelease]. *)
Fixpoint collectToRelease (i : nat) (families : list IPFamily)
  (clusterIPs : list string) (toRelease : gmap IPFamily string)
  : outcome (gmap IPFamily string) :=
  match families with
  | [] => Returns toRelease
  | ipFamily :: families =>
      match clusterIPs !! i with
      | None => Panics      (* index out of range *)
      | Some ip => collectToRelease (S i) families clusterIPs (<[ipFamily := ip]> toRelease)
      end
  end.

Definition releaseServiceClusterIPs (ord : MapOrder) (rs : REST) (service : Service)
  : REST * outcome (option (gmap IPFamily string) * option error) :=
  if bool_decide (Type_ (Spec service) = ServiceTypeExternalName) then
    (rs, Returns (None, None))
  else if (0 <? length (ClusterIPs (Spec service)))%nat && isHeadless service then
    (rs, Returns (None, None))
  else
    match collectToRelease 0 (IPFamilies (Spec service)) (ClusterIPs (Spec service)) ∅ with
    | Panics => (rs, Panics)
    | Returns toRelease =>
        let '(rs, r) := releaseClusterIPs ord rs (Some toRelease) in
        (rs, Returns r)
    end.

(** *** IP-family defaulting and validation *)

Definition policyField : list PathElem := [Child "spec"; Child "ipFamilyPolicy"].

(** Two families or two IPs with SingleStack or PreferDualStack. *)
Definition policyConflict (service : Service) : bool :=
  bool_decide (IPFamilyPolicy (Spec service) ≠ None)
  && ((length (ClusterIPs (Spec service)) =? 2)%nat
      || (length (IPFamilies (Spec service)) =? 2)%nat)
  && bool_decide (IPFamilyPolicy (Spec service) ≠ Some RequireDualStack).

(** The loop "default families according to cluster IPs"; [i] is the index
    of the first entry of [clusterIPs], [families] is [IPFamilies] as the
    loop has extended it so far. *)
Fixpoint defaultFamiliesFromClusterIPs (rs : REST) (i : nat)
  (clusterIPs : list string) (families : list IPFamily) : error + list IPFamily :=
  match clusterIPs with
  | [] => inr families
  | ip :: clusterIPs =>
      if bool_decide (ip = "") || bool_decide (ip = ClusterIPNone) then
        inr families       (* break *)
      else
        let isIPv6 := IsIPv6String ip in
        if Z.of_nat i >? Z.of_nat (length families) - 1 then
          if isIPv6 then
            match serviceIPAllocatorsByFamily rs !! IPv6Protocol with
            | None =>
                inl (ErrInvalid [Child "spec"; Child "clusterIPs"; Index i]
                       "ClusterIP of IPv6 can not be used, IPv6 is not configuerd on cluster")
            | Some _ =>
                defaultFamiliesFromClusterIPs rs (S i) clusterIPs
                  (families ++ [IPv6Protocol])%list
            end
          else
            match serviceIPAllocatorsByFamily rs !! IPv4Protocol with
            | None =>
                inl (ErrInvalid [Child "spec"; Child "clusterIPs"; Index i]
                       "ClusterIP of IPv4 can not be used, IPv4 is not configuerd on cluster")
            | Some _ =>
                defaultFamiliesFromClusterIPs rs (S i) clusterIPs
                  (families ++ [IPv4Protocol])%list
            end
        else defaultFamiliesFromClusterIPs rs (S i) clusterIPs families
  end.

(** [len(ClusterIPs) > 0 && ClusterIPs[0] == "None" && Selector == nil] *)
Definition isHeadlessSelectorless (service : Service) : bool :=
  (0 <? length (ClusterIPs (Spec service)))%nat
  && isHeadless service
  && bool_decide (Selector (Spec service) = None).

(** The body of the branch "default headless+selectorless".  [IPFamilies[0]]
    is read after the slice has been defaulted to one element. *)
Definition defaultHeadlessSelectorless (rs : REST) (service : Service) : Service :=
  let policy := default RequireDualStack (IPFamilyPolicy (Spec service)) in
  let service := setIPFamilyPolicy service (Some policy) in
  let service :=
    if (length (IPFamilies (Spec service)) =? 0)%nat
    then setIPFamilies service [defaultServiceIPFamily rs] else service in
  if (length (IPFamilies (Spec service)) <? 2)%nat then
    if bool_decide (policy = RequireDualStack)
       || (bool_decide (policy = PreferDualStack)
           && (size (serviceIPAllocatorsByFamily rs) =? 2)%nat)
    then
      if bool_decide (IPFamilies (Spec service) !! 0%nat = Some IPv4Protocol)
      then setIPFamilies service (IPFamilies (Spec service) ++ [IPv6Protocol])%list
      else setIPFamilies service (IPFamilies (Spec service) ++ [IPv4Protocol])%list
    else service
  else service.

(** Every family of [families] has an allocator; [i] is the index of the
    first one. *)
Fixpoint familiesConfigured (rs : REST) (i : nat) (families : list IPFamily)
  : option error :=
  match families with
  | [] => None
  | ipFamily :: families =>
      match serviceIPAllocatorsByFamily rs !! ipFamily with
      | None =>
          Some (ErrInvalid [Child "spec"; Child "ipFamilies"; Index i]
                  "ipfamily is not configured on cluster")
      | Some _ => familiesConfigured rs (S i) families
      end
  end.

(** The else branch of the "ipfamily check": the dual-stack check and the
    per-family checks. *)
Definition validateFamilies (rs : REST) (service : Service) : option error :=
  if bool_decide (IPFamilyPolicy (Spec service) = Some RequireDualStack)
     && (size (serviceIPAllocatorsByFamily rs) <? 2)%nat
  then Some (ErrInvalid policyField "Cluster is not configured for dual stack services")
  else familiesConfigured rs 0 (IPFamilies (Spec service)).

(** The "ipfamily check": its first branch only logs. *)
Inductive FamilyCheck :=
| NoValidation
| Validated (err : option error).

Definition ipFamilyCheck (rs : REST) (service : Service) : FamilyCheck :=
  if isHeadlessSelectorless service then NoValidation
  else Validated (validateFamilies rs service).

(** The defaults after the "ipfamily check". *)
Definition defaultPolicyAndFamilies (rs : REST) (service : Service) : Service :=
  let policy := default SingleStack (IPFamilyPolicy (Spec service)) in
  let service := setIPFamilyPolicy service (Some policy) in
  let service :=
    if (length (IPFamilies (Spec service)) =? 0)%nat
    then setIPFamilies service [defaultServiceIPFamily rs] else service in
  if bool_decide (policy ≠ SingleStack)
     && (length (IPFamilies (Spec service)) =? 1)%nat
     && (size (serviceIPAllocatorsByFamily rs) =? 2)%nat
  then
    let service :=
      if bool_decide (IPFamilies (Spec service) !! 0%nat = Some IPv4Protocol)
      then setIPFamilies service (IPFamilies (Spec service) ++ [IPv6Protocol])%list
      else service in
    if bool_decide (IPFamilies (Spec service) !! 0%nat = Some IPv6Protocol)
    then setIPFamilies service (IPFamilies (Spec service) ++ [IPv4Protocol])%list
    else service
  else service.

(** How far [tryDefaultValidateServiceClusterIPFields] gets before the
    "ipfamily check": it has returned, or control reaches the check with the
    Service as it is then. *)
Inductive Progress :=
| Returned (r : error + Service)
| ReachesFamilyCheck (service : Service).

Definition beforeFamilyCheck (rs : REST) (service : Service) : Progress :=
  if bool_decide (Type_ (Spec service) = ServiceTypeExternalName) then
    Returned (inr service)
  else if policyConflict service then
    Returned (inl (ErrInvalid policyField
      "if provided then it must be set to RequirdDualStack for multi families or multi ClusterIPs"))
  else
    match defaultFamiliesFromClusterIPs rs 0 (ClusterIPs (Spec service))
            (IPFamilies (Spec service)) with
    | inl err => Returned (inl err)
    | inr families =>
        let service := setIPFamilies service families in
        if isHeadlessSelectorless service then
          Returned (inr (defaultHeadlessSelectorless rs service))
        else ReachesFamilyCheck service
    end.

Definition tryDefaultValidateServiceClusterIPFields (rs : REST) (service : Service)
  : error + Service :=
  match beforeFamilyCheck rs service with
  | Returned r => r
  | ReachesFamilyCheck service =>
      match ipFamilyCheck rs service with
      | Validated (Some err) => inl err
      | Validated None | NoValidation => inr (defaultPolicyAndFamilies rs service)
      end
  end.

(** *** Node ports *)

Fixpoint findRequestedNodePort (port : Z) (servicePorts : list ServicePort) : Z :=
  match servicePorts with
  | [] => 0
  | servicePort :: servicePorts =>
      if (port =? Port servicePort) && negb (NodePort servicePort =? 0)
      then NodePort servicePort
      else findRequestedNodePort port servicePorts
  end.

Definition nodePortField (i : nat) : list PathElem :=
  [Child "spec"; Child "ports"; Index i; Child "nodePort"].

(** The loop of [initNodePorts] from index [i] on, for [n] more entries;
    [ports] is [service.Spec.Ports] as updated so far. *)
Fixpoint initNodePortsFrom (n : nat) (i : nat) (ports : list ServicePort)
  (svcPortToNodePort : gmap Z Z) (nodePortOp : PortAllocationOperation)
  : list ServicePort * PortAllocationOperation * option error :=
  match n with
  | O => (ports, nodePortOp, None)
  | S n =>
      match ports !! i with
      | None => (ports, nodePortOp, None)
      | Some servicePort =>
          let allocatedNodePort := default 0 (svcPortToNodePort !! Port servicePort) in
          if allocatedNodePort =? 0 then
            let np := findRequestedNodePort (Port servicePort) ports in
            if negb (np =? 0) then
              match Allocate nodePortOp np with
              | inl err =>
                  (ports, nodePortOp, Some (ErrInvalid (nodePortField i) (errorString err)))
              | inr nodePortOp =>
                  initNodePortsFrom n (S i)
                    (<[i := setNodePort servicePort (int32 np)]> ports)
                    (<[Port servicePort := np]> svcPortToNodePort) nodePortOp
              end
            else
              match AllocateNext nodePortOp with
              | inl err =>
                  (ports, nodePortOp,
                   Some (ErrInternal (ErrOther ("failed to allocate a nodePort: "
                                                +:+ errorString err))))
              | inr (nodePort, nodePortOp) =>
                  initNodePortsFrom n (S i)
                    (<[i := setNodePort servicePort (int32 nodePort)]> ports)
                    (<[Port servicePort := nodePort]> svcPortToNodePort) nodePortOp
              end
          else if negb (NodePort servicePort =? allocatedNodePort) then
            if NodePort servicePort =? 0 then
              initNodePortsFrom n (S i)
                (<[i := setNodePort servicePort (int32 allocatedNodePort)]> ports)
                svcPortToNodePort nodePortOp
            else
              match Allocate nodePortOp (NodePort servicePort) with
              | inl err =>
                  (ports, nodePortOp, Some (ErrInvalid (nodePortField i) (errorString err)))
              | inr nodePortOp =>
                  initNodePortsFrom n (S i) ports svcPortToNodePort nodePortOp
              end
          else initNodePortsFrom n (S i) ports svcPortToNodePort nodePortOp
      end
  end.

Definition initNodePorts (service : Service) (nodePortOp : PortAllocationOperation)
  : Service * PortAllocationOperation * option error :=
  let '(ports, nodePortOp, err) :=
    initNodePortsFrom (length (Ports (Spec service))) 0 (Ports (Spec service)) ∅
                      nodePortOp in
  (setPorts service ports, nodePortOp, err).

Definition allocateHealthCheckNodePort (service : Service)
  (nodePortOp : PortAllocationOperation)
  : Service * PortAllocationOperation * option error :=
  let healthCheckNodePort := HealthCheckNodePort (Spec service) in
  if negb (healthCheckNodePort =? 0) then
    match Allocate nodePortOp healthCheckNodePort with
    | inl err =>
        (service, nodePortOp,
         Some (ErrOther ("failed to allocate requested HealthCheck NodePort: "
                         +:+ errorString err)))
    | inr nodePortOp => (service, nodePortOp, None)
    end
  else
    match AllocateNext nodePortOp with
    | inl err =>
        (service, nodePortOp,
         Some (ErrOther ("failed to allocate a HealthCheck NodePort: "
                         +:+ errorString err)))
    | inr (healthCheckNodePort, nodePortOp) =>
        (setHealthCheckNodePort service (int32 healthCheckNodePort), nodePortOp, None)
    end.

Definition healthCheckField : list PathElem := [Child "spec"; Child "healthCheckNodePort"].

Definition healthCheckNodePortUpdate (oldService service : Service)
  (nodePortOp : PortAllocationOperation)
  : Service * PortAllocationOperation * (bool * option error) :=
  let neededHealthCheckNodePort := NeedsHealthCheck oldService in
  let oldHealthCheckNodePort := HealthCheckNodePort (Spec oldService) in
  let needsHealthCheckNodePort := NeedsHealthCheck service in
  let newHealthCheckNodePort := HealthCheckNodePort (Spec service) in
  if negb neededHealthCheckNodePort && needsHealthCheckNodePort then
    match allocateHealthCheckNodePort service nodePortOp with
    | (service, nodePortOp, Some err) =>
        (service, nodePortOp, (false, Some (ErrInternal err)))
    | (service, nodePortOp, None) => (service, nodePortOp, (true, None))
    end
  else if neededHealthCheckNodePort && negb needsHealthCheckNodePort then
    let nodePortOp := ReleaseDeferred nodePortOp oldHealthCheckNodePort in
    (setHealthCheckNodePort service 0, nodePortOp, (true, None))
  else if neededHealthCheckNodePort && needsHealthCheckNodePort then
    if negb (oldHealthCheckNodePort =? newHealthCheckNodePort) then
      (service, nodePortOp,
       (false, Some (ErrInvalid healthCheckField
          "cannot change healthCheckNodePort on loadBalancer service with externalTraffic=Local during update")))
    else (service, nodePortOp, (true, None))
  else (service, nodePortOp, (true, None)).

(** *** Create *)

(** What [Create] calls outside this file: the generic pre-create hook run
    with the strategy (it returns the Service as the hook has left it), the
    validation of the external-traffic fields (the Invalid error built from
    the list it returns, if that is not empty), the object store, and the
    orders in which Go ranges over the three maps of the call. *)
Record Collaborators := mkCollaborators {
  BeforeCreate : Service → error + Service;
  ValidateServiceExternalTrafficFieldsCombination : Service → option error;
  servicesCreate : Service → error + Service;
  CheckGeneratedNameError : error → Service → error;
  ordAlloc : MapOrder;
  ordSet : MapOrder;
  ordRelease : MapOrder
}.

(** [Create] from the node-port allocation to the return.  The boolean
    tells whether [toReleaseclusterIPs] has been reset to nil. *)
Definition createWithNodePortOp (c : Collaborators) (service : Service)
  (nodePortOp : PortAllocationOperation)
  : PortAllocationOperation * bool * (option Service * option error) :=
  let '(service, nodePortOp, err) :=
    if bool_decide (Type_ (Spec service) = ServiceTypeNodePort)
       || bool_decide (Type_ (Spec service) = ServiceTypeLoadBalancer)
    then initNodePorts service nodePortOp
    else (service, nodePortOp, None) in
  match err with
  | Some err => (nodePortOp, false, (None, Some err))
  | None =>
      let '(service, nodePortOp, err) :=
        if NeedsHealthCheck service
        then allocateHealthCheckNodePort service nodePortOp
        else (service, nodePortOp, None) in
      match err with
      | Some err => (nodePortOp, false, (None, Some (ErrInternal err)))
      | None =>
          match ValidateServiceExternalTrafficFieldsCombination c service with
          | Some errs => (nodePortOp, false, (None, Some errs))
          | None =>
              match servicesCreate c service with
              | inl err =>
                  (nodePortOp, false, (None, Some (CheckGeneratedNameError c err service)))
              | inr out => (Commit nodePortOp, true, (Some out, None))
              end
          end
      end
  end.

(** [Create] from the defaulting of the IP families to the return,
    together with the deferred [nodePortOp.Finish()].  The second component
    is [toReleaseclusterIPs] as the deferred release finds it. *)
Definition createAllocating (c : Collaborators) (rs : REST) (service : Service)
  (isDryRun : bool)
  : REST * option (gmap IPFamily string) * outcome (option Service * option error) :=
  match tryDefaultValidateServiceClusterIPFields rs service with
  | inl err => (rs, None, Returns (None, Some err))
  | inr service =>
      let '(rs, service, allocation) :=
        if negb isDryRun
        then allocServiceClusterIPs (ordAlloc c) (ordSet c) rs service
        else (rs, service, Returns (None, None)) in
      match allocation with
      | Panics => (rs, None, Panics)
      | Returns (toReleaseclusterIPs, Some err) =>
          (rs, toReleaseclusterIPs, Returns (None, Some err))
      | Returns (toReleaseclusterIPs, None) =>
          let nodePortOp := StartOperation (serviceNodePorts rs) isDryRun in
          let '(nodePortOp, reset, result) := createWithNodePortOp c service nodePortOp in
          let nodePortOp := Finish nodePortOp in
          (setServiceNodePorts rs (pa nodePortOp),
           if reset then None else toReleaseclusterIPs,
           Returns result)
      end
  end.

(** [REST.Create]: the allocators after the call, and what the call
    returns. *)
Definition Create (c : Collaborators) (rs : REST) (service : Service)
  (isDryRun : bool) : REST * outcome (option Service * option error) :=
  match BeforeCreate c service with
  | inl err => (rs, Returns (None, Some err))
  | inr service =>
      let '(rs, toReleaseclusterIPs, result) := createAllocating c rs service isDryRun in
      (* the deferred release; its error is only logged *)
      let '(rs, _) := releaseClusterIPs (ordRelease c) rs toReleaseclusterIPs in
      (rs, result)
  end.

(** *** Update and Delete *)

Definition externalTrafficPolicyUpdate (oldService service : Service) : Service :=
  let neededExternalTraffic :=
    bool_decide (Type_ (Spec oldService) = ServiceTypeNodePort)
    || bool_decide (Type_ (Spec oldService) = ServiceTypeLoadBalancer) in
  let needsExternalTraffic :=
    bool_decide (Type_ (Spec service) = ServiceTypeNodePort)
    || bool_decide (Type_ (Spec service) = ServiceTypeLoadBalancer) in
  if neededExternalTraffic && negb needsExternalTraffic
  then setExternalTrafficPolicy service ServiceExternalTrafficPolicyTypeUnset
  else service.

(** ServiceNodePort: protocol and port number of a service NodePort. *)
Record ServiceNodePort := mkServiceNodePort {
  nodePortProtocol : string;
  nodePortNumber : Z        (* int32 *)
}.

#[global] Instance ServiceNodePort_eq_dec : EqDecision ServiceNodePort.
Proof. solve_decision. Defined.

Fixpoint containsNumber (haystack : list Z) (needle : Z) : bool :=
  match haystack with
  | [] => false
  | v :: haystack => if v =? needle then true else containsNumber haystack needle
  end.

Fixpoint containsNodePort (serviceNodePorts : list ServiceNodePort)
  (serviceNodePort : ServiceNodePort) : bool :=
  match serviceNodePorts with
  | [] => false
  | snp :: serviceNodePorts =>
      if bool_decide (snp = serviceNodePort) then true
      else containsNodePort serviceNodePorts serviceNodePort
  end.

Fixpoint collectNodePorts (ports : list ServicePort) : list Z :=
  match ports with
  | [] => []
  | servicePort :: ports =>
      if negb (NodePort servicePort =? 0)
      then NodePort servicePort :: collectNodePorts ports
      else collectNodePorts ports
  end.

Definition collectServiceNodePorts (service : Service) : list Z :=
  collectNodePorts (Ports (Spec service)).

Definition releaseNodePorts (service : Service) (nodePortOp : PortAllocationOperation)
  : PortAllocationOperation :=
  foldl ReleaseDeferred nodePortOp (collectServiceNodePorts service).

(** The first loop of [updateNodePorts] from index [i] on, for [n] more
    entries. *)
Fixpoint updateNodePortsFrom (oldNodePortsNumbers : list Z) (n : nat) (i : nat)
  (ports : list ServicePort) (newNodePorts : list ServiceNodePort)
  (portAllocated : gmap Z bool) (nodePortOp : PortAllocationOperation)
  : list ServicePort * PortAllocationOperation * option error :=
  match n with
  | O => (ports, nodePortOp, None)
  | S n =>
      match ports !! i with
      | None => (ports, nodePortOp, None)
      | Some servicePort =>
          let nodePort := mkServiceNodePort (Protocol servicePort) (NodePort servicePort) in
          let step :=
            if negb (nodePortNumber nodePort =? 0) then
              if negb (containsNumber oldNodePortsNumbers (nodePortNumber nodePort))
                 && negb (default false (portAllocated !! nodePortNumber nodePort))
              then
                match Allocate nodePortOp (nodePortNumber nodePort) with
                | inl err => inl (ErrInvalid (nodePortField i) (errorString err))
                | inr nodePortOp =>
                    inr (ports, nodePort,
                         <[nodePortNumber nodePort := true]> portAllocated, nodePortOp)
                end
              else inr (ports, nodePort, portAllocated, nodePortOp)
            else
              match AllocateNext nodePortOp with
              | inl err =>
                  inl (ErrInternal (ErrOther ("failed to allocate a nodePort: "
                                              +:+ errorString err)))
              | inr (nodePortNumber, nodePortOp) =>
                  let servicePort := setNodePort servicePort (int32 nodePortNumber) in
                  inr (<[i := servicePort]> ports,
                       mkServiceNodePort (Protocol servicePort) (NodePort servicePort),
                       portAllocated, nodePortOp)
              end in
          match step with
          | inl err => (ports, nodePortOp, Some err)
          | inr (ports, nodePort, portAllocated, nodePortOp) =>
              if containsNodePort newNodePorts nodePort then
                (ports, nodePortOp, Some (ErrOther "duplicate nodePort"))
              else
                updateNodePortsFrom oldNodePortsNumbers n (S i) ports
                  (newNodePorts ++ [nodePort])%list portAllocated nodePortOp
          end
      end
  end.

(** The second loop of [updateNodePorts]. *)
Definition releaseDroppedNodePorts (oldNodePortsNumbers newNodePortsNumbers : list Z)
  (nodePortOp : PortAllocationOperation) : PortAllocationOperation :=
  foldl (λ nodePortOp oldNodePortNumber,
           if containsNumber newNodePortsNumbers oldNodePortNumber then nodePortOp
           else ReleaseDeferred nodePortOp oldNodePortNumber)
        nodePortOp oldNodePortsNumbers.

Definition updateNodePorts (oldService newService : Service)
  (nodePortOp : PortAllocationOperation)
  : Service * PortAllocationOperation * option error :=
  let oldNodePortsNumbers := collectServiceNodePorts oldService in
  match updateNodePortsFrom oldNodePortsNumbers (length (Ports (Spec newService))) 0
          (Ports (Spec newService)) [] ∅ nodePortOp with
  | (ports, nodePortOp, Some err) => (setPorts newService ports, nodePortOp, Some err)
  | (ports, nodePortOp, None) =>
      let newService := setPorts newService ports in
      let newNodePortsNumbers := collectServiceNodePorts newService in
      (newService,
       releaseDroppedNodePorts oldNodePortsNumbers newNodePortsNumbers nodePortOp,
       None)
  end.

(** [handleClusterIPsForUpdatedService]: the allocators and the new Service
    after the call, and the three values returned: allocated, released,
    err. *)
Definition handleClusterIPsForUpdatedService (ordAlloc ordSet ordRelease : MapOrder)
  (rs : REST) (oldService service : Service)
  : REST * Service
    * outcome (option (gmap IPFamily string) * option (gmap IPFamily string)
               * option error) :=
  if bool_decide (Type_ (Spec oldService) = ServiceTypeExternalName)
     && bool_decide (Type_ (Spec service) ≠ ServiceTypeExternalName) then
    (* CASE A *)
    match allocServiceClusterIPs ordAlloc ordSet rs service with
    | (rs, service, Panics) => (rs, service, Panics)
    | (rs, service, Returns (allocated, err)) =>
        (rs, service, Returns (allocated, None, err))
    end
  else if bool_decide (Type_ (Spec oldService) ≠ ServiceTypeExternalName)
          && bool_decide (Type_ (Spec service) = ServiceTypeExternalName) then
    (* CASE B *)
    match releaseServiceClusterIPs ordRelease rs oldService with
    | (rs, Panics) => (rs, service, Panics)
    | (rs, Returns (released, err)) => (rs, service, Returns (None, released, err))
    end
  else if (0 <? length (ClusterIPs (Spec oldService)))%nat && isHeadless oldService then
    (rs, service, Returns (None, None, None))
  else
    let upgraded :=
      (length (IPFamilies (Spec oldService)) =? 1)%nat
      && (length (IPFamilies (Spec service)) =? 2)%nat in
    let downgraded :=
      (length (IPFamilies (Spec oldService)) =? 2)%nat
      && (length (IPFamilies (Spec service)) =? 1)%nat in
    if upgraded then
      (* CASE C *)
      let service :=
        if (length (ClusterIPs (Spec service)) <? 2)%nat
        then setClusterIPs service (ClusterIPs (Spec service) ++ [""])%list
        else service in
      match IPFamilies (Spec service) !! 1%nat, ClusterIPs (Spec service) !! 1%nat with
      | Some family, Some ip =>
          let toAllocate : gmap IPFamily string := <[family := ip]> ∅ in
          match allocClusterIPs ordAlloc rs toAllocate with
          | (rs, Panics) => (rs, service, Panics)
          | (rs, Returns (allocated, Some err)) =>
              (rs, service, Returns (Some allocated, None, Some err))
          | (rs, Returns (allocated, None)) =>
              (* the zero value where the map has no entry *)
              let service :=
                setClusterIPs service
                  (<[1%nat := default "" (allocated !! family)]>
                     (ClusterIPs (Spec service))) in
              (rs, service, Returns (Some allocated, None, None))
          end
      | _, _ => (rs, service, Panics)       (* index out of range *)
      end
    else if downgraded then
      (* CASE D *)
      match IPFamilies (Spec oldService) !! 1%nat,
            ClusterIPs (Spec oldService) !! 1%nat with
      | Some family, Some ip =>
          let toRelease : gmap IPFamily string := <[family := ip]> ∅ in
          let '(rs, (released, err)) := releaseClusterIPs ordRelease rs (Some toRelease) in
          (rs, service, Returns (None, released, err))
      | _, _ => (rs, service, Panics)       (* index out of range *)
      end
    else (rs, service, Returns (None, None, None)).

(** What [Update] calls outside this file besides what [Create] calls:
    the lookup of the stored object, the object the request puts in its
    place, the namespace check, the generic pre-update hook run with the
    strategy, the object store's update, and the orders in which Go ranges
    over the two maps of the deferred clean-up. *)
Record UpdateCollaborators := mkUpdateCollaborators {
  forCreate : Collaborators;
  servicesGet : string → error + Service;
  UpdatedObject : option Service → error + Service;
  ValidNamespace : Service → bool;
  BeforeUpdate : Service → Service → error + Service;
  servicesUpdate : Service → error + (Service * bool);
  ordCleanupRelease : MapOrder;
  ordCleanupAlloc : MapOrder
}.

(** [Update] from the release of the old node ports to the return.  The
    boolean tells whether the two bags have been reset to nil. *)
Definition updateWithNodePortOp (u : UpdateCollaborators) (oldService service : Service)
  (nodePortOp : PortAllocationOperation)
  : PortAllocationOperation * bool * (option Service * bool * option error) :=
  let nodePortOp :=
    if (bool_decide (Type_ (Spec oldService) = ServiceTypeNodePort)
        || bool_decide (Type_ (Spec oldService) = ServiceTypeLoadBalancer))
       && (bool_decide (Type_ (Spec service) = ServiceTypeExternalName)
           || bool_decide (Type_ (Spec service) = ServiceTypeClusterIP))
    then releaseNodePorts oldService nodePortOp
    else nodePortOp in
  let '(service, nodePortOp, err) :=
    if bool_decide (Type_ (Spec service) = ServiceTypeNodePort)
       || bool_decide (Type_ (Spec service) = ServiceTypeLoadBalancer)
    then updateNodePorts oldService service nodePortOp
    else (service, nodePortOp, None) in
  match err with
  | Some err => (nodePortOp, false, (None, false, Some err))
  | None =>
      let service :=
        if bool_decide (Type_ (Spec service) ≠ ServiceTypeLoadBalancer)
        then setStatus service (mkStatus [])
        else service in
      match healthCheckNodePortUpdate oldService service nodePortOp with
      | (service, nodePortOp, (success, err)) =>
          if negb success || bool_decide (err ≠ None) then
            (nodePortOp, false, (None, false, err))
          else
            let service := externalTrafficPolicyUpdate oldService service in
            match ValidateServiceExternalTrafficFieldsCombination (forCreate u) service with
            | Some errs => (nodePortOp, false, (None, false, Some errs))
            | None =>
                match servicesUpdate u service with
                | inl err => (nodePortOp, false, (None, false, Some err))
                | inr (out, created) =>
                    (Commit nodePortOp, true, (Some out, created, None))
                end
            end
      end
  end.

(** [Update] from the start of the node-port operation to the return,
    together with the deferred [nodePortOp.Finish()].  The second and third
    components are [toReleaseClusterIPs] and [toAllocClusterIPs] as the
    deferred clean-up finds them. *)
Definition updateAllocating (u : UpdateCollaborators) (rs : REST)
  (oldService service : Service) (isDryRun : bool)
  : REST * option (gmap IPFamily string) * option (gmap IPFamily string)
    * outcome (option Service * bool * option error) :=
  let nodePortOp := StartOperation (serviceNodePorts rs) isDryRun in
  match tryDefaultValidateServiceClusterIPFields rs service with
  | inl err =>
      (setServiceNodePorts rs (pa (Finish nodePortOp)), None, None,
       Returns (None, false, Some err))
  | inr service =>
      let '(rs, service, handled) :=
        if negb isDryRun
        then handleClusterIPsForUpdatedService (ordAlloc (forCreate u))
               (ordSet (forCreate u)) (ordRelease (forCreate u)) rs oldService service
        else (rs, service, Returns (None, None, None)) in
      match handled with
      | Panics => (setServiceNodePorts rs (pa (Finish nodePortOp)), None, None, Panics)
      | Returns (toReleaseClusterIPs, toAllocClusterIPs, Some err) =>
          (setServiceNodePorts rs (pa (Finish nodePortOp)),
           toReleaseClusterIPs, toAllocClusterIPs, Returns (None, false, Some err))
      | Returns (toReleaseClusterIPs, toAllocClusterIPs, None) =>
          let '(nodePortOp, reset, result) :=
            updateWithNodePortOp u oldService service nodePortOp in
          let nodePortOp := Finish nodePortOp in
          (setServiceNodePorts rs (pa nodePortOp),
           if reset then None else toReleaseClusterIPs,
           if reset then None else toAllocClusterIPs,
           Returns result)
      end
  end.

(** [REST.Update]: the allocators after the call, and what the call
    returns. *)
Definition Update (u : UpdateCollaborators) (rs : REST) (name : string)
  (forceAllowCreate isDryRun : bool)
  : REST * outcome (option Service * bool * option error) :=
  match servicesGet u name with
  | inl err =>
      if forceAllowCreate then
        match UpdatedObject u None with
        | inl err => (rs, Returns (None, false, Some err))
        | inr obj =>
            match Create (forCreate u) rs obj isDryRun with
            | (rs, Panics) => (rs, Panics)
            | (rs, Returns (_, Some err)) => (rs, Returns (None, false, Some err))
            | (rs, Returns (createdObj, None)) => (rs, Returns (createdObj, true, None))
            end
        end
      else (rs, Returns (None, false, Some err))
  | inr oldService =>
      match UpdatedObject u (Some oldService) with
      | inl err => (rs, Returns (None, false, Some err))
      | inr service =>
          if negb (ValidNamespace u service) then
            (rs, Returns (None, false,
               Some (ErrOther "Service.Namespace does not match the provided context")))
          else
            match BeforeUpdate u service oldService with
            | inl err => (rs, Returns (None, false, Some err))
            | inr service =>
                let '(rs, toReleaseClusterIPs, toAllocClusterIPs, result) :=
                  updateAllocating u rs oldService service isDryRun in
                (* the deferred clean-up: release the allocated, allocate the
                   released; its errors are only logged *)
                let '(rs, _) :=
                  releaseClusterIPs (ordCleanupRelease u) rs toReleaseClusterIPs in
                match allocClusterIPs (ordCleanupAlloc u) rs
                        (default ∅ toAllocClusterIPs) with
                | (rs, Panics) => (rs, Panics)
                | (rs, Returns _) => (rs, result)
                end
            end
      end
  end.

(** What [Delete] calls outside this file: the object store, the endpoints
    store, and the test for a NotFound error. *)
Record DeleteCollaborators := mkDeleteCollaborators {
  servicesDelete : string → error + Service;
  endpointsDelete : string → option error;
  IsNotFound : error → bool;
  ordDelete : MapOrder
}.

(** The status [Delete] returns: success, with the name of the deleted
    Service in its details. *)
Inductive DeleteStatus := StatusSuccess (name : string).

Definition releaseAllocatedResources (ord : MapOrder) (rs : REST) (svc : Service)
  : REST * outcome unit :=
  match releaseServiceClusterIPs ord rs svc with
  | (rs, Panics) => (rs, Panics)
  | (rs, Returns _) =>
      let ports := foldl Release (serviceNodePorts rs) (collectServiceNodePorts svc) in
      let ports :=
        if NeedsHealthCheck svc then
          let nodePort := HealthCheckNodePort (Spec svc) in
          if nodePort >? 0 then Release ports nodePort else ports
        else ports in
      (setServiceNodePorts rs ports, Returns tt)
  end.

(** [REST.Delete]: the allocators after the call, and what the call
    returns. *)
Definition Delete (d : DeleteCollaborators) (rs : REST) (id : string)
  (isDryRun : bool) : REST * outcome (option DeleteStatus * bool * option error) :=
  match servicesDelete d id with
  | inl err => (rs, Returns (None, false, Some err))
  | inr svc =>
      let status := (Some (StatusSuccess (Name (Meta svc))), true, None) in
      if negb isDryRun then
        match endpointsDelete d id with
        | Some err =>
            if negb (IsNotFound d err) then (rs, Returns (None, false, Some err))
            else
              match releaseAllocatedResources (ordDelete d) rs svc with
              | (rs, Panics) => (rs, Panics)
              | (rs, Returns _) => (rs, Returns status)
              end
        | None =>
            match releaseAllocatedResources (ordDelete d) rs svc with
            | (rs, Panics) => (rs, Panics)
            | (rs, Returns _) => (rs, Returns status)
            end
        end
      else (rs, Returns status)
  end.

(** *** ResourceLocation *)

(** What [ResourceLocation] and [isValidAddress] call outside this file:
    the parser of the identifier, [strconv.ParseInt] in base 10, the three
    stores, the namespace of the request context, [net.JoinHostPort] and
    [strconv.Itoa], and [rand.Intn]: [Intn k n] is what the [k]-th call of
    the request returns on [n].  Every call is on a length that has been
    tested to be other than 0. *)
Record LocationCollaborators := mkLocationCollaborators {
  SplitSchemeNamePort : string → string * string * string * bool;
  ParseInt : string → option Z;
  getService : string → error + Service;
  getEndpoints : string → error + Endpoints;
  getPod : string → error + PodObject;
  NamespaceValue : string;
  JoinHostPort : string → string → string;
  Itoa : Z → string;
  Intn : nat → nat → nat
}.

(** The errors of [ResourceLocation]: [errors.NewBadRequest],
    [errors.NewServiceUnavailable], or the error of a store. *)
Inductive locationError :=
| BadRequest (msg : string)
| ServiceUnavailable (msg : string)
| StoreError (err : error).

Fixpoint podIPsContain (podIPs : list string) (ip : string) : bool :=
  match podIPs with
  | [] => false
  | podIP :: podIPs => if bool_decide (podIP = ip) then true else podIPsContain podIPs ip
  end.

(** [isValidAddress]: [None] is the nil error. *)
Definition isValidAddress (l : LocationCollaborators) (addr : EndpointAddress)
  : option error :=
  match TargetRef addr with
  | None => Some (ErrOther "Address has no target ref, skipping")
  | Some targetRef =>
      if bool_decide (NamespaceValue l ≠ RefNamespace targetRef) then
        Some (ErrOther "Address namespace doesn't match context namespace")
      else
        match getPod l (RefName targetRef) with
        | inl err => Some err
        | inr ObjNotPod => Some (ErrOther "failed to cast to pod")
        | inr (ObjPod None) => Some (ErrOther "pod is missing, skipping")
        | inr (ObjPod (Some pod)) =>
            if podIPsContain (PodIPs pod) (AddressIP addr) then None
            else Some (ErrOther "pod ip(s) doesn't match endpoint ip, skipping")
        end
  end.

(** The scan of the Service's ports for a port number. *)
Fixpoint findPortName (portNum : Z) (ports : list ServicePort) : option string :=
  match ports with
  | [] => None
  | svcPort :: ports =>
      if Port svcPort =? portNum then Some (PortName svcPort)
      else findPortName portNum ports
  end.

(** The first part of [ResourceLocation]: the port name the search is
    for. *)
Definition resolvePortName (l : LocationCollaborators) (svcName portStr : string)
  : locationError + string :=
  match ParseInt l portStr with
  | Some portNum =>
      match getService l svcName with
      | inl err => inl (StoreError err)
      | inr svc =>
          match findPortName portNum (Ports (Spec svc)) with
          | Some name => inr name
          | None => inl (ServiceUnavailable "no service port found for service")
          end
      end
  | None => inr portStr
  end.

(** The loop over the addresses of a subset, from [try] on for [n] more
    turns.  The index is below the length, which is not 0 here. *)
Fixpoint tryAddresses (l : LocationCollaborators) (addresses : list EndpointAddress)
  (addrSeed : nat) (n try : nat) : option EndpointAddress :=
  match n with
  | O => None
  | S n =>
      match addresses !! ((addrSeed + try) mod length addresses)%nat with
      | None => None
      | Some addr =>
          match isValidAddress l addr with
          | Some _ => tryAddresses l addresses addrSeed n (S try)
          | None => Some addr
          end
      end
  end.

(** The loop over the ports of a subset; [calls] counts the calls of
    [rand.Intn] so far. *)
Fixpoint searchPorts (l : LocationCollaborators) (svcScheme portStr : string)
  (ss : EndpointSubset) (ports : list EndpointPort) (calls : nat)
  : nat * option URL :=
  match ports with
  | [] => (calls, None)
  | port :: ports =>
      if bool_decide (EndpointPortName port = portStr) then
        let addrSeed := Intn l calls (length (Addresses ss)) in
        match tryAddresses l (Addresses ss) addrSeed (length (Addresses ss)) 0 with
        | Some addr =>
            (S calls,
             Some (mkURL svcScheme
                     (JoinHostPort l (AddressIP addr) (Itoa l (EndpointPortNumber port)))))
        | None => searchPorts l svcScheme portStr ss ports (S calls)
        end
      else searchPorts l svcScheme portStr ss ports calls
  end.

(** The loop over the subsets, from [ssi] on for [n] more turns. *)
Fixpoint searchSubsets (l : LocationCollaborators) (svcScheme portStr : string)
  (subsets : list EndpointSubset) (ssSeed : nat) (n ssi : nat) (calls : nat)
  : option URL :=
  match n with
  | O => None
  | S n =>
      match subsets !! ((ssSeed + ssi) mod length subsets)%nat with
      | None => None
      | Some ss =>
          if (length (Addresses ss) =? 0)%nat then
            searchSubsets l svcScheme portStr subsets ssSeed n (S ssi) calls
          else
            match searchPorts l svcScheme portStr ss (SubsetPorts ss) calls with
            | (_, Some location) => Some location
            | (calls, None) =>
                searchSubsets l svcScheme portStr subsets ssSeed n (S ssi) calls
            end
      end
  end.

(** [REST.ResourceLocation]: the URL, or the error.  The round tripper
    returned with the URL is the one the REST holds. *)
Definition ResourceLocation (l : LocationCollaborators) (id : string)
  : locationError + URL :=
  let '(svcScheme, svcName, portStr, valid) := SplitSchemeNamePort l id in
  if negb valid then inl (BadRequest "invalid service request")
  else
    match resolvePortName l svcName portStr with
    | inl err => inl err
    | inr portStr =>
        match getEndpoints l svcName with
        | inl err => inl (StoreError err)
        | inr eps =>
            if (length (Subsets eps) =? 0)%nat then
              inl (ServiceUnavailable "no endpoints available for service")
            else
              let ssSeed := Intn l 0 (length (Subsets eps)) in
              match searchSubsets l svcScheme portStr (Subsets eps) ssSeed
                      (length (Subsets eps)) 0 1 with
              | Some location => inr location
              | None => inl (ServiceUnavailable "no endpoints available for service")
              end
        end
    end.

End REST.

Arguments REST A : clear implicits.

End Storage.

(** ** Notions the statements below use *)

Module AsSpecified.

Import Storage.

Section Words.

Context {IP A : Type} `{!NetLib IP} `{!ipallocator.Interface IP A}.

(** The textual address family of an IP literal. *)
Definition familyOfLiteral (ip : string) : IPFamily :=
  if IsIPv6String ip then IPv6Protocol else IPv4Protocol.

(** The other one of the two families. *)
Definition complementaryFamily (family : IPFamily) : IPFamily :=
  match family with
  | IPv4Protocol => IPv6Protocol
  | IPv6Protocol => IPv4Protocol
  end.

Definition isLiteral (ip : string) : bool :=
  negb (bool_decide (ip = "")) && negb (bool_decide (ip = ClusterIPNone)).

(** The entries of [ClusterIPs] before the first empty string or "None". *)
Fixpoint leadingLiterals (clusterIPs : list string) : list string :=
  match clusterIPs with
  | [] => []
  | ip :: clusterIPs => if isLiteral ip then ip :: leadingLiterals clusterIPs else []
  end.

(** The message of the Invalid error for a cluster IP of a family that has
    no allocator. *)
Definition notConfigured (family : IPFamily) : string :=
  match family with
  | IPv4Protocol => "ClusterIP of IPv4 can not be used, IPv4 is not configuerd on cluster"
  | IPv6Protocol => "ClusterIP of IPv6 can not be used, IPv6 is not configuerd on cluster"
  end.

(** Rule 3 of section 4.3 read literally: each literal of [ClusterIPs] other
    than the empty string and "None" is processed, in order; an entry that is
    the empty string or "None" is passed over. *)
Fixpoint defaultFamiliesEachLiteral (rs : REST A) (i : nat)
  (clusterIPs : list string) (families : list IPFamily) : error + list IPFamily :=
  match clusterIPs with
  | [] => inr families
  | ip :: clusterIPs =>
      if isLiteral ip then
        if (length families <=? i)%nat then
          match serviceIPAllocatorsByFamily rs !! familyOfLiteral ip with
          | None =>
              inl (ErrInvalid [Child "spec"; Child "clusterIPs"; Index i]
                     (notConfigured (familyOfLiteral ip)))
          | Some _ =>
              defaultFamiliesEachLiteral rs (S i) clusterIPs
                (families ++ [familyOfLiteral ip])%list
          end
        else defaultFamiliesEachLiteral rs (S i) clusterIPs families
      else defaultFamiliesEachLiteral rs (S i) clusterIPs families
  end.

(** Rule 4 of section 4.3: the families of a headless Service without
    selector, given the policy in force. *)
Definition headlessFamilies (rs : REST A) (policy : IPFamilyPolicyType)
  (families : list IPFamily) : list IPFamily :=
  let families :=
    match families with
    | [] => [defaultServiceIPFamily rs]
    | _ => families
    end in
  match families with
  | [family] =>
      if bool_decide (policy = RequireDualStack
                      ∨ (policy = PreferDualStack
                         ∧ size (serviceIPAllocatorsByFamily rs) = 2%nat))
      then [family; complementaryFamily family]
      else [family]
  | _ => families
  end.

(** No two entries with the same [Port] name different non-zero
    [NodePort]s. *)
Definition consistentRequests (ports : list ServicePort) : Prop :=
  ∀ i j p q, ports !! i = Some p → ports !! j = Some q → Port p = Port q →
             NodePort p = 0 ∨ NodePort q = 0 ∨ NodePort p = NodePort q.

(** The families of [toRelease] that have an allocator. *)
Definition configuredOnly (rs : REST A) (toRelease : gmap IPFamily string)
  : gmap IPFamily string :=
  filter (λ entry, is_Some (serviceIPAllocatorsByFamily rs !! fst entry)) toRelease.

(** What the loop of [initNodePorts] keeps true on reaching index [i]:
    [ports] has the [Port]s of the [requested] entries and is unchanged from
    [i] on; the map holds, for the [Port] of every entry before [i], that
    entry's [NodePort]; and a value the map holds is a port (not 0, an int32)
    that every request for that [Port] naming a node port names. *)
Definition sharedSoFar (requested : list ServicePort) (i : nat)
  (ports : list ServicePort) (svcPortToNodePort : gmap Z Z) : Prop :=
  length ports = length requested
  ∧ (∀ k p0, requested !! k = Some p0 →
             ∃ p, ports !! k = Some p ∧ Port p = Port p0)
  ∧ (∀ k, (i ≤ k)%nat → ports !! k = requested !! k)
  ∧ (∀ k p, (k < i)%nat → ports !! k = Some p →
            svcPortToNodePort !! Port p = Some (NodePort p))
  ∧ (∀ port v, svcPortToNodePort !! port = Some v →
       v ≠ 0 ∧ int32 v = v
       ∧ ∀ k p0, requested !! k = Some p0 → Port p0 = port →
                 NodePort p0 ≠ 0 → NodePort p0 = v).

(** What a node-port operation opened on the allocator [pa0] and not yet
    committed keeps true: it will roll back, and the allocator holds the
    ports of [pa0] together with the staged ones, which were free in
    [pa0]. *)
Definition stagedOn (pa0 : portallocator.PortAllocator)
  (op : portallocator.PortAllocationOperation) : Prop :=
  portallocator.dryRun op = false
  ∧ portallocator.shouldRollback op = true
  ∧ portallocator.setUsed (portallocator.pa op) (portallocator.Used pa0) = pa0
  ∧ portallocator.Used (portallocator.pa op)
    = portallocator.Used pa0 ∪ list_to_set (portallocator.allocated op)
  ∧ list_to_set (portallocator.allocated op) ## portallocator.Used pa0.

(** The per-family allocators [current] differ from [before] by the
    addresses of [allocated], each of which one [Release] gives back. *)
Definition releasable (before current : gmap IPFamily A)
  (allocated : gmap IPFamily string) : Prop :=
  ∀ family,
    match allocated !! family with
    | Some ip =>
        ∃ a0 a1, before !! family = Some a0 ∧ current !! family = Some a1
                 ∧ ipallocator.Release a1 (ParseIP ip) = inr a0
    | None => current !! family = before !! family
    end.

(** Rules 7 and 8 of section 4.3: the families of a Service that is not
    headless without selector, given the policy in force. *)
Definition standardFamilies (rs : REST A) (policy : IPFamilyPolicyType)
  (families : list IPFamily) : list IPFamily :=
  let families :=
    match families with
    | [] => [defaultServiceIPFamily rs]
    | _ => families
    end in
  match families with
  | [family] =>
      if bool_decide (policy ≠ SingleStack
                      ∧ size (serviceIPAllocatorsByFamily rs) = 2%nat)
      then [family; complementaryFamily family]
      else [family]
  | _ => families
  end.

(** The families that have an allocator, and the default family, are the
    same in both. *)
Definition sameConfiguration (rs rs' : REST A) : Prop :=
  defaultServiceIPFamily rs' = defaultServiceIPFamily rs
  ∧ ∀ family, is_Some (serviceIPAllocatorsByFamily rs' !! family)
              ↔ is_Some (serviceIPAllocatorsByFamily rs !! family).

(** The operation holds the port: it has staged it, the port is in the
    range, and outside a dry run the allocator has it reserved. *)
Definition reserved (op : portallocator.PortAllocationOperation) (port : Z) : Prop :=
  port ∈ portallocator.allocated op
  ∧ portallocator.inRange (portallocator.pa op) port = true
  ∧ (portallocator.dryRun op = false →
     port ∈ portallocator.Used (portallocator.pa op)).

(** Two entries that differ in their [NodePort] at most. *)
Definition sameButNodePort (p p0 : ServicePort) : Prop :=
  PortName p = PortName p0 ∧ Protocol p = Protocol p0
  ∧ Port p = Port p0 ∧ TargetPort p = TargetPort p0.

(** What the loop of [initNodePorts] keeps true on reaching index [i],
    whatever the request: an entry differs from the requested one in its
    [NodePort] at most, and not at all if the request names a node port or
    the entry is yet to come; the entries before [i] carry node ports the
    operation holds, and the map holds such a port for each of their
    [Port]s. *)
Definition allocatedSoFar (requested : list ServicePort) (i : nat)
  (ports : list ServicePort) (svcPortToNodePort : gmap Z Z)
  (op : portallocator.PortAllocationOperation) : Prop :=
  length ports = length requested
  ∧ (∀ k p0, requested !! k = Some p0 →
             ∃ p, ports !! k = Some p ∧ sameButNodePort p p0
                  ∧ (NodePort p0 ≠ 0 → NodePort p = NodePort p0))
  ∧ (∀ k, (i ≤ k)%nat → ports !! k = requested !! k)
  ∧ (∀ k p, (k < i)%nat → ports !! k = Some p →
            reserved op (NodePort p) ∧ is_Some (svcPortToNodePort !! Port p))
  ∧ (∀ port v, svcPortToNodePort !! port = Some v → reserved op v).

(** The protocol and node port of an entry, as [updateNodePorts] compares
    them. *)
Definition nodePortOf (p : ServicePort) : ServiceNodePort :=
  mkServiceNodePort (Protocol p) (NodePort p).

(** What the first loop of [updateNodePorts] keeps true on reaching index
    [i]: [newNodePorts] lists the protocol and node port of the entries
    before [i], no two alike; an entry differs from the requested one in its
    [NodePort] at most, and then the request names none and the entry has
    the int32 of a port the operation holds; the entries from [i] on are as
    requested; and the
    operation has scheduled no further release, holds what it held and works
    on the same range. *)
Definition updatedSoFar (requested : list ServicePort) (i : nat)
  (ports : list ServicePort) (newNodePorts : list ServiceNodePort)
  (op0 op : portallocator.PortAllocationOperation) : Prop :=
  length ports = length requested
  ∧ newNodePorts = map nodePortOf (take i ports)
  ∧ NoDup newNodePorts
  ∧ (∀ k p0, requested !! k = Some p0 →
             ∃ p, ports !! k = Some p ∧ sameButNodePort p p0
                  ∧ (NodePort p0 ≠ 0 → NodePort p = NodePort p0)
                  ∧ (NodePort p0 = 0 → (k < i)%nat →
                     ∃ v, reserved op v ∧ NodePort p = int32 v))
  ∧ (∀ k, (i ≤ k)%nat → ports !! k = requested !! k)
  ∧ portallocator.releaseDeferred op = portallocator.releaseDeferred op0
  ∧ (∀ v, reserved op0 v → reserved op v)
  ∧ portallocator.Base (portallocator.pa op) = portallocator.Base (portallocator.pa op0)
  ∧ portallocator.Size (portallocator.pa op) = portallocator.Size (portallocator.pa op0).

(** The allocators hold the cluster IPs of the Service: the address the
    Service has for a family of its [IPFamilies] is not the marker, and the
    state of that family's allocator is one that allocating the address
    has led to. *)
Definition held (rs : REST A) (service : Service) : Prop :=
  ∀ i family ip,
    IPFamilies (Spec service) !! i = Some family →
    ClusterIPs (Spec service) !! i = Some ip →
    ip ≠ ""
    ∧ ∀ a, serviceIPAllocatorsByFamily rs !! family = Some a →
           ∃ a0, ipallocator.Allocate a0 (ParseIP ip) = inr a.

(** The per-family allocators [current] differ from [before] by the
    addresses of [released], none of them the marker, each of which one
    [Allocate] takes back. *)
Definition reallocatable (before current : gmap IPFamily A)
  (released : gmap IPFamily string) : Prop :=
  ∀ family,
    match released !! family with
    | Some ip =>
        ip ≠ ""
        ∧ ∃ a0 a1, before !! family = Some a0 ∧ current !! family = Some a1
                   ∧ ipallocator.Allocate a1 (ParseIP ip) = inr a0
    | None => current !! family = before !! family
    end.

(** The node ports [Delete] releases for a Service: those of its entries
    and, if it needs a health check, its health-check node port. *)
Definition portsOf (service : Service) : gset Z :=
  list_to_set (collectServiceNodePorts service)
  ∪ (if NeedsHealthCheck service && (HealthCheckNodePort (Spec service) >? 0)
     then {[HealthCheckNodePort (Spec service)]} else ∅).

End Words.

End AsSpecified.

(** ** Sample clusters and Services *)

Module Sample.

Import Storage portallocator.

(** A stand-in for the Go net library on textual addresses: an address is
    its text, every text is taken to be an address, and it is an IPv6
    address when it has a colon. *)
Fixpoint hasColon (s : string) : bool :=
  match s with
  | EmptyString => false
  | String c s => if Ascii.eqb c (Ascii.ascii_of_nat 58) then true else hasColon s
  end.

#[global] Instance textNet : NetLib string := {
  ParseIP s := Some s;
  IPString s := s;
  IsIPv6String := hasColon
}.

Definition firstFree {K} `{Countable K} (candidates : list K) (used : gset K)
  : option K :=
  List.find (λ x, negb (bool_decide (x ∈ used))) candidates.

Definition v4Range : ipallocator.Range string :=
  ipallocator.mkRange false (λ s, negb (hasColon s))
    (firstFree ["10.0.0.1"; "10.0.0.2"; "10.0.0.3"]) {["10.0.0.1"]}.

Definition v6Range : ipallocator.Range string :=
  ipallocator.mkRange true hasColon (firstFree ["2001:db8:1::1"; "2001:db8:1::2"]) ∅.

Definition nodePorts : PortAllocator :=
  mkPortAllocator 30000 2768 (firstFree [30000; 30001; 30002; 30003]) {[30000]}.

(** A cluster with 10.0.0.0/16 only, and one with 2001:db8:1::/48 as well. *)
Definition singleStackCluster : REST (ipallocator.Range string) :=
  NewREST v4Range None nodePorts.
Definition dualStackCluster : REST (ipallocator.Range string) :=
  NewREST v4Range (Some v6Range) nodePorts.

Definition meta : ObjectMeta := mkMeta "foo" "bar" "" "1".

Definition port (name : string) (p np : Z) : ServicePort :=
  mkServicePort name "TCP" p (FromInt p) np.

Definition service (type : ServiceType) (ports : list ServicePort)
  (selector : option (gmap string string)) (clusterIPs : list string)
  (families : list IPFamily) (policy : option IPFamilyPolicyType) : Service :=
  mkService meta
    (mkSpec type ports selector clusterIPs families policy
            ServiceExternalTrafficPolicyTypeUnset 0 "None" [])
    (mkStatus []).

Definition selector : option (gmap string string) := Some {["key" := "val"]}.

Definition ingress : ServiceStatus := mkStatus [mkIngress "1.2.3.4" ""].

(** A LoadBalancer with [ExternalTrafficPolicy = Local]. *)
Definition localLoadBalancer (healthCheckNodePort : Z) : Service :=
  mkService meta
    (mkSpec ServiceTypeLoadBalancer [port "http" 80 30002] selector ["10.0.0.5"]
            [IPv4Protocol] (Some SingleStack)
            ServiceExternalTrafficPolicyTypeLocal healthCheckNodePort "None" [])
    (mkStatus []).

(** Collaborators whose pre-create hook is the strategy's [PrepareForCreate]
    and whose object store answers as given. *)
Definition collaborators (store : Service → error + Service) : Collaborators :=
  mkCollaborators
    (λ svc, inr (Strategy.PrepareForCreate (Strategy.mkGates true false) svc))
    (λ _, None) store (λ err _, err) IPv4First IPv6First IPv6First.

Definition storeDown : Service → error + Service :=
  λ _, inl (ErrOther "etcdserver: request timed out").

Definition updateStoreDown : Service → error + (Service * bool) :=
  λ _, inl (ErrOther "etcdserver: request timed out").

(** Collaborators of an update that finds [stored] and puts [updated] in
    its place: the pre-update hook is the strategy's [PrepareForUpdate],
    and the object store answers as given. *)
Definition updateCollaborators (stored updated : Service)
  (store : Service → error + (Service * bool)) : UpdateCollaborators :=
  mkUpdateCollaborators (collaborators storeDown)
    (λ _, inr stored) (λ _, inr updated) (λ _, true)
    (λ svc old, inr (Strategy.PrepareForUpdate (Strategy.mkGates true false) svc old))
    store IPv4First IPv6First.

(** Collaborators of a deletion of [stored]; the endpoints store answers as
    given. *)
Definition deleteCollaborators (stored : Service) (endpoints : option error)
  : DeleteCollaborators :=
  mkDeleteCollaborators (λ _, inr stored) (λ _, endpoints)
    (λ err, match err with
            | ErrOther msg => bool_decide (msg = "endpoints not found")
            | _ => false
            end)
    IPv4First.

(** A ClusterIP Service that holds 10.0.0.1, and a dual-stack one that
    holds 2001:db8:1::1 as well on a cluster where both are reserved. *)
Definition storedService : Service :=
  service ServiceTypeClusterIP [port "http" 80 0] selector ["10.0.0.1"]
    [IPv4Protocol] (Some SingleStack).

Definition storedDualStackService : Service :=
  service ServiceTypeClusterIP [port "http" 80 0] selector
    ["10.0.0.1"; "2001:db8:1::1"] [IPv4Protocol; IPv6Protocol]
    (Some RequireDualStack).

Definition v6RangeInUse : ipallocator.Range string :=
  ipallocator.mkRange true hasColon (firstFree ["2001:db8:1::1"; "2001:db8:1::2"])
    {["2001:db8:1::1"]}.

Definition dualStackClusterInUse : REST (ipallocator.Range string) :=
  NewREST v4Range (Some v6RangeInUse) nodePorts.

(** A NodePort Service that holds the node port 30000. *)
Definition storedNodePortService : Service :=
  service ServiceTypeNodePort [port "http" 80 30000] selector ["10.0.0.1"]
    [IPv4Protocol] (Some SingleStack).

(** The Endpoints of the Service foo: a subset without address, and one
    with an address that references no Pod and one that references the Pod
    pod-a of namespace bar, which has that address. *)
Definition backends : Endpoints :=
  mkEndpoints
    [mkEndpointSubset [] [mkEndpointPort "http" 8080];
     mkEndpointSubset
       [mkEndpointAddress "10.1.0.9" None;
        mkEndpointAddress "10.1.0.5" (Some (mkObjectReference "bar" "pod-a"))]
       [mkEndpointPort "https" 8443; mkEndpointPort "http" 8080]].

(** Stand-ins for the identifier parser, the stores and the Go library on
    the request foo:http in namespace bar; [rand.Intn] returns [seed mod n]
    at every call. *)
Definition locationCollaborators (seed : nat) : LocationCollaborators :=
  mkLocationCollaborators
    (λ id, ("http", "foo", "http", bool_decide (id = "foo:http")))
    (λ _, None)
    (λ _, inr storedService)
    (λ _, inr backends)
    (λ name, if bool_decide (name = "pod-a") then inr (ObjPod (Some (mkPod ["10.1.0.5"])))
             else inl (ErrOther "pod not found"))
    "bar"
    (λ host port, host +:+ ":" +:+ port)
    (λ number, if number =? 8080 then "8080" else "8443")
    (λ _ n, (seed mod n)%nat).

End Sample.

(** * Properties *)

(** Case analysis on every test of the goal. *)
Ltac case_tests :=
  repeat match goal with
         | |- context [if ?b then _ else _] => destruct b; simpl
         end.

(** ** The strategy *)

Section StrategyFacts.

Import Strategy.

Lemma dropServiceDisabledFields_ClusterIPs gates newSvc oldSvc :
  ClusterIPs (Spec (dropServiceDisabledFields gates newSvc oldSvc))
  = ClusterIPs (Spec newSvc).
Proof.
  unfold dropServiceDisabledFields. case_tests; reflexivity.
Qed.

Lemma dropServiceDisabledFields_Type gates newSvc oldSvc :
  Type_ (Spec (dropServiceDisabledFields gates newSvc oldSvc)) = Type_ (Spec newSvc).
Proof.
  unfold dropServiceDisabledFields. case_tests; reflexivity.
Qed.

(** Where the feature gate drops the dual-stack fields, they were not in
    use: the fields are as before. *)
Lemma dropServiceDisabledFields_families gates newSvc oldSvc :
  IPFamilies (Spec (dropServiceDisabledFields gates newSvc oldSvc))
  = IPFamilies (Spec newSvc)
  ∧ IPFamilyPolicy (Spec (dropServiceDisabledFields gates newSvc oldSvc))
    = IPFamilyPolicy (Spec newSvc).
Proof.
  unfold dropServiceDisabledFields.
  destruct (negb (IPv6DualStack gates) && negb (serviceDualStackFieldsInUse oldSvc)
            && negb (serviceDualStackFieldsInUse (Some newSvc))) eqn:Hdrop.
  - apply andb_prop in Hdrop as [_ Hnew]. apply negb_true_iff in Hnew.
    unfold serviceDualStackFieldsInUse in Hnew.
    apply orb_false_iff in Hnew as [Hpol Hfam].
    apply bool_decide_eq_false in Hpol.
    apply negb_false_iff, Nat.eqb_eq in Hfam.
    assert (IPFamilyPolicy (Spec newSvc) = None) as Hnone
        by (destruct (IPFamilyPolicy (Spec newSvc)); [exfalso; apply Hpol|]; done).
    assert (IPFamilies (Spec newSvc) = []) as Hnil
        by (destruct (IPFamilies (Spec newSvc)); [done | discriminate]).
    destruct (negb (ServiceTopology gates) && negb (topologyKeysInUse oldSvc));
      simpl; rewrite Hnone, Hnil; done.
  - destruct (negb (ServiceTopology gates) && negb (topologyKeysInUse oldSvc));
      done.
Qed.

(** C5 (as amended): [Export] with [exact = true] blanks [Status] and
    changes nothing else of a Service: the metadata and the whole [Spec], and
    with it [ClusterIPs] and every port's [NodePort], are preserved. *)
Theorem Export_exact_blanks_status_only (x : Service) :
  ∃ y, Export (ObjService x) true = (ObjService y, None)
       ∧ Status y = mkStatus []
       ∧ Meta y = Meta x
       ∧ Spec y = Spec x
       ∧ ClusterIPs (Spec y) = ClusterIPs (Spec x)
       ∧ map NodePort (Ports (Spec y)) = map NodePort (Ports (Spec x)).
Proof.
  exists (setStatus x (mkStatus [])). simpl. repeat split; reflexivity.
Qed.

(** C5 (as stated) fails: exporting a stored Service that has a
    load-balancer ingress with [exact = true] does not give the Service
    back, its [Status] is gone. *)
Lemma Export_exact_not_identity :
  let x := setStatus (Sample.service ServiceTypeLoadBalancer [] Sample.selector
                        ["10.0.0.5"] [IPv4Protocol] (Some SingleStack))
                     Sample.ingress in
  Export (ObjService x) true ≠ (ObjService x, None)
  ∧ ∃ y, Export (ObjService x) true = (ObjService y, None) ∧ Status y ≠ Status x.
Proof.
  simpl. split.
  - intros H. discriminate H.
  - eexists. split; [reflexivity|]. simpl. discriminate.
Qed.

(** C6: on an update from a type other than ExternalName to ExternalName,
    [PrepareForUpdate] clears [ClusterIPs], [IPFamilies] and [IPFamilyPolicy]
    when the new [ClusterIPs] is empty or one empty string, and leaves the
    three fields as given when an IP literal remains in it. *)
Theorem PrepareForUpdate_to_ExternalName gates (newService oldService : Service) :
  Type_ (Spec oldService) ≠ ServiceTypeExternalName →
  Type_ (Spec newService) = ServiceTypeExternalName →
  let prepared := PrepareForUpdate gates newService oldService in
  (ClusterIPs (Spec newService) = [] ∨ ClusterIPs (Spec newService) = [""] →
   ClusterIPs (Spec prepared) = []
   ∧ IPFamilies (Spec prepared) = []
   ∧ IPFamilyPolicy (Spec prepared) = None)
  ∧ ((∃ ip, ip ∈ ClusterIPs (Spec newService) ∧ ip ≠ "") →
     ClusterIPs (Spec prepared) = ClusterIPs (Spec newService)
     ∧ IPFamilies (Spec prepared) = IPFamilies (Spec newService)
     ∧ IPFamilyPolicy (Spec prepared) = IPFamilyPolicy (Spec newService)).
Proof.
  intros Hold Hnew prepared. subst prepared.
  unfold PrepareForUpdate, clearClusterIPRelatedFields.
  set (dropped := dropServiceDisabledFields gates
                    (setStatus newService (Status oldService)) (Some oldService)).
  assert (Type_ (Spec dropped) = ServiceTypeExternalName) as Hty
      by (subst dropped; rewrite dropServiceDisabledFields_Type; done).
  assert (ClusterIPs (Spec dropped) = ClusterIPs (Spec newService)) as Hips
      by (subst dropped; rewrite dropServiceDisabledFields_ClusterIPs; done).
  destruct (dropServiceDisabledFields_families gates
              (setStatus newService (Status oldService)) (Some oldService))
    as [Hfam Hpol].
  fold dropped in Hfam, Hpol. simpl in Hfam, Hpol.
  rewrite Hty, Hips.
  rewrite (bool_decide_eq_true_2 _ eq_refl), (bool_decide_eq_true_2 _ Hold).
  simpl. split.
  - intros [Hnil | Hone]; rewrite ?Hnil, ?Hone; simpl; done.
  - intros (ip & Hin & Hne).
    destruct (ClusterIPs (Spec newService)) as [|ip0 [|ip1 ips]] eqn:Hc.
    + by apply elem_of_nil in Hin.
    + apply list_elem_of_singleton in Hin. subst ip0.
      destruct ip as [|c s]; [done|]. simpl. rewrite Hips. done.
    + simpl. rewrite andb_false_r. rewrite Hips. done.
Qed.

(** C6, at the update of a ClusterIP Service to ExternalName where the user
    has blanked the cluster IP. *)
Lemma PrepareForUpdate_to_ExternalName_witness :
  let oldService := Sample.service ServiceTypeClusterIP [] Sample.selector
                      ["10.0.0.4"] [IPv4Protocol] (Some SingleStack) in
  let newService := Sample.service ServiceTypeExternalName [] Sample.selector
                      [""] [IPv4Protocol] (Some SingleStack) in
  ClusterIPs (Spec (PrepareForUpdate (mkGates true false) newService oldService)) = []
  ∧ IPFamilies (Spec (PrepareForUpdate (mkGates true false) newService oldService)) = []
  ∧ IPFamilyPolicy (Spec (PrepareForUpdate (mkGates true false) newService oldService))
    = None.
Proof.
  intros oldService newService.
  refine (proj1 (PrepareForUpdate_to_ExternalName (mkGates true false)
                   newService oldService _ _) _).
  - discriminate.
  - reflexivity.
  - right. reflexivity.
Defined.

(** C8: the status strategy's [PrepareForUpdate] leaves the new object with
    the old object's [Spec]; only [Status] (and the metadata) are the new
    object's, so no field that records an allocation differs from the stored
    one. *)
Theorem StatusPrepareForUpdate_keeps_spec (newService oldService : Service) :
  let prepared := StatusPrepareForUpdate newService oldService in
  Spec prepared = Spec oldService
  ∧ Status prepared = Status newService
  ∧ Meta prepared = Meta newService
  ∧ ClusterIPs (Spec prepared) = ClusterIPs (Spec oldService)
  ∧ map NodePort (Ports (Spec prepared)) = map NodePort (Ports (Spec oldService))
  ∧ HealthCheckNodePort (Spec prepared) = HealthCheckNodePort (Spec oldService).
Proof. simpl. repeat split; reflexivity. Qed.

End StrategyFacts.

(** ** The storage layer *)

Section StorageFacts.

Import Storage portallocator AsSpecified.

Context {IP A : Type} `{!NetLib IP} `{!ipallocator.Interface IP A}.

Implicit Types (rs : REST A) (service : Service).

(** *** The health-check node port *)

(** C7: while the health check is needed before and after the update, a
    changed [HealthCheckNodePort] is rejected with an Invalid error on
    spec.healthCheckNodePort, and an unchanged one succeeds with the Service
    and the node-port operation untouched: nothing is staged, nothing is
    scheduled for release. *)
Theorem healthCheckNodePortUpdate_remains_needed
  (oldService service : Service) (nodePortOp : PortAllocationOperation) :
  NeedsHealthCheck oldService = true →
  NeedsHealthCheck service = true →
  (HealthCheckNodePort (Spec service) ≠ HealthCheckNodePort (Spec oldService) →
   ∃ detail,
     healthCheckNodePortUpdate oldService service nodePortOp
     = (service, nodePortOp,
        (false, Some (ErrInvalid [Child "spec"; Child "healthCheckNodePort"] detail))))
  ∧ (HealthCheckNodePort (Spec service) = HealthCheckNodePort (Spec oldService) →
     healthCheckNodePortUpdate oldService service nodePortOp
     = (service, nodePortOp, (true, None))).
Proof.
  intros Hold Hnew. unfold healthCheckNodePortUpdate. rewrite Hold, Hnew. simpl.
  split; intros Hhc.
  - eexists. destruct (Z.eqb_spec (HealthCheckNodePort (Spec oldService))
                                  (HealthCheckNodePort (Spec service))) as [Heq|Hne].
    + congruence.
    + reflexivity.
  - rewrite Hhc, Z.eqb_refl. reflexivity.
Qed.

(** *** The IP-family defaulter *)

Lemma isHeadlessSelectorless_spec service :
  isHeadlessSelectorless service = true
  ↔ ClusterIPs (Spec service) !! 0%nat = Some ClusterIPNone
    ∧ Selector (Spec service) = None.
Proof.
  unfold isHeadlessSelectorless, isHeadless.
  rewrite !andb_true_iff, !bool_decide_eq_true, Nat.ltb_lt.
  split; [tauto|]. intros [Hip Hsel]. repeat split; try done.
  destruct (ClusterIPs (Spec service)); [discriminate | simpl; lia].
Qed.

(** C9: whenever control reaches the "ipfamily check", the Service is not
    headless without selector (the first test has returned for those), so
    the check takes its else branch and carries out the validation of the
    families. *)
Theorem second_headless_test_never_holds rs service reached :
  beforeFamilyCheck rs service = ReachesFamilyCheck reached →
  (ClusterIPs (Spec reached) !! 0%nat ≠ Some ClusterIPNone
   ∨ Selector (Spec reached) ≠ None)
  ∧ ipFamilyCheck rs reached ≠ NoValidation
  ∧ ipFamilyCheck rs reached = Validated (validateFamilies rs reached)
  ∧ tryDefaultValidateServiceClusterIPFields rs service
    = match validateFamilies rs reached with
      | Some err => inl err
      | None => inr (defaultPolicyAndFamilies rs reached)
      end.
Proof.
  intros Hreach.
  assert (isHeadlessSelectorless reached = false) as Hno.
  { unfold beforeFamilyCheck in Hreach.
    destruct (bool_decide _); [discriminate|].
    destruct (policyConflict service); [discriminate|].
    destruct (defaultFamiliesFromClusterIPs _ _ _ _) as [err|families];
      [discriminate|].
    destruct (isHeadlessSelectorless (setIPFamilies service families)) eqn:Hh;
      [discriminate|].
    injection Hreach as <-. exact Hh. }
  assert (ipFamilyCheck rs reached = Validated (validateFamilies rs reached)) as Hcheck
      by (unfold ipFamilyCheck; rewrite Hno; reflexivity).
  split; [|split; [|split]].
  - destruct (decide (ClusterIPs (Spec reached) !! 0%nat = Some ClusterIPNone))
      as [Hip|Hip]; [|by left].
    right. intros Hsel.
    assert (isHeadlessSelectorless reached = true)
      by (apply isHeadlessSelectorless_spec; done).
    congruence.
  - rewrite Hcheck. discriminate.
  - exact Hcheck.
  - unfold tryDefaultValidateServiceClusterIPFields. rewrite Hreach, Hcheck.
    destruct (validateFamilies rs reached); reflexivity.
Qed.

Lemma policyConflict_false service :
  IPFamilyPolicy (Spec service) = None
  ∨ IPFamilyPolicy (Spec service) = Some RequireDualStack
  ∨ (length (ClusterIPs (Spec service)) ≠ 2%nat
     ∧ length (IPFamilies (Spec service)) ≠ 2%nat) →
  policyConflict service = false.
Proof.
  unfold policyConflict. intros [Hnone | [Hreq | [Hips Hfam]]].
  - rewrite Hnone. reflexivity.
  - rewrite Hreq.
    rewrite (bool_decide_eq_false_2 (Some RequireDualStack ≠ Some RequireDualStack)).
    + apply andb_false_r.
    + intros Hne. by apply Hne.
  - apply Nat.eqb_neq in Hips, Hfam. rewrite Hips, Hfam. simpl.
    rewrite andb_false_r. reflexivity.
Qed.

Lemma setIPFamilies_same service :
  setIPFamilies service (IPFamilies (Spec service)) = service.
Proof. destruct service as [m [] st]. reflexivity. Qed.

Lemma defaultFamiliesFromClusterIPs_headless rs i clusterIPs families :
  clusterIPs !! 0%nat = Some ClusterIPNone →
  defaultFamiliesFromClusterIPs rs i clusterIPs families = inr families.
Proof.
  destruct clusterIPs as [|ip ips]; [discriminate|].
  simpl. intros [= ->]. reflexivity.
Qed.

(** C4 (as amended): for a Service that is not an ExternalName, whose first
    cluster IP is "None" and whose selector is nil.  Under SingleStack with
    two cluster IPs or two families the defaulter fails with Invalid on
    spec.ipFamilyPolicy.  With no policy, with RequireDualStack, or with
    neither two cluster IPs nor two families, the defaulter succeeds; the
    policy is then RequireDualStack if it was unset, the families are
    [defaultFamily] if there were none, and a single family is followed by
    the complementary one when the policy is RequireDualStack, or
    PreferDualStack on a cluster with two families, whether or not the
    complementary family has an allocator; nothing else of the Service
    changes.  Nothing is stated for PreferDualStack with two cluster IPs or
    two families: the dual-stack integration tests expect such a Service to
    be accepted, and the same test of the policy turns it down. *)
Theorem headless_selectorless_defaulting rs service :
  Type_ (Spec service) ≠ ServiceTypeExternalName →
  ClusterIPs (Spec service) !! 0%nat = Some ClusterIPNone →
  Selector (Spec service) = None →
  (IPFamilyPolicy (Spec service) = Some SingleStack →
   length (ClusterIPs (Spec service)) = 2%nat
   ∨ length (IPFamilies (Spec service)) = 2%nat →
   tryDefaultValidateServiceClusterIPFields rs service
   = inl (ErrInvalid [Child "spec"; Child "ipFamilyPolicy"]
            "if provided then it must be set to RequirdDualStack for multi families or multi ClusterIPs"))
  ∧ (IPFamilyPolicy (Spec service) = None
     ∨ IPFamilyPolicy (Spec service) = Some RequireDualStack
     ∨ (length (ClusterIPs (Spec service)) ≠ 2%nat
        ∧ length (IPFamilies (Spec service)) ≠ 2%nat) →
     let policy := default RequireDualStack (IPFamilyPolicy (Spec service)) in
     tryDefaultValidateServiceClusterIPFields rs service
     = inr (setIPFamilies (setIPFamilyPolicy service (Some policy))
              (headlessFamilies rs policy (IPFamilies (Spec service))))).
Proof.
  intros Hty Hip Hsel. split.
  { intros Hsingle Htwo.
    unfold tryDefaultValidateServiceClusterIPFields, beforeFamilyCheck.
    rewrite (bool_decide_eq_false_2 _ Hty).
    assert (policyConflict service = true) as ->; [|reflexivity].
    unfold policyConflict. rewrite Hsingle.
    rewrite (bool_decide_eq_true_2 (Some SingleStack ≠ None)) by done.
    rewrite (bool_decide_eq_true_2 (Some SingleStack ≠ Some RequireDualStack)) by done.
    rewrite andb_true_r. simpl. apply orb_true_iff.
    destruct Htwo as [Htwo | Htwo]; [left | right]; by apply Nat.eqb_eq. }
  intros Hpol policy.
  unfold tryDefaultValidateServiceClusterIPFields, beforeFamilyCheck.
  rewrite (bool_decide_eq_false_2 _ Hty), (policyConflict_false _ Hpol).
  rewrite (defaultFamiliesFromClusterIPs_headless _ _ _ _ Hip).
  rewrite setIPFamilies_same.
  rewrite (proj2 (isHeadlessSelectorless_spec service) (conj Hip Hsel)).
  f_equal. unfold defaultHeadlessSelectorless. fold policy.
  unfold headlessFamilies.
  destruct service as [m sp st]. destruct sp as [ty ps sel ips fams pol etp hc sa tk].
  simpl in *. clear Hip Hsel Hpol Hty.
  destruct fams as [|f0 [|f1 fams]]; simpl; [set (f0 := defaultServiceIPFamily rs)| |reflexivity].
  all: destruct policy; simpl.
  all: destruct (Nat.eqb_spec (size (serviceIPAllocatorsByFamily rs)) 2); simpl.
  all: repeat case_bool_decide; try reflexivity.
  all: try (destruct f0; simplify_eq; reflexivity).
  all: exfalso; intuition congruence.
Qed.

(** *** Families defaulted from the cluster IPs *)

Lemma index_beyond_length (i n : nat) :
  (Z.of_nat i >? Z.of_nat n - 1) = (n <=? i)%nat.
Proof.
  destruct (Nat.leb_spec n i); [apply Z.gtb_gt | rewrite Z.gtb_ltb; apply Z.ltb_ge]; lia.
Qed.

Lemma isLiteral_false ip :
  isLiteral ip = false ↔ bool_decide (ip = "") || bool_decide (ip = ClusterIPNone) = true.
Proof.
  unfold isLiteral. destruct (bool_decide (ip = "")), (bool_decide (ip = ClusterIPNone));
    simpl; split; congruence.
Qed.

Lemma leadingLiterals_Forall clusterIPs :
  Forall (λ ip, isLiteral ip = true) (leadingLiterals clusterIPs).
Proof.
  induction clusterIPs as [|ip ips IH]; simpl; [constructor|].
  destruct (isLiteral ip) eqn:Hlit; constructor; assumption.
Qed.

(** The loop stops at the first entry that is not a literal. *)
Lemma defaultFamiliesFromClusterIPs_leading rs clusterIPs :
  ∀ i families,
    defaultFamiliesFromClusterIPs rs i clusterIPs families
    = defaultFamiliesFromClusterIPs rs i (leadingLiterals clusterIPs) families.
Proof.
  induction clusterIPs as [|ip ips IH]; intros i families; simpl; [reflexivity|].
  destruct (isLiteral ip) eqn:Hlit.
  - simpl. destruct (bool_decide (ip = "") || bool_decide (ip = ClusterIPNone));
      [reflexivity|].
    destruct (Z.of_nat i >? Z.of_nat (length families) - 1); [|apply IH].
    destruct (IsIPv6String ip).
    + destruct (serviceIPAllocatorsByFamily rs !! IPv6Protocol); [apply IH|reflexivity].
    + destruct (serviceIPAllocatorsByFamily rs !! IPv4Protocol); [apply IH|reflexivity].
  - apply isLiteral_false in Hlit. rewrite Hlit. reflexivity.
Qed.

(** On literals the loop does what rule 3 says. *)
Lemma defaultFamiliesFromClusterIPs_literals rs literals :
  Forall (λ ip, isLiteral ip = true) literals →
  ∀ i families,
    defaultFamiliesFromClusterIPs rs i literals families
    = defaultFamiliesEachLiteral rs i literals families.
Proof.
  induction 1 as [|ip ips Hlit _ IH]; intros i families; simpl; [reflexivity|].
  rewrite Hlit.
  assert (bool_decide (ip = "") || bool_decide (ip = ClusterIPNone) = false) as ->.
  { destruct (bool_decide (ip = "") || bool_decide (ip = ClusterIPNone)) eqn:Hb;
      [|reflexivity].
    apply isLiteral_false in Hb. congruence. }
  rewrite index_beyond_length.
  destruct (length families <=? i)%nat; [|apply IH].
  unfold familyOfLiteral. destruct (IsIPv6String ip).
  - destruct (serviceIPAllocatorsByFamily rs !! IPv6Protocol); [apply IH|reflexivity].
  - destruct (serviceIPAllocatorsByFamily rs !! IPv4Protocol); [apply IH|reflexivity].
Qed.

(** What rule 3 appends when it succeeds. *)
Lemma defaultFamiliesEachLiteral_success rs literals :
  Forall (λ ip, isLiteral ip = true) literals →
  ∀ i families extended,
    (i ≤ length families)%nat →
    defaultFamiliesEachLiteral rs i literals families = inr extended →
    extended
    = (families ++ map familyOfLiteral (drop (length families - i) literals))%list.
Proof.
  induction 1 as [|ip ips Hlit _ IH]; intros i families extended Hi; simpl.
  - intros [= <-]. rewrite drop_nil. simpl. by rewrite app_nil_r.
  - rewrite Hlit. destruct (Nat.leb_spec (length families) i) as [Hle|Hlt].
    + destruct (serviceIPAllocatorsByFamily rs !! familyOfLiteral ip); [|discriminate].
      intros Hrec. apply IH in Hrec; [|rewrite length_app; simpl; lia].
      rewrite Hrec, length_app. simpl.
      replace (length families - i)%nat with 0%nat by lia.
      replace (length families + 1 - S i)%nat with 0%nat by lia.
      simpl. by rewrite <- app_assoc.
    + intros Hrec. apply IH in Hrec; [|lia].
      rewrite Hrec.
      replace (length families - i)%nat with (S (length families - S i)) by lia.
      reflexivity.
Qed.

(** Rule 3 fails when a literal at or beyond the families has a family
    without allocator. *)
Lemma defaultFamiliesEachLiteral_failure rs literals :
  Forall (λ ip, isLiteral ip = true) literals →
  ∀ i families k ip,
    (i ≤ length families)%nat →
    literals !! k = Some ip →
    (length families ≤ i + k)%nat →
    serviceIPAllocatorsByFamily rs !! familyOfLiteral ip = None →
    ∃ j detail,
      defaultFamiliesEachLiteral rs i literals families
      = inl (ErrInvalid [Child "spec"; Child "clusterIPs"; Index j] detail).
Proof.
  induction 1 as [|ip0 ips Hlit _ IH]; intros i families k ip Hi Hk Hlen Hnone;
    [discriminate|].
  simpl. rewrite Hlit.
  destruct (Nat.leb_spec (length families) i) as [Hle|Hlt].
  - destruct (serviceIPAllocatorsByFamily rs !! familyOfLiteral ip0) eqn:Hcfg;
      [|eauto].
    destruct k as [|k]; [simpl in Hk; congruence|].
    apply (IH (S i) _ k ip); [rewrite length_app; simpl; lia|exact Hk| |exact Hnone].
    rewrite length_app. simpl. lia.
  - destruct k as [|k]; [lia|].
    apply (IH (S i) _ k ip); [lia|exact Hk|lia|exact Hnone].
Qed.

Lemma defaultHeadlessSelectorless_extends rs service :
  IPFamilies (Spec service)
  `prefix_of` IPFamilies (Spec (defaultHeadlessSelectorless rs service)).
Proof.
  unfold defaultHeadlessSelectorless.
  destruct service as [m sp st]. destruct sp as [ty ps sel ips fams pol etp hc sa tk].
  simpl. destruct fams as [|f0 fams]; simpl.
  - apply prefix_nil.
  - case_tests; solve [reflexivity | eexists; reflexivity].
Qed.

Lemma defaultPolicyAndFamilies_extends rs service :
  IPFamilies (Spec service)
  `prefix_of` IPFamilies (Spec (defaultPolicyAndFamilies rs service)).
Proof.
  unfold defaultPolicyAndFamilies.
  destruct service as [m sp st]. destruct sp as [ty ps sel ips fams pol etp hc sa tk].
  simpl. destruct fams as [|f0 fams]; simpl.
  - apply prefix_nil.
  - case_tests;
      solve [reflexivity | eexists; reflexivity
            | rewrite <- app_assoc; eexists; reflexivity].
Qed.

(** C3 (as amended): for a Service that is not an ExternalName, the
    defaulter processes the literals of [ClusterIPs] that come before the
    first empty string or "None", in order, and looks at no entry after it:
    on those literals it does what rule 3 says; when such a literal's index
    is at or beyond the length of [IPFamilies] and its textual family has no
    allocator, the call fails with an Invalid error; and when the call
    succeeds, the families of the literals at or beyond the length of
    [IPFamilies] have been appended to [IPFamilies], in order. *)
Theorem defaulter_families_from_leading_literals rs service :
  Type_ (Spec service) ≠ ServiceTypeExternalName →
  let literals := leadingLiterals (ClusterIPs (Spec service)) in
  let families := IPFamilies (Spec service) in
  defaultFamiliesFromClusterIPs rs 0 (ClusterIPs (Spec service)) families
  = defaultFamiliesEachLiteral rs 0 literals families
  ∧ (∀ i ip,
       literals !! i = Some ip →
       (length families ≤ i)%nat →
       serviceIPAllocatorsByFamily rs !! familyOfLiteral ip = None →
       ∃ err, tryDefaultValidateServiceClusterIPFields rs service = inl err
              ∧ isInvalid err = true)
  ∧ (∀ defaulted,
       tryDefaultValidateServiceClusterIPFields rs service = inr defaulted →
       (families ++ map familyOfLiteral (drop (length families) literals))%list
       `prefix_of` IPFamilies (Spec defaulted)).
Proof.
  intros Hty literals families.
  assert (defaultFamiliesFromClusterIPs rs 0 (ClusterIPs (Spec service)) families
          = defaultFamiliesEachLiteral rs 0 literals families) as Hloop.
  { rewrite defaultFamiliesFromClusterIPs_leading.
    apply defaultFamiliesFromClusterIPs_literals, leadingLiterals_Forall. }
  split; [exact Hloop|].
  unfold tryDefaultValidateServiceClusterIPFields, beforeFamilyCheck.
  rewrite (bool_decide_eq_false_2 _ Hty).
  fold families. rewrite Hloop.
  split.
  - intros i ip Hi Hlen Hnone.
    destruct (policyConflict service); [eexists; split; reflexivity|].
    destruct (defaultFamiliesEachLiteral_failure rs literals
                (leadingLiterals_Forall _) 0 families i ip) as (j & detail & ->);
      [lia|exact Hi|simpl; lia|exact Hnone|].
    eexists; split; reflexivity.
  - intros defaulted.
    destruct (policyConflict service); [discriminate|].
    destruct (defaultFamiliesEachLiteral rs 0 literals families) as [err|extended]
      eqn:Hext; [discriminate|].
    apply defaultFamiliesEachLiteral_success in Hext;
      [|apply leadingLiterals_Forall|lia].
    rewrite Nat.sub_0_r in Hext. rewrite <- Hext.
    assert (IPFamilies (Spec (setIPFamilies service extended)) = extended) as Hset
        by reflexivity.
    destruct (isHeadlessSelectorless (setIPFamilies service extended)).
    + intros [= <-]. rewrite <- Hset at 1. apply defaultHeadlessSelectorless_extends.
    + destruct (ipFamilyCheck rs (setIPFamilies service extended)) as [|[err|]];
        [|discriminate|]; intros [= <-]; rewrite <- Hset at 1;
        apply defaultPolicyAndFamilies_extends.
Qed.

(** *** Releasing cluster IPs *)

Lemma rangeMap_filter {V} (P : IPFamily → Prop) `{!∀ f, Decision (P f)}
  ord (m : gmap IPFamily V) :
  rangeMap ord (filter (λ entry, P (fst entry)) m)
  = filter (λ entry, P (fst entry)) (rangeMap ord m).
Proof.
  assert (∀ families : list IPFamily,
            omap (λ family, (λ v, (family, v))
                            <$> filter (λ entry, P (fst entry)) m !! family) families
            = filter (λ entry, P (fst entry))
                (omap (λ family, (λ v, (family, v)) <$> m !! family) families))
    as Hall; [|apply Hall].
  induction families as [|family families IH]; [reflexivity|].
  simpl. rewrite map_lookup_filter.
  destruct (m !! family) as [v|]; simpl; [|exact IH].
  rewrite filter_cons. simpl.
  destruct (decide (P family)) as [Hp|Hp].
  - rewrite option_guard_True by done. simpl. f_equal. exact IH.
  - rewrite option_guard_False by done. simpl. exact IH.
Qed.

(** Entries of a family without allocator make no difference to the
    release loop. *)
Lemma releaseClusterIPsRange_configured (rs0 : REST A) toRelease :
  ∀ rs released,
    (∀ f, is_Some (serviceIPAllocatorsByFamily rs !! f)
          ↔ is_Some (serviceIPAllocatorsByFamily rs0 !! f)) →
    releaseClusterIPsRange rs toRelease released
    = releaseClusterIPsRange rs
        (filter (λ entry, is_Some (serviceIPAllocatorsByFamily rs0 !! fst entry))
                toRelease)
        released.
Proof.
  induction toRelease as [|[family ip] toRelease IH]; intros rs released Hcfg;
    [reflexivity|].
  rewrite filter_cons. simpl.
  destruct (serviceIPAllocatorsByFamily rs !! family) as [allocator|] eqn:Hf.
  - rewrite decide_True by (apply Hcfg; rewrite Hf; eauto).
    simpl. rewrite Hf.
    destruct (ipallocator.Release allocator (ParseIP ip)) as [err|allocator'];
      [reflexivity|].
    apply IH. intros f. rewrite <- Hcfg. simpl.
    destruct (decide (family = f)) as [<-|Hne].
    + rewrite lookup_insert_eq, Hf. split; eauto.
    + rewrite lookup_insert_ne by done. reflexivity.
  - rewrite decide_False; [by apply IH|].
    rewrite <- Hcfg, Hf. by intros [? ?].
Qed.

(** A family reported as released was in [released] already or is one of
    the entries. *)
Lemma releaseClusterIPsRange_released toRelease :
  ∀ rs released rs' released' err family,
    releaseClusterIPsRange rs toRelease released = (rs', (Some released', err)) →
    is_Some (released' !! family) →
    is_Some (released !! family) ∨ family ∈ toRelease.*1.
Proof.
  induction toRelease as [|[f ip] toRelease IH];
    intros rs released rs' released' err family; simpl.
  - intros [= _ <- _]. by left.
  - destruct (serviceIPAllocatorsByFamily rs !! f) as [allocator|].
    + destruct (ipallocator.Release allocator (ParseIP ip)) as [e|allocator'].
      * intros [= _ <- _]. by left.
      * intros Hrun Hin. destruct (IH _ _ _ _ _ _ Hrun Hin) as [Hacc|Hl].
        -- destruct (decide (f = family)) as [<-|Hne]; [right; left|].
           rewrite lookup_insert_ne in Hacc by done. by left.
        -- right. by right.
    + intros Hrun Hin. destruct (IH _ _ _ _ _ _ Hrun Hin); [by left|right; by right].
Qed.

(** C10: [releaseClusterIPs] passes over the entries whose family has no
    allocator: the call does and returns what it does and returns without
    them, so they raise no error; no such family is reported as released;
    when no family of the map has an allocator the call changes nothing and
    returns no error; and [releaseServiceClusterIPs], on the path of Delete,
    returns for a Service with the pairs [toRelease] what the release of the
    configured ones among them returns. *)
Theorem releaseClusterIPs_skips_unconfigured ord rs
  (toRelease : gmap IPFamily string) :
  releaseClusterIPs ord rs (Some toRelease)
  = releaseClusterIPs ord rs (Some (configuredOnly rs toRelease))
  ∧ (∀ rs' released err family,
       releaseClusterIPs ord rs (Some toRelease) = (rs', (Some released, err)) →
       serviceIPAllocatorsByFamily rs !! family = None →
       released !! family = None)
  ∧ ((∀ family, is_Some (toRelease !! family) →
                serviceIPAllocatorsByFamily rs !! family = None) →
     releaseClusterIPs ord rs (Some toRelease) = (rs, (Some ∅, None)))
  ∧ (∀ service,
       Type_ (Spec service) ≠ ServiceTypeExternalName →
       ClusterIPs (Spec service) !! 0%nat ≠ Some ClusterIPNone →
       collectToRelease 0 (IPFamilies (Spec service)) (ClusterIPs (Spec service)) ∅
       = Returns toRelease →
       releaseServiceClusterIPs ord rs service
       = (fst (releaseClusterIPs ord rs (Some (configuredOnly rs toRelease))),
          Returns (snd (releaseClusterIPs ord rs
                          (Some (configuredOnly rs toRelease)))))).
Proof.
  pose proof (rangeMap_filter
                (λ f, is_Some (serviceIPAllocatorsByFamily rs !! f)) ord toRelease)
    as Hfilter.
  simpl in Hfilter.
  assert (releaseClusterIPs ord rs (Some toRelease)
          = releaseClusterIPs ord rs (Some (configuredOnly rs toRelease))) as Hskip.
  { unfold releaseClusterIPs, configuredOnly. rewrite Hfilter.
    by apply releaseClusterIPsRange_configured. }
  split; [exact Hskip|split; [|split]].
  - intros rs' released err family Hrun Hnone.
    rewrite Hskip in Hrun. unfold releaseClusterIPs, configuredOnly in Hrun.
    rewrite Hfilter in Hrun.
    destruct (released !! family) as [ip|] eqn:Hrel; [exfalso|reflexivity].
    destruct (releaseClusterIPsRange_released _ _ _ _ _ _ family Hrun) as [Hacc|Hin].
    + rewrite Hrel. eauto.
    + rewrite lookup_empty in Hacc. by destruct Hacc.
    + apply list_elem_of_fmap in Hin as ([f ip'] & -> & Hin).
      apply list_elem_of_filter in Hin as [Hcfg _]. simpl in Hcfg, Hnone.
      rewrite Hnone in Hcfg. by destruct Hcfg.
  - intros Hall. rewrite Hskip. unfold releaseClusterIPs, configuredOnly.
    replace (filter (λ entry, is_Some (serviceIPAllocatorsByFamily rs !! fst entry))
               toRelease) with (∅ : gmap IPFamily string); [by destruct ord|].
    symmetry. apply map_empty_filter_2. intros family ip Hlook. simpl.
    rewrite (Hall family) by (rewrite Hlook; eauto). by intros [? ?].
  - intros service Hty Hip Hcollect. unfold releaseServiceClusterIPs.
    rewrite (bool_decide_eq_false_2 _ Hty). unfold isHeadless.
    rewrite (bool_decide_eq_false_2 _ Hip), andb_false_r, Hcollect, Hskip.
    by destruct (releaseClusterIPs ord rs (Some (configuredOnly rs toRelease))).
Qed.

(** *** Rolling back node ports *)

Lemma setUsed_Used (pa : PortAllocator) : setUsed pa (Used pa) = pa.
Proof. by destruct pa. Qed.

Lemma foldl_Release (ports : list Z) :
  ∀ pa, foldl Release pa ports = setUsed pa (Used pa ∖ list_to_set ports).
Proof.
  induction ports as [|port ports IH]; intros pa; simpl.
  - rewrite difference_empty_L. symmetry. apply setUsed_Used.
  - rewrite IH. unfold Release, setUsed. simpl. f_equal. set_solver.
Qed.

Lemma StartOperation_stagedOn pa0 : stagedOn pa0 (StartOperation pa0 false).
Proof.
  unfold stagedOn, StartOperation. simpl.
  repeat split; [apply setUsed_Used|set_solver|set_solver].
Qed.

Lemma Finish_stagedOn pa0 op : stagedOn pa0 op → pa (Finish op) = pa0.
Proof.
  intros (Hdry & Hroll & Hpa & Hused & Hfree).
  unfold Finish, Rollback. rewrite Hroll, Hdry. simpl.
  rewrite foldl_Release, Hused, <- Hpa. unfold setUsed. simpl. f_equal.
  set_solver.
Qed.

Lemma stage_stagedOn pa0 op port :
  stagedOn pa0 op → port ∉ Used (pa op) → stagedOn pa0 (stage op port).
Proof.
  intros (Hdry & Hroll & Hpa & Hused & Hfree) Hport.
  unfold stagedOn, stage. rewrite Hdry. simpl.
  repeat split; try done.
  - rewrite Hused, list_to_set_app_L. set_solver.
  - rewrite list_to_set_app_L. set_solver.
Qed.

Lemma Allocate_stagedOn pa0 op port op' :
  stagedOn pa0 op → Allocate op port = inr op' → stagedOn pa0 op'.
Proof.
  intros Hst. unfold Allocate.
  destruct (negb (inRange (pa op) port)); [discriminate|].
  case_bool_decide as Htaken; [discriminate|].
  intros [= <-]. apply stage_stagedOn; [done|].
  unfold taken in Htaken. destruct Hst as (Hdry & _). by rewrite Hdry in Htaken.
Qed.

Lemma AllocateNext_stagedOn pa0 op port op' :
  stagedOn pa0 op → AllocateNext op = inr (port, op') → stagedOn pa0 op'.
Proof.
  intros Hst. unfold AllocateNext.
  destruct (Next (pa op) (taken op)) as [p|]; [|discriminate].
  destruct (isFree (pa op) (taken op) p) eqn:Hfree; [|discriminate].
  intros [= <- <-]. apply stage_stagedOn; [done|].
  unfold isFree in Hfree. apply andb_prop in Hfree as [_ Hfree].
  apply negb_true_iff, bool_decide_eq_false in Hfree.
  unfold taken in Hfree. destruct Hst as (Hdry & _). by rewrite Hdry in Hfree.
Qed.

Lemma initNodePortsFrom_stagedOn pa0 n :
  ∀ i ports svcPortToNodePort op ports' op' err,
    stagedOn pa0 op →
    initNodePortsFrom n i ports svcPortToNodePort op = (ports', op', err) →
    stagedOn pa0 op'.
Proof.
  induction n as [|n IH]; intros i ports m op ports' op' err Hst; simpl.
  - by intros [= _ <- _].
  - destruct (ports !! i) as [servicePort|]; [|by intros [= _ <- _]].
    destruct (default 0 (m !! Port servicePort) =? 0).
    + destruct (negb (findRequestedNodePort (Port servicePort) ports =? 0)).
      * destruct (Allocate op _) as [e|op1] eqn:Halloc; [by intros [= _ <- _]|].
        apply IH. by eapply Allocate_stagedOn.
      * destruct (AllocateNext op) as [e|[nodePort op1]] eqn:Halloc;
          [by intros [= _ <- _]|].
        apply IH. by eapply AllocateNext_stagedOn.
    + destruct (negb (NodePort servicePort =? default 0 (m !! Port servicePort)));
        [|by apply IH].
      destruct (NodePort servicePort =? 0); [by apply IH|].
      destruct (Allocate op _) as [e|op1] eqn:Halloc; [by intros [= _ <- _]|].
      apply IH. by eapply Allocate_stagedOn.
Qed.

Lemma initNodePorts_stagedOn pa0 service op service' op' err :
  stagedOn pa0 op → initNodePorts service op = (service', op', err) →
  stagedOn pa0 op'.
Proof.
  intros Hst. unfold initNodePorts.
  destruct (initNodePortsFrom _ _ _ _ _) as [[ports1 op1] err1] eqn:Hrun.
  intros [= _ <- _]. by eapply initNodePortsFrom_stagedOn.
Qed.

Lemma allocateHealthCheckNodePort_stagedOn pa0 service op service' op' err :
  stagedOn pa0 op → allocateHealthCheckNodePort service op = (service', op', err) →
  stagedOn pa0 op'.
Proof.
  intros Hst. unfold allocateHealthCheckNodePort.
  destruct (negb (HealthCheckNodePort (Spec service) =? 0)).
  - destruct (Allocate op _) as [e|op1] eqn:Halloc; intros [= _ <- _]; [done|].
    by eapply Allocate_stagedOn.
  - destruct (AllocateNext op) as [e|[port op1]] eqn:Halloc; intros [= _ <- _]; [done|].
    by eapply AllocateNext_stagedOn.
Qed.

(** A failing [Create] leaves its node-port operation uncommitted and its
    bag of cluster IPs in place. *)
Lemma createWithNodePortOp_failure c pa0 service op op' reset out err :
  stagedOn pa0 op →
  createWithNodePortOp c service op = (op', reset, (out, Some err)) →
  stagedOn pa0 op' ∧ reset = false.
Proof.
  intros Hst. unfold createWithNodePortOp.
  destruct (if bool_decide (Type_ (Spec service) = ServiceTypeNodePort)
               || bool_decide (Type_ (Spec service) = ServiceTypeLoadBalancer)
            then initNodePorts service op else (service, op, None))
    as [[service1 op1] err1] eqn:Hinit.
  assert (stagedOn pa0 op1) as Hst1.
  { destruct (bool_decide _ || bool_decide _).
    - by eapply initNodePorts_stagedOn.
    - by injection Hinit as _ <- _. }
  destruct err1 as [e|]; [by intros [= <- <- _ _]|].
  destruct (if NeedsHealthCheck service1
            then allocateHealthCheckNodePort service1 op1 else (service1, op1, None))
    as [[service2 op2] err2] eqn:Hhc.
  assert (stagedOn pa0 op2) as Hst2.
  { destruct (NeedsHealthCheck service1).
    - by eapply allocateHealthCheckNodePort_stagedOn.
    - by injection Hhc as _ <- _. }
  destruct err2 as [e|]; [by intros [= <- <- _ _]|].
  destruct (ValidateServiceExternalTrafficFieldsCombination c service2);
    [by intros [= <- <- _ _]|].
  destruct (servicesCreate c service2); [by intros [= <- <- _ _]|discriminate].
Qed.

(** *** Releasing what a failed Create has allocated *)

Section CreateRollback.

Context `{!ipallocator.Contract IP A}.

Lemma rangeMap_lookup {V} ord (m : gmap IPFamily V) family v :
  (family, v) ∈ rangeMap ord m ↔ m !! family = Some v.
Proof.
  unfold rangeMap. rewrite list_elem_of_omap. split.
  - intros (f & _ & Hf). destruct (m !! f) eqn:Hm; simpl in Hf; [|discriminate].
    by injection Hf as <- <-.
  - intros Hm. exists family. rewrite Hm. split; [|reflexivity].
    destruct ord, family; simpl; set_solver.
Qed.

Lemma rangeMap_NoDup {V} ord (m : gmap IPFamily V) : NoDup (rangeMap ord m).*1.
Proof.
  unfold rangeMap.
  destruct ord; simpl;
    destruct (m !! IPv4Protocol), (m !! IPv6Protocol); simpl;
    repeat constructor; set_solver.
Qed.

Lemma allocClusterIPsRange_releasable before toAlloc :
  ∀ rs allocated rs' allocated' err,
    NoDup toAlloc.*1 →
    (∀ family, family ∈ toAlloc.*1 → allocated !! family = None) →
    releasable before (serviceIPAllocatorsByFamily rs) allocated →
    allocClusterIPsRange rs toAlloc allocated = (rs', Returns (allocated', err)) →
    releasable before (serviceIPAllocatorsByFamily rs') allocated'
    ∧ defaultServiceIPFamily rs' = defaultServiceIPFamily rs
    ∧ serviceNodePorts rs' = serviceNodePorts rs.
Proof.
  induction toAlloc as [|[family ip] toAlloc IH];
    intros rs allocated rs' allocated' err Hnodup Hfresh Hrel; simpl.
  - intros [= <- <- _]. done.
  - apply NoDup_cons in Hnodup as [Hnotin Hnodup].
    destruct (serviceIPAllocatorsByFamily rs !! family) as [allocator|] eqn:Hf;
      [|discriminate].
    assert (before !! family = Some allocator) as Hbefore.
    { specialize (Hrel family). rewrite (Hfresh family) in Hrel by (simpl; left).
      congruence. }
    assert (∀ ip' allocator',
              ipallocator.Release allocator' (ParseIP ip') = inr allocator →
              releasable before
                (serviceIPAllocatorsByFamily (setAllocator rs family allocator'))
                (<[family := ip']> allocated)) as Hstep.
    { intros ip' allocator' Hrelease g. simpl.
      destruct (decide (family = g)) as [<-|Hne].
      - rewrite !lookup_insert_eq. eauto.
      - rewrite !lookup_insert_ne by done. apply Hrel. }
    assert (∀ ip' f, f ∈ toAlloc.*1 → <[family := ip']> allocated !! f = None)
      as Hfresh'.
    { intros ip' f Hin. rewrite lookup_insert_ne by (intros ->; done).
      apply Hfresh. simpl. by right. }
    case_bool_decide.
    + destruct (ipallocator.AllocateNext allocator) as [e|[allocatedIP allocator']]
        eqn:Hnext.
      * intros [= <- <- _]. done.
      * intros Hrun. eapply IH in Hrun; [exact Hrun|done|by apply Hfresh'|].
        apply Hstep. rewrite ipallocator.ParseIP_String.
        by apply ipallocator.Release_AllocateNext.
    + destruct (ipallocator.Allocate allocator (ParseIP ip)) as [e|allocator']
        eqn:Halloc.
      * intros [= <- <- _]. done.
      * intros Hrun. eapply IH in Hrun; [exact Hrun|done|by apply Hfresh'|].
        apply Hstep. by apply ipallocator.Release_Allocate.
Qed.

Lemma releaseClusterIPsRange_restores before toRelease :
  ∀ rs released,
    NoDup toRelease.*1 →
    (∀ family ip, (family, ip) ∈ toRelease →
       ∃ a0 a1, before !! family = Some a0
                ∧ serviceIPAllocatorsByFamily rs !! family = Some a1
                ∧ ipallocator.Release a1 (ParseIP ip) = inr a0) →
    (∀ family, family ∉ toRelease.*1 →
       serviceIPAllocatorsByFamily rs !! family = before !! family) →
    ∃ released',
      releaseClusterIPsRange rs toRelease released
      = (mkREST before (defaultServiceIPFamily rs) (serviceNodePorts rs),
         (Some released', None)).
Proof.
  induction toRelease as [|[family ip] toRelease IH];
    intros rs released Hnodup Hin Hout; simpl.
  - exists released. do 2 f_equal. destruct rs as [m d p]. simpl in *. f_equal.
    apply map_eq. intros f. apply Hout. apply not_elem_of_nil.
  - apply NoDup_cons in Hnodup as [Hnotin Hnodup].
    destruct (Hin family ip) as (a0 & a1 & Hb & Hc & Hr); [left|].
    rewrite Hc, Hr.
    destruct (IH (setAllocator rs family a0) (<[family := ip]> released))
      as [released' Hrun]; [done| | |by eauto].
    + intros f ip' Hf. destruct (Hin f ip') as (b0 & b1 & ? & ? & ?); [by right|].
      exists b0, b1. simpl. rewrite lookup_insert_ne; [done|].
      intros ->. apply Hnotin. apply list_elem_of_fmap. by exists (f, ip').
    + intros f Hf. simpl. destruct (decide (family = f)) as [<-|Hne].
      * by rewrite lookup_insert_eq.
      * rewrite lookup_insert_ne by done. apply Hout.
        simpl. rewrite not_elem_of_cons. done.
Qed.

Lemma releaseClusterIPs_releasable ord rs' before allocated :
  releasable before (serviceIPAllocatorsByFamily rs') allocated →
  ∃ r, releaseClusterIPs ord rs' (Some allocated)
       = (mkREST before (defaultServiceIPFamily rs') (serviceNodePorts rs'), r).
Proof.
  intros Hrel. unfold releaseClusterIPs.
  destruct (releaseClusterIPsRange_restores before (rangeMap ord allocated) rs' ∅)
    as [released' Hrun]; [apply rangeMap_NoDup| | |by eauto].
  - intros family ip Hin. apply rangeMap_lookup in Hin.
    specialize (Hrel family). by rewrite Hin in Hrel.
  - intros family Hnotin. specialize (Hrel family).
    destruct (allocated !! family) as [ip|] eqn:Hlook; [|done].
    exfalso. apply Hnotin. apply list_elem_of_fmap. exists (family, ip).
    split; [done|]. by apply rangeMap_lookup.
Qed.

(** Whatever [allocServiceClusterIPs] hands back as allocated, the
    deferred release gives back to the allocators. *)
Lemma allocServiceClusterIPs_released ordAlloc ordSet ord rs service
  rs' service' toRelease err :
  allocServiceClusterIPs ordAlloc ordSet rs service
  = (rs', service', Returns (toRelease, err)) →
  ∃ r, releaseClusterIPs ord rs' toRelease = (rs, r).
Proof.
  unfold allocServiceClusterIPs.
  destruct (bool_decide (Type_ (Spec service) = ServiceTypeExternalName));
    [intros [= <- _ <- _]; by eexists|].
  destruct ((0 <? length (ClusterIPs (Spec service)))%nat && isHeadless service);
    [intros [= <- _ <- _]; by eexists|].
  destruct (markClusterIPs _ _ _ _) as [[clusterIPs toAlloc]|]; [|discriminate].
  destruct (allocClusterIPs ordAlloc rs toAlloc) as [rs1 [[allocated [e|]]|]] eqn:Halloc;
    [| |discriminate].
  all: intros [= <- _ <- _].
  all: unfold allocClusterIPs in Halloc.
  all: apply (allocClusterIPsRange_releasable (serviceIPAllocatorsByFamily rs))
         in Halloc as (Hrel & Hdef & Hports);
    [|apply rangeMap_NoDup|intros; apply lookup_empty
     |intros f; by rewrite lookup_empty].
  all: destruct (releaseClusterIPs_releasable ord rs1 _ _ Hrel) as [r Hr].
  all: exists r; rewrite Hr, Hdef, Hports; by destruct rs.
Qed.

(** C1: a [Create] that is not a dry run and returns an error leaves the
    per-family IP allocators and the node-port allocator as they were before
    the call, for allocators that keep the contract of section 4.4.3: the
    cluster IPs allocated by the call are released by the deferred release,
    the staged node ports (the health-check node port among them) by the
    deferred [Finish]. *)
Theorem Create_failure_restores_allocators (c : Collaborators) rs service
  rs' out err :
  Create c rs service false = (rs', Returns (out, Some err)) →
  rs' = rs.
Proof.
  unfold Create.
  destruct (BeforeCreate c service) as [e|service1]; [by intros [= <- _ _]|].
  unfold createAllocating.
  destruct (tryDefaultValidateServiceClusterIPFields rs service1) as [e|service2].
  { simpl. by intros [= <- _ _]. }
  simpl negb. cbv iota.
  destruct (allocServiceClusterIPs (ordAlloc c) (ordSet c) rs service2)
    as [[rs1 service3] [[toRelease [e|]]|]] eqn:Halloc.
  - destruct (allocServiceClusterIPs_released _ _ (ordRelease c) _ _ _ _ _ _ Halloc)
      as [r Hr].
    rewrite Hr. by intros [= <- _ _].
  - destruct (createWithNodePortOp c service3
                (StartOperation (serviceNodePorts rs1) false))
      as [[op reset] result] eqn:Hop.
    destruct (releaseClusterIPs (ordRelease c)
                (setServiceNodePorts rs1 (pa (Finish op)))
                (if reset then None else toRelease)) as [rs2 r] eqn:Hrelease.
    intros [= <- ->].
    apply createWithNodePortOp_failure with (pa0 := serviceNodePorts rs1) in Hop
      as [Hst ->]; [|apply StartOperation_stagedOn].
    rewrite (Finish_stagedOn _ _ Hst) in Hrelease.
    destruct (allocServiceClusterIPs_released _ _ (ordRelease c) _ _ _ _ _ _ Halloc)
      as [r' Hr].
    replace (setServiceNodePorts rs1 (serviceNodePorts rs1)) with rs1 in Hrelease
      by (by destruct rs1).
    congruence.
  - destruct (releaseClusterIPs (ordRelease c) rs1 None). discriminate.
Qed.

End CreateRollback.

(** *** Node ports shared by entries with the same port *)

Lemma findRequestedNodePort_found port servicePorts :
  findRequestedNodePort port servicePorts ≠ 0 →
  ∃ j q, servicePorts !! j = Some q ∧ Port q = port
         ∧ NodePort q = findRequestedNodePort port servicePorts.
Proof.
  induction servicePorts as [|q servicePorts IH]; simpl; [done|].
  destruct ((port =? Port q) && negb (NodePort q =? 0)) eqn:Hq.
  - intros _. exists 0%nat, q. apply andb_prop in Hq as [Hp _].
    apply Z.eqb_eq in Hp. done.
  - intros Hne. destruct (IH Hne) as (j & q' & ? & ? & ?). by exists (S j), q'.
Qed.

Lemma findRequestedNodePort_none port servicePorts :
  findRequestedNodePort port servicePorts = 0 →
  ∀ j q, servicePorts !! j = Some q → Port q = port → NodePort q = 0.
Proof.
  induction servicePorts as [|q0 servicePorts IH]; simpl; [done|].
  destruct ((port =? Port q0) && negb (NodePort q0 =? 0)) eqn:Hq.
  - intros Hzero. apply andb_prop in Hq as [_ Hn].
    apply negb_true_iff, Z.eqb_neq in Hn. done.
  - intros Hzero [|j] q; simpl.
    + intros [= <-] Hp. apply andb_false_iff in Hq as [Hq|Hq].
      * apply Z.eqb_neq in Hq. done.
      * apply negb_false_iff, Z.eqb_eq in Hq. done.
    + by apply IH.
Qed.

Lemma stage_range op port :
  Base (pa (stage op port)) = Base (pa op) ∧ Size (pa (stage op port)) = Size (pa op).
Proof. unfold stage. simpl. by destruct (dryRun op). Qed.

Lemma Allocate_inRange op port op' :
  Allocate op port = inr op' →
  inRange (pa op) port = true
  ∧ Base (pa op') = Base (pa op) ∧ Size (pa op') = Size (pa op).
Proof.
  unfold Allocate. destruct (inRange (pa op) port); [|discriminate]. simpl.
  case_bool_decide; [discriminate|]. intros [= <-]. split; [done|apply stage_range].
Qed.

Lemma AllocateNext_inRange op port op' :
  AllocateNext op = inr (port, op') →
  inRange (pa op) port = true
  ∧ Base (pa op') = Base (pa op) ∧ Size (pa op') = Size (pa op).
Proof.
  unfold AllocateNext. destruct (Next (pa op) (taken op)) as [p|]; [|discriminate].
  destruct (isFree (pa op) (taken op) p) eqn:Hfree; [|discriminate].
  intros [= <- <-]. apply andb_prop in Hfree as [Hin _].
  split; [done|apply stage_range].
Qed.

Lemma int32_inRange (allocator : PortAllocator) port :
  0 < Base allocator → Base allocator + Size allocator ≤ 2^31 →
  inRange allocator port = true →
  port ≠ 0 ∧ int32 port = port.
Proof.
  intros Hbase Hsize Hin. unfold inRange in Hin.
  apply andb_prop in Hin as [Hlo Hhi]. apply Z.leb_le in Hlo. apply Z.ltb_lt in Hhi.
  split; [lia|]. unfold int32.
  rewrite Z.mod_small; lia.
Qed.

(** One turn of the loop of [initNodePorts] that gives entry [i] the node
    port [v], which the map holds for the entry's port already or from now
    on. *)
Lemma sharedSoFar_step requested i ports (m m' : gmap Z Z) servicePort v :
  sharedSoFar requested i ports m →
  ports !! i = Some servicePort →
  v ≠ 0 → int32 v = v →
  (m' = m ∧ m !! Port servicePort = Some v)
  ∨ (m' = <[Port servicePort := v]> m
     ∧ m !! Port servicePort = None
     ∧ ∀ k p0, requested !! k = Some p0 → Port p0 = Port servicePort →
               NodePort p0 ≠ 0 → NodePort p0 = v) →
  sharedSoFar requested (S i) (<[i := setNodePort servicePort v]> ports) m'.
Proof.
  intros (Hlen & Hport & Hrest & Hdone & Hmap) Hi Hv Hint Hm.
  assert (i < length ports)%nat as Hlt by (by eapply lookup_lt_Some).
  assert (m' !! Port servicePort = Some v) as Hlook.
  { destruct Hm as [[-> ?]|(-> & _)]; [done|by rewrite lookup_insert_eq]. }
  split; [|split; [|split; [|split]]].
  - by rewrite length_insert.
  - intros k p0 Hk. destruct (decide (k = i)) as [->|Hne].
    + rewrite list_lookup_insert_eq by done. eexists. split; [done|]. simpl.
      destruct (Hport _ _ Hk) as (p & Hp & <-). congruence.
    + rewrite list_lookup_insert_ne by done. by apply Hport.
  - intros k Hk. rewrite list_lookup_insert_ne by lia. apply Hrest. lia.
  - intros k p Hk. destruct (decide (k = i)) as [->|Hne].
    + rewrite list_lookup_insert_eq by done. by intros [= <-].
    + rewrite list_lookup_insert_ne by done. intros Hp.
      assert (m !! Port p = Some (NodePort p)) as Hold by (apply (Hdone k); [lia|done]).
      destruct Hm as [[-> _]|(-> & Hnone & _)]; [done|].
      rewrite lookup_insert_ne; [done|]. intros Heq. congruence.
  - intros port v' Hpv.
    destruct Hm as [[-> _]|(-> & _ & Hreq)]; [by apply Hmap|].
    destruct (decide (Port servicePort = port)) as [<-|Hne].
    + rewrite lookup_insert_eq in Hpv. injection Hpv as <-. done.
    + rewrite lookup_insert_ne in Hpv by done. by apply Hmap.
Qed.

Lemma sharedSoFar_start requested : sharedSoFar requested 0 requested ∅.
Proof.
  split; [done|split; [eauto|split; [done|split]]].
  - intros k p Hk. lia.
  - intros port v Hv. by rewrite lookup_empty in Hv.
Qed.

Lemma setNodePort_same servicePort :
  setNodePort servicePort (NodePort servicePort) = servicePort.
Proof. by destruct servicePort. Qed.

Lemma initNodePortsFrom_shares requested :
  consistentRequests requested →
  ∀ n i ports m op ports' op',
    (i + n)%nat = length requested →
    sharedSoFar requested i ports m →
    0 < Base (pa op) → Base (pa op) + Size (pa op) ≤ 2^31 →
    initNodePortsFrom n i ports m op = (ports', op', None) →
    ∃ m', sharedSoFar requested (length requested) ports' m'.
Proof.
  intros Hcons. induction n as [|n IH];
    intros i ports m op ports' op' Hin Hinv Hbase Hsize; simpl.
  - intros [= <- _]. exists m. by replace (length requested) with i by lia.
  - pose proof Hinv as (Hlen & Hport & Hrest & Hdone & Hmap).
    destruct (ports !! i) as [servicePort|] eqn:Hi.
    2:{ apply lookup_ge_None in Hi. lia. }
    assert (requested !! i = Some servicePort) as Hreq by (by rewrite <- Hrest).
    destruct (m !! Port servicePort) as [v|] eqn:Hm; simpl.
    + destruct (Hmap _ _ Hm) as (Hv & Hint & Hnamed).
      rewrite (proj2 (Z.eqb_neq v 0) Hv).
      destruct (Z.eqb_spec (NodePort servicePort) v) as [Heq|Hne]; simpl.
      * apply IH; [lia| |done|done].
        assert (<[i := setNodePort servicePort v]> ports = ports) as Hsame
            by (rewrite <- Heq, setNodePort_same; by apply list_insert_id).
        rewrite <- Hsame.
        apply (sharedSoFar_step requested i ports m m servicePort v); auto.
      * destruct (Z.eqb_spec (NodePort servicePort) 0) as [Hzero|Hnonzero].
        -- apply IH; [lia| |done|done]. rewrite Hint.
           apply (sharedSoFar_step requested i ports m m servicePort v); auto.
        -- exfalso. apply Hne. by apply (Hnamed i).
    + destruct (Z.eqb_spec (findRequestedNodePort (Port servicePort) ports) 0)
        as [Hnone|Hfound]; simpl.
      * destruct (AllocateNext op) as [e|[nodePort op1]] eqn:Halloc; [discriminate|].
        apply AllocateNext_inRange in Halloc as (Hrange & Hb & Hs).
        destruct (int32_inRange _ _ Hbase Hsize Hrange) as [Hnz Hint].
        apply IH; [lia| |by rewrite Hb|by rewrite Hb, Hs]. rewrite Hint.
        apply (sharedSoFar_step requested i ports m _ servicePort nodePort); auto.
        right. split; [done|split; [done|]].
        intros k p0 Hk Hp Hn. exfalso.
        destruct (Hport _ _ Hk) as (p & Hpk & Hpp).
        destruct (Nat.lt_ge_cases k i) as [Hlt|Hge].
        -- apply (Hdone _ _ Hlt) in Hpk. congruence.
        -- rewrite (Hrest _ Hge), Hk in Hpk. injection Hpk as <-.
           apply Hn. eapply (findRequestedNodePort_none _ _ Hnone k); [|done].
           by rewrite (Hrest _ Hge).
      * destruct (Allocate op _) as [e|op1] eqn:Halloc; [discriminate|].
        apply Allocate_inRange in Halloc as (Hrange & Hb & Hs).
        destruct (int32_inRange _ _ Hbase Hsize Hrange) as [Hnz Hint].
        apply IH; [lia| |by rewrite Hb|by rewrite Hb, Hs]. rewrite Hint.
        apply (sharedSoFar_step requested i ports m _ servicePort _); auto.
        right. split; [done|split; [done|]].
        intros k p0 Hk Hp Hn.
        destruct (findRequestedNodePort_found _ _ Hfound) as (j & q & Hj & Hq & Hnp).
        assert (i ≤ j)%nat as Hge.
        { destruct (Nat.lt_ge_cases j i) as [Hlt|Hge]; [|done].
          apply (Hdone _ _ Hlt) in Hj. congruence. }
        rewrite (Hrest _ Hge) in Hj.
        destruct (Hcons k j p0 q Hk Hj) as [?|[?|?]]; congruence.
Qed.

(** C2 (as amended): after [initNodePorts] has returned success on a
    node-port range that lies within 1 .. 2^31, any two entries of the
    Service's [Ports] with the same [Port] carry the same [NodePort],
    provided the request does not name two different non-zero node ports for
    one [Port]. *)
Theorem initNodePorts_shares_node_port service nodePortOp service' nodePortOp' :
  0 < Base (pa nodePortOp) →
  Base (pa nodePortOp) + Size (pa nodePortOp) ≤ 2^31 →
  consistentRequests (Ports (Spec service)) →
  initNodePorts service nodePortOp = (service', nodePortOp', None) →
  ∀ i j p q,
    Ports (Spec service') !! i = Some p →
    Ports (Spec service') !! j = Some q →
    Port p = Port q →
    NodePort p = NodePort q.
Proof.
  intros Hbase Hsize Hcons. unfold initNodePorts.
  destruct (initNodePortsFrom _ _ _ _ _) as [[ports op] err] eqn:Hrun.
  intros [= <- <- ->]. simpl.
  apply (initNodePortsFrom_shares _ Hcons) in Hrun
    as (m & Hlen & _ & _ & Hdone & _);
    [|done|apply sharedSoFar_start|done|done].
  intros i j p q Hi Hj Hpq.
  assert (m !! Port p = Some (NodePort p)) as Hp.
  { apply (Hdone i); [|done]. rewrite <- Hlen. by eapply lookup_lt_Some. }
  assert (m !! Port q = Some (NodePort q)) as Hq.
  { apply (Hdone j); [|done]. rewrite <- Hlen. by eapply lookup_lt_Some. }
  congruence.
Qed.

End StorageFacts.

(** ** The modelled allocator keeps the contract *)

#[global] Instance Range_Contract :
  ipallocator.Contract string (ipallocator.Range string).
Proof.
  split.
  - intros a ip a'. simpl. unfold ipallocator.rangeAllocate.
    destruct ip as [x|]; [|discriminate].
    destruct (negb (ipallocator.rangeContains a x)); [discriminate|].
    case_bool_decide as Hused; [discriminate|].
    intros [= <-]. simpl. unfold ipallocator.rangeSetUsed. simpl.
    destruct a as [v6 contains next used]. simpl in *. do 2 f_equal. set_solver.
  - intros a ip a'. simpl. unfold ipallocator.rangeAllocateNext.
    destruct (ipallocator.rangeNext a (ipallocator.rangeUsed a)) as [x|];
      [|discriminate].
    destruct (ipallocator.rangeContains a x); [|discriminate]. simpl.
    case_bool_decide as Hused; [discriminate|]. simpl.
    intros [= <- <-]. unfold ipallocator.rangeSetUsed. simpl.
    destruct a as [v6 contains next used]. simpl in *. do 2 f_equal. set_solver.
  - reflexivity.
Qed.

(** ** The statements at sample inputs *)

Section Samples.

Import Storage portallocator AsSpecified Sample.

(** C1, at the Create of a dual-stack NodePort Service whose persisting
    fails after two cluster IPs and two node ports have been allocated. *)
Lemma Create_failure_restores_allocators_witness :
  let created := service ServiceTypeNodePort [port "http" 80 0; port "https" 443 30443]
                   selector [] [] (Some PreferDualStack) in
  fst (Create (collaborators storeDown) dualStackCluster created false)
  = dualStackCluster.
Proof.
  intros created.
  apply (Create_failure_restores_allocators (collaborators storeDown)
           dualStackCluster created _ None
           (ErrOther "etcdserver: request timed out")).
  vm_compute. reflexivity.
Defined.

(** C2 (as stated) fails: two entries with port 80 that name the node ports
    30001 and 30002 both keep the node port they name. *)
Lemma initNodePorts_distinct_node_ports :
  let created := service ServiceTypeNodePort [port "a" 80 30001; port "b" 80 30002]
                   selector [] [] None in
  ∃ service' nodePortOp' p q,
    initNodePorts created (StartOperation nodePorts false)
    = (service', nodePortOp', None)
    ∧ Ports (Spec service') !! 0%nat = Some p
    ∧ Ports (Spec service') !! 1%nat = Some q
    ∧ Port p = Port q
    ∧ NodePort p ≠ NodePort q.
Proof.
  simpl. eexists _, _, _, _.
  split; [vm_compute; reflexivity|].
  split; [reflexivity|]. split; [reflexivity|]. split; [reflexivity|].
  simpl. discriminate.
Qed.

(** C2 (as amended), at a request with two entries for port 80 of which one
    names a node port. *)
Lemma initNodePorts_shares_node_port_witness :
  let created := service ServiceTypeNodePort
                   [port "a" 80 0; port "b" 80 30001; port "dns" 53 0]
                   selector [] [] None in
  let result := initNodePorts created (StartOperation nodePorts false) in
  snd result = None
  ∧ Ports (Spec (fst (fst result))) !! 0%nat = Some (port "a" 80 30001)
  ∧ Ports (Spec (fst (fst result))) !! 1%nat = Some (port "b" 80 30001)
  ∧ NodePort (port "a" 80 30001) = NodePort (port "b" 80 30001).
Proof.
  intros created result.
  assert (initNodePorts created (StartOperation nodePorts false)
          = (fst (fst result), snd (fst result), None)) as Hrun
      by (vm_compute; reflexivity).
  assert (Ports (Spec (fst (fst result))) !! 0%nat = Some (port "a" 80 30001)) as Ha
      by (vm_compute; reflexivity).
  assert (Ports (Spec (fst (fst result))) !! 1%nat = Some (port "b" 80 30001)) as Hb
      by (vm_compute; reflexivity).
  split; [vm_compute; reflexivity|]. split; [exact Ha|]. split; [exact Hb|].
  refine (initNodePorts_shares_node_port created (StartOperation nodePorts false)
            _ _ _ _ _ Hrun 0%nat 1%nat _ _ Ha Hb _).
  - simpl. lia.
  - simpl. lia.
  - intros i j p q Hi Hj Hpq.
    destruct i as [|[|[|i]]]; simpl in Hi; try discriminate;
      destruct j as [|[|[|j]]]; simpl in Hj; try discriminate;
      injection Hi as <-; injection Hj as <-; simpl in *; auto; discriminate.
  - reflexivity.
Defined.

(** C3 (as stated) fails: on a cluster with IPv4 only, the IPv6 literal
    after an empty first entry is a literal at index 1, beyond the (empty)
    families, of a family without allocator, so that rule 3 demands an
    Invalid error; the defaulter succeeds and defaults the families to
    IPv4. *)
Lemma defaulter_passes_over_literal_after_marker :
  let created := service ServiceTypeClusterIP [] selector [""; "2001:db8:1::5"] [] None in
  defaultFamiliesEachLiteral singleStackCluster 0 (ClusterIPs (Spec created))
    (IPFamilies (Spec created))
  = inl (ErrInvalid [Child "spec"; Child "clusterIPs"; Index 1]
           (notConfigured IPv6Protocol))
  ∧ defaultFamiliesFromClusterIPs singleStackCluster 0 (ClusterIPs (Spec created))
      (IPFamilies (Spec created)) = inr []
  ∧ ∃ defaulted,
      tryDefaultValidateServiceClusterIPFields singleStackCluster created
      = inr defaulted
      ∧ IPFamilies (Spec defaulted) = [IPv4Protocol].
Proof.
  simpl. split; [vm_compute; reflexivity|]. split; [vm_compute; reflexivity|].
  eexists. split; [vm_compute; reflexivity|]. reflexivity.
Qed.

(** C3 (as amended), at a Service that names an IPv4 and an IPv6 cluster
    IP on a cluster with both families. *)
Lemma defaulter_families_from_leading_literals_witness :
  let created := service ServiceTypeClusterIP [] selector
                   ["10.0.0.7"; "2001:db8:1::7"] [] (Some RequireDualStack) in
  let defaulted :=
    match tryDefaultValidateServiceClusterIPFields dualStackCluster created with
    | inr defaulted => defaulted
    | inl _ => created
    end in
  tryDefaultValidateServiceClusterIPFields dualStackCluster created = inr defaulted
  ∧ [IPv4Protocol; IPv6Protocol] `prefix_of` IPFamilies (Spec defaulted).
Proof.
  intros created defaulted.
  assert (tryDefaultValidateServiceClusterIPFields dualStackCluster created
          = inr defaulted) as Hrun by (vm_compute; reflexivity).
  split; [exact Hrun|].
  refine (proj2 (proj2 (defaulter_families_from_leading_literals
                          dualStackCluster created _)) defaulted Hrun).
  discriminate.
Defined.

(** C4 (as stated) fails: a headless Service without selector that
    declares two families under SingleStack is rejected by the policy
    check, which runs before the headless branch. *)
Lemma headless_selectorless_single_stack_rejected :
  let created := service ServiceTypeClusterIP [] None [ClusterIPNone]
                   [IPv4Protocol; IPv6Protocol] (Some SingleStack) in
  Type_ (Spec created) ≠ ServiceTypeExternalName
  ∧ ClusterIPs (Spec created) !! 0%nat = Some ClusterIPNone
  ∧ Selector (Spec created) = None
  ∧ ∃ detail,
      tryDefaultValidateServiceClusterIPFields dualStackCluster created
      = inl (ErrInvalid [Child "spec"; Child "ipFamilyPolicy"] detail).
Proof.
  simpl. split; [discriminate|]. split; [reflexivity|]. split; [reflexivity|].
  eexists. vm_compute. reflexivity.
Qed.

(** C4 (as amended), at two headless Services without selector.  The first
    declares two families under SingleStack on a cluster with both and is
    turned down.  The second has neither policy nor families on a cluster
    with IPv4 only: the policy becomes RequireDualStack and IPv6, which has
    no allocator, follows IPv4. *)
Lemma headless_selectorless_defaulting_witness :
  let refused := service ServiceTypeClusterIP [] None [ClusterIPNone]
                   [IPv4Protocol; IPv6Protocol] (Some SingleStack) in
  let created := service ServiceTypeClusterIP [] None [ClusterIPNone] [] None in
  (∃ err, tryDefaultValidateServiceClusterIPFields dualStackCluster refused
          = inl err)
  ∧ serviceIPAllocatorsByFamily singleStackCluster !! IPv6Protocol = None
  ∧ tryDefaultValidateServiceClusterIPFields singleStackCluster created
    = inr (setIPFamilies (setIPFamilyPolicy created (Some RequireDualStack))
             [IPv4Protocol; IPv6Protocol]).
Proof.
  intros refused created. split.
  { eexists.
    refine (proj1 (headless_selectorless_defaulting dualStackCluster refused _ _ _)
              _ _).
    - discriminate.
    - reflexivity.
    - reflexivity.
    - reflexivity.
    - right. reflexivity. }
  split; [vm_compute; reflexivity|].
  refine (proj2 (headless_selectorless_defaulting singleStackCluster created _ _ _)
            _).
  - discriminate.
  - reflexivity.
  - reflexivity.
  - left. reflexivity.
Defined.

(** C7, at an update that changes the health-check node port of a
    LoadBalancer with [ExternalTrafficPolicy = Local]. *)
Lemma healthCheckNodePortUpdate_remains_needed_witness :
  ∃ detail,
    healthCheckNodePortUpdate (localLoadBalancer 30005) (localLoadBalancer 30006)
      (StartOperation nodePorts false)
    = (localLoadBalancer 30006, StartOperation nodePorts false,
       (false, Some (ErrInvalid [Child "spec"; Child "healthCheckNodePort"] detail))).
Proof.
  refine (proj1 (healthCheckNodePortUpdate_remains_needed
                   (localLoadBalancer 30005) (localLoadBalancer 30006)
                   (StartOperation nodePorts false) _ _) _).
  - reflexivity.
  - reflexivity.
  - simpl. lia.
Defined.

(** C9, at a ClusterIP Service with a selector. *)
Lemma second_headless_test_never_holds_witness :
  let created := service ServiceTypeClusterIP [] selector [] [] None in
  ipFamilyCheck singleStackCluster created
  = Validated (validateFamilies singleStackCluster created).
Proof.
  intros created.
  refine (proj1 (proj2 (proj2 (second_headless_test_never_holds
                                 singleStackCluster created created _)))).
  vm_compute. reflexivity.
Defined.

(** C10, at the release of an IPv4 and an IPv6 address on a cluster that
    has IPv4 only. *)
Lemma releaseClusterIPs_skips_unconfigured_witness :
  let toRelease : gmap IPFamily string :=
    {[IPv4Protocol := "10.0.0.1"; IPv6Protocol := "2001:db8:1::1"]} in
  let result := releaseClusterIPs IPv6First singleStackCluster (Some toRelease) in
  let released : gmap IPFamily string := {[IPv4Protocol := "10.0.0.1"]} in
  serviceIPAllocatorsByFamily singleStackCluster !! IPv6Protocol = None
  ∧ result = (fst result, (Some released, None))
  ∧ released !! IPv6Protocol = None.
Proof.
  intros toRelease result released.
  assert (serviceIPAllocatorsByFamily singleStackCluster !! IPv6Protocol = None)
    as Hnone by (vm_compute; reflexivity).
  assert (result = (fst result, (Some released, None))) as Hrun
      by (vm_compute; reflexivity).
  split; [exact Hnone|]. split; [exact Hrun|].
  exact (proj1 (proj2 (releaseClusterIPs_skips_unconfigured IPv6First
                         singleStackCluster toRelease))
               (fst result) released None IPv6Protocol Hrun Hnone).
Defined.

End Samples.

(** * Further properties of the storage layer *)

Section DefaulterFacts.

Import Storage portallocator AsSpecified.

Context {IP A : Type} `{!NetLib IP} `{!ipallocator.Interface IP A}.

Implicit Types (rs : REST A) (service : Service).

(** A map over the two families that has two entries has both. *)
Lemma two_families_configured (m : gmap IPFamily A) family :
  size m = 2%nat → is_Some (m !! family).
Proof.
  intros Hsize.
  destruct (m !! IPv4Protocol) as [a4|] eqn:H4, (m !! IPv6Protocol) as [a6|] eqn:H6.
  - destruct family; rewrite ?H4, ?H6; eauto.
  - exfalso. assert (m = {[IPv4Protocol := a4]}) as ->.
    { apply map_eq. intros []; [by rewrite lookup_singleton_eq|].
      by rewrite lookup_singleton_ne. }
    by rewrite map_size_singleton in Hsize.
  - exfalso. assert (m = {[IPv6Protocol := a6]}) as ->.
    { apply map_eq. intros []; [by rewrite lookup_singleton_ne|].
      by rewrite lookup_singleton_eq. }
    by rewrite map_size_singleton in Hsize.
  - exfalso. assert (m = ∅) as -> by (apply map_eq; intros []; by rewrite lookup_empty).
    by rewrite map_size_empty in Hsize.
Qed.

Lemma familiesConfigured_None rs families :
  ∀ i, familiesConfigured rs i families = None →
       ∀ family, family ∈ families →
                 is_Some (serviceIPAllocatorsByFamily rs !! family).
Proof.
  induction families as [|f families IH]; intros i; simpl.
  - intros _ family Hin. by apply elem_of_nil in Hin.
  - destruct (serviceIPAllocatorsByFamily rs !! f) eqn:Hf; [|discriminate].
    intros Hrest family Hin. apply elem_of_cons in Hin as [->|Hin].
    + rewrite Hf. eauto.
    + by eapply IH.
Qed.

Lemma familiesConfigured_Some rs families :
  ∀ i err, familiesConfigured rs i families = Some err →
           ∃ j detail, err = ErrInvalid [Child "spec"; Child "ipFamilies"; Index j] detail
                       ∧ (i ≤ j < i + length families)%nat
                       ∧ ∃ family, families !! (j - i)%nat = Some family
                                   ∧ serviceIPAllocatorsByFamily rs !! family = None.
Proof.
  induction families as [|f families IH]; intros i err; simpl; [discriminate|].
  destruct (serviceIPAllocatorsByFamily rs !! f) eqn:Hf.
  - intros Hrest. destruct (IH _ _ Hrest) as (j & detail & -> & Hj & family & Hl & Hn).
    exists j, detail. split; [done|]. split; [lia|]. exists family.
    replace (j - i)%nat with (S (j - S i)) by lia. done.
  - intros [= <-]. eexists i, _. split; [done|]. split; [lia|].
    exists f. rewrite Nat.sub_diag. done.
Qed.

Lemma defaultPolicyAndFamilies_configured rs service :
  is_Some (serviceIPAllocatorsByFamily rs !! defaultServiceIPFamily rs) →
  (∀ family, family ∈ IPFamilies (Spec service) →
             is_Some (serviceIPAllocatorsByFamily rs !! family)) →
  ∀ family, family ∈ IPFamilies (Spec (defaultPolicyAndFamilies rs service)) →
            is_Some (serviceIPAllocatorsByFamily rs !! family).
Proof.
  intros Hdefault Hall family. unfold defaultPolicyAndFamilies.
  destruct service as [m sp st]. destruct sp as [ty ps sel ips fams pol etp hc sa tk].
  simpl in *.
  destruct (Nat.eqb_spec (size (serviceIPAllocatorsByFamily rs)) 2) as [Hsize|Hsize].
  - intros _. by apply two_families_configured.
  - rewrite !andb_false_r.
    destruct fams as [|f0 fams]; simpl.
    + intros Hin. apply list_elem_of_singleton in Hin as ->. done.
    + apply Hall.
Qed.

Lemma defaultPolicyAndFamilies_fields rs service :
  let defaulted := defaultPolicyAndFamilies rs service in
  IPFamilyPolicy (Spec defaulted) ≠ None
  ∧ IPFamilies (Spec defaulted) ≠ []
  ∧ ClusterIPs (Spec defaulted) = ClusterIPs (Spec service)
  ∧ Selector (Spec defaulted) = Selector (Spec service)
  ∧ Type_ (Spec defaulted) = Type_ (Spec service).
Proof.
  unfold defaultPolicyAndFamilies.
  destruct service as [m sp st]. destruct sp as [ty ps sel ips fams pol etp hc sa tk].
  simpl. destruct fams as [|f0 fams]; simpl; case_tests; repeat split; try done;
    by destruct fams.
Qed.

Lemma defaultHeadlessSelectorless_fields rs service :
  let defaulted := defaultHeadlessSelectorless rs service in
  IPFamilyPolicy (Spec defaulted) ≠ None
  ∧ IPFamilies (Spec defaulted) ≠ []
  ∧ ClusterIPs (Spec defaulted) = ClusterIPs (Spec service)
  ∧ Selector (Spec defaulted) = Selector (Spec service)
  ∧ Type_ (Spec defaulted) = Type_ (Spec service).
Proof.
  unfold defaultHeadlessSelectorless.
  destruct service as [m sp st]. destruct sp as [ty ps sel ips fams pol etp hc sa tk].
  simpl. destruct fams as [|f0 fams]; simpl; case_tests; repeat split; try done;
    by destruct fams.
Qed.

(** What the defaulter leaves behind when it succeeds. *)
Lemma defaulter_success_fields rs service defaulted :
  Type_ (Spec service) ≠ ServiceTypeExternalName →
  is_Some (serviceIPAllocatorsByFamily rs !! defaultServiceIPFamily rs) →
  tryDefaultValidateServiceClusterIPFields rs service = inr defaulted →
  IPFamilyPolicy (Spec defaulted) ≠ None
  ∧ IPFamilies (Spec defaulted) ≠ []
  ∧ ClusterIPs (Spec defaulted) = ClusterIPs (Spec service)
  ∧ Selector (Spec defaulted) = Selector (Spec service)
  ∧ Type_ (Spec defaulted) = Type_ (Spec service)
  ∧ (¬ (ClusterIPs (Spec service) !! 0%nat = Some ClusterIPNone
        ∧ Selector (Spec service) = None) →
     ∀ family, family ∈ IPFamilies (Spec defaulted) →
               is_Some (serviceIPAllocatorsByFamily rs !! family)).
Proof.
  intros Hty Hdefault.
  unfold tryDefaultValidateServiceClusterIPFields, beforeFamilyCheck.
  rewrite (bool_decide_eq_false_2 _ Hty).
  destruct (policyConflict service); [discriminate|].
  destruct (defaultFamiliesFromClusterIPs _ _ _ _) as [err|extended]; [discriminate|].
  set (extendedService := setIPFamilies service extended).
  assert (ClusterIPs (Spec extendedService) = ClusterIPs (Spec service)
          ∧ Selector (Spec extendedService) = Selector (Spec service)
          ∧ Type_ (Spec extendedService) = Type_ (Spec service)) as (Hips & Hsel & Hty')
      by done.
  destruct (isHeadlessSelectorless extendedService) eqn:Hheadless.
  - intros [= <-].
    destruct (defaultHeadlessSelectorless_fields rs extendedService)
      as (? & ? & ? & ? & ?).
    repeat split; try congruence.
    intros Hnot. exfalso. apply Hnot.
    apply isHeadlessSelectorless_spec in Hheadless. by rewrite Hips, Hsel in Hheadless.
  - unfold ipFamilyCheck. rewrite Hheadless.
    destruct (validateFamilies rs extendedService) as [err|] eqn:Hvalid; [discriminate|].
    intros [= <-].
    destruct (defaultPolicyAndFamilies_fields rs extendedService)
      as (? & ? & ? & ? & ?).
    repeat split; try congruence.
    intros _. apply defaultPolicyAndFamilies_configured; [done|].
    unfold validateFamilies in Hvalid.
    destruct (bool_decide _ && _); [discriminate|].
    by eapply familiesConfigured_None.
Qed.

(** X1: when the defaulter succeeds on a Service that is not an
    ExternalName, on a cluster whose default family has an allocator, the
    Service comes back with a policy and at least one family, with its
    cluster IPs, selector and type as given, and, unless it is headless
    without selector, every family it then declares has an allocator. *)
Theorem defaulter_validates_families rs service defaulted :
  Type_ (Spec service) ≠ ServiceTypeExternalName →
  is_Some (serviceIPAllocatorsByFamily rs !! defaultServiceIPFamily rs) →
  tryDefaultValidateServiceClusterIPFields rs service = inr defaulted →
  IPFamilyPolicy (Spec defaulted) ≠ None
  ∧ IPFamilies (Spec defaulted) ≠ []
  ∧ ClusterIPs (Spec defaulted) = ClusterIPs (Spec service)
  ∧ Selector (Spec defaulted) = Selector (Spec service)
  ∧ Type_ (Spec defaulted) = Type_ (Spec service)
  ∧ (¬ (ClusterIPs (Spec service) !! 0%nat = Some ClusterIPNone
        ∧ Selector (Spec service) = None) →
     ∀ family, family ∈ IPFamilies (Spec defaulted) →
               is_Some (serviceIPAllocatorsByFamily rs !! family)).
Proof. apply defaulter_success_fields. Qed.

(** X2: on a cluster with fewer than two families, a Service that asks for
    RequireDualStack and is neither an ExternalName nor headless without
    selector is rejected with an Invalid error; the error is on
    spec.ipFamilyPolicy when the Service names no cluster IP. *)
Theorem defaulter_rejects_dual_stack_on_single_stack rs service :
  Type_ (Spec service) ≠ ServiceTypeExternalName →
  IPFamilyPolicy (Spec service) = Some RequireDualStack →
  (size (serviceIPAllocatorsByFamily rs) < 2)%nat →
  ¬ (ClusterIPs (Spec service) !! 0%nat = Some ClusterIPNone
     ∧ Selector (Spec service) = None) →
  (∃ err, tryDefaultValidateServiceClusterIPFields rs service = inl err
          ∧ isInvalid err = true)
  ∧ (ClusterIPs (Spec service) = [] →
     ∃ detail, tryDefaultValidateServiceClusterIPFields rs service
               = inl (ErrInvalid [Child "spec"; Child "ipFamilyPolicy"] detail)).
Proof.
  intros Hty Hpol Hsize Hnot.
  unfold tryDefaultValidateServiceClusterIPFields, beforeFamilyCheck.
  rewrite (bool_decide_eq_false_2 _ Hty).
  rewrite (policyConflict_false service) by (right; left; done).
  assert (∀ extended,
            match ipFamilyCheck rs (setIPFamilies service extended) with
            | NoValidation =>
                inr (defaultPolicyAndFamilies rs (setIPFamilies service extended))
            | Validated (Some err) => inl err
            | Validated None =>
                inr (defaultPolicyAndFamilies rs (setIPFamilies service extended))
            end
            = inl (ErrInvalid policyField
                     "Cluster is not configured for dual stack services")
            ∧ isHeadlessSelectorless (setIPFamilies service extended) = false)
    as Hcheck.
  { intros extended.
    assert (isHeadlessSelectorless (setIPFamilies service extended) = false) as Hh.
    { destruct (isHeadlessSelectorless _) eqn:Hh; [|done].
      apply isHeadlessSelectorless_spec in Hh. contradiction. }
    split; [|done]. unfold ipFamilyCheck, validateFamilies. rewrite Hh. simpl.
    rewrite Hpol, (bool_decide_eq_true_2 _ eq_refl).
    by rewrite (proj2 (Nat.ltb_lt _ _) Hsize). }
  split.
  - destruct (defaultFamiliesFromClusterIPs _ _ _ _) as [err|extended] eqn:Hloop.
    + exists err. split; [done|].
      rewrite defaultFamiliesFromClusterIPs_leading,
        defaultFamiliesFromClusterIPs_literals in Hloop
        by apply leadingLiterals_Forall.
      revert Hloop. generalize (leadingLiterals (ClusterIPs (Spec service))).
      generalize (IPFamilies (Spec service)). generalize 0%nat.
      intros i families literals. revert i families.
      induction literals as [|ip literals IH]; intros i families; simpl;
        [discriminate|].
      destruct (isLiteral ip); [|apply IH].
      destruct (length families <=? i)%nat; [|apply IH].
      destruct (serviceIPAllocatorsByFamily rs !! familyOfLiteral ip); [apply IH|].
      by intros [= <-].
    + destruct (Hcheck extended) as [Hres Hh]. rewrite Hh, Hres. eauto.
  - intros Hips. rewrite Hips. simpl.
    destruct (Hcheck (IPFamilies (Spec service))) as [Hres Hh]. rewrite Hh, Hres. eauto.
Qed.

End DefaulterFacts.

Section DefaulterClosedForm.

Import Storage portallocator AsSpecified.

Context {IP A : Type} `{!NetLib IP} `{!ipallocator.Interface IP A}.

Implicit Types (rs : REST A) (service : Service).

Lemma defaultFamiliesEachLiteral_declared rs literals :
  ∀ i families,
    (length literals + i ≤ length families)%nat →
    defaultFamiliesEachLiteral rs i literals families = inr families.
Proof.
  induction literals as [|ip literals IH]; intros i families Hlen; simpl; [done|].
  simpl in Hlen. destruct (isLiteral ip); [|apply IH; lia].
  destruct (Nat.leb_spec (length families) i); [lia|]. apply IH. lia.
Qed.

Lemma defaultPolicyAndFamilies_standard rs service :
  defaultPolicyAndFamilies rs service
  = setIPFamilies
      (setIPFamilyPolicy service
         (Some (default SingleStack (IPFamilyPolicy (Spec service)))))
      (standardFamilies rs (default SingleStack (IPFamilyPolicy (Spec service)))
         (IPFamilies (Spec service))).
Proof.
  unfold defaultPolicyAndFamilies, standardFamilies.
  destruct service as [m sp st]. destruct sp as [ty ps sel ips fams pol etp hc sa tk].
  simpl. set (policy := default SingleStack pol).
  destruct fams as [|f0 [|f1 fams]]; simpl;
    [set (f0 := defaultServiceIPFamily rs)| |by rewrite andb_false_r].
  all: destruct policy; simpl.
  all: destruct (Nat.eqb_spec (size (serviceIPAllocatorsByFamily rs)) 2); simpl.
  all: repeat case_bool_decide; try reflexivity.
  all: try (destruct f0; simplify_eq; reflexivity).
  all: exfalso; intuition congruence.
Qed.

(** X3: for a Service that is neither an ExternalName nor headless without
    selector, that passes the policy check, whose named cluster IPs all have
    their family declared, whose declared families all have an allocator, and
    that asks for RequireDualStack only on a cluster with two families, the
    defaulter succeeds: the policy is SingleStack if it was unset, the
    families are [defaultFamily] if there were none, and a single family is
    followed by the complementary one exactly when the policy is not
    SingleStack and the cluster has two families.  Nothing else changes. *)
Theorem defaulter_standard_families rs service :
  Type_ (Spec service) ≠ ServiceTypeExternalName →
  ¬ (ClusterIPs (Spec service) !! 0%nat = Some ClusterIPNone
     ∧ Selector (Spec service) = None) →
  IPFamilyPolicy (Spec service) = None
  ∨ IPFamilyPolicy (Spec service) = Some RequireDualStack
  ∨ (length (ClusterIPs (Spec service)) ≠ 2%nat
     ∧ length (IPFamilies (Spec service)) ≠ 2%nat) →
  (length (leadingLiterals (ClusterIPs (Spec service)))
   ≤ length (IPFamilies (Spec service)))%nat →
  (∀ family, family ∈ IPFamilies (Spec service) →
             is_Some (serviceIPAllocatorsByFamily rs !! family)) →
  (IPFamilyPolicy (Spec service) = Some RequireDualStack →
   (2 ≤ size (serviceIPAllocatorsByFamily rs))%nat) →
  let policy := default SingleStack (IPFamilyPolicy (Spec service)) in
  tryDefaultValidateServiceClusterIPFields rs service
  = inr (setIPFamilies (setIPFamilyPolicy service (Some policy))
           (standardFamilies rs policy (IPFamilies (Spec service)))).
Proof.
  intros Hty Hnot Hpol Hnamed Hall Hdual policy.
  unfold tryDefaultValidateServiceClusterIPFields, beforeFamilyCheck.
  rewrite (bool_decide_eq_false_2 _ Hty), (policyConflict_false _ Hpol).
  rewrite defaultFamiliesFromClusterIPs_leading,
    defaultFamiliesFromClusterIPs_literals by apply leadingLiterals_Forall.
  rewrite defaultFamiliesEachLiteral_declared by lia.
  rewrite setIPFamilies_same.
  assert (isHeadlessSelectorless service = false) as Hh.
  { destruct (isHeadlessSelectorless service) eqn:Hh; [|done].
    apply isHeadlessSelectorless_spec in Hh. contradiction. }
  rewrite Hh. unfold ipFamilyCheck. rewrite Hh.
  assert (validateFamilies rs service = None) as ->.
  { unfold validateFamilies.
    destruct (bool_decide (IPFamilyPolicy (Spec service) = Some RequireDualStack))
      eqn:Hreq; simpl.
    - apply bool_decide_eq_true in Hreq. specialize (Hdual Hreq).
      rewrite (proj2 (Nat.ltb_ge _ _) Hdual).
      destruct (familiesConfigured rs 0 (IPFamilies (Spec service))) as [err|] eqn:Hf;
        [|done].
      apply familiesConfigured_Some in Hf
        as (j & detail & _ & _ & family & Hlook & Hnone).
      apply list_elem_of_lookup_2 in Hlook. apply Hall in Hlook.
      rewrite Hnone in Hlook. by destruct Hlook.
    - destruct (familiesConfigured rs 0 (IPFamilies (Spec service))) as [err|] eqn:Hf;
        [|done].
      apply familiesConfigured_Some in Hf
        as (j & detail & _ & _ & family & Hlook & Hnone).
      apply list_elem_of_lookup_2 in Hlook. apply Hall in Hlook.
      rewrite Hnone in Hlook. by destruct Hlook. }
  f_equal. apply defaultPolicyAndFamilies_standard.
Qed.

End DefaulterClosedForm.

Section CreateFacts.

Import Storage portallocator AsSpecified.

Context {IP A : Type} `{!NetLib IP} `{!ipallocator.Interface IP A}.

Implicit Types (rs : REST A) (service : Service).

Lemma sameConfiguration_refl rs : sameConfiguration rs rs.
Proof. by split. Qed.

Lemma sameConfiguration_trans rs1 rs2 rs3 :
  sameConfiguration rs1 rs2 → sameConfiguration rs2 rs3 → sameConfiguration rs1 rs3.
Proof.
  intros [Hd1 Hc1] [Hd2 Hc2]. split; [congruence|].
  intros family. by rewrite Hc2, Hc1.
Qed.

Lemma setAllocator_sameConfiguration rs family allocator :
  is_Some (serviceIPAllocatorsByFamily rs !! family) →
  sameConfiguration rs (setAllocator rs family allocator)
  ∧ serviceNodePorts (setAllocator rs family allocator) = serviceNodePorts rs.
Proof.
  intros Hcfg. split; [|done]. split; [done|]. intros f. simpl.
  destruct (decide (family = f)) as [<-|Hne].
  - rewrite lookup_insert_eq. split; eauto.
  - by rewrite lookup_insert_ne.
Qed.

Lemma allocClusterIPsRange_configuration toAlloc :
  ∀ rs allocated rs' result,
    allocClusterIPsRange rs toAlloc allocated = (rs', result) →
    sameConfiguration rs rs' ∧ serviceNodePorts rs' = serviceNodePorts rs.
Proof.
  induction toAlloc as [|[family ip] toAlloc IH]; intros rs allocated rs' result; simpl.
  - intros [= <- _]. split; [apply sameConfiguration_refl|done].
  - destruct (serviceIPAllocatorsByFamily rs !! family) as [allocator|] eqn:Hf.
    2:{ intros [= <- _]. split; [apply sameConfiguration_refl|done]. }
    assert (∀ allocator',
              sameConfiguration rs (setAllocator rs family allocator')
              ∧ serviceNodePorts (setAllocator rs family allocator')
                = serviceNodePorts rs) as Hstep
        by (intros; apply setAllocator_sameConfiguration; rewrite Hf; eauto).
    case_bool_decide.
    + destruct (ipallocator.AllocateNext allocator) as [e|[allocatedIP allocator']].
      * intros [= <- _]. split; [apply sameConfiguration_refl|done].
      * intros Hrun. apply IH in Hrun as [Hcfg Hports].
        destruct (Hstep allocator') as [Hcfg' Hports'].
        split; [by eapply sameConfiguration_trans|congruence].
    + destruct (ipallocator.Allocate allocator (ParseIP ip)) as [e|allocator'].
      * intros [= <- _]. split; [apply sameConfiguration_refl|done].
      * intros Hrun. apply IH in Hrun as [Hcfg Hports].
        destruct (Hstep allocator') as [Hcfg' Hports'].
        split; [by eapply sameConfiguration_trans|congruence].
Qed.

Lemma allocClusterIPsRange_returns toAlloc :
  ∀ rs allocated,
    (∀ family, family ∈ toAlloc.*1 →
               is_Some (serviceIPAllocatorsByFamily rs !! family)) →
    ∃ rs' result, allocClusterIPsRange rs toAlloc allocated = (rs', Returns result).
Proof.
  induction toAlloc as [|[family ip] toAlloc IH]; intros rs allocated Hcfg; simpl.
  - eauto.
  - destruct (Hcfg family) as [allocator Hf]; [simpl; left|]. rewrite Hf.
    assert (∀ allocator' f, f ∈ toAlloc.*1 →
              is_Some (serviceIPAllocatorsByFamily (setAllocator rs family allocator')
                       !! f)) as Hstep.
    { intros allocator' f Hin.
      apply (setAllocator_sameConfiguration rs family allocator'); [by rewrite Hf|].
      apply Hcfg. simpl. by right. }
    case_bool_decide.
    + destruct (ipallocator.AllocateNext allocator) as [e|[allocatedIP allocator']];
        [eauto|]. apply IH. apply Hstep.
    + destruct (ipallocator.Allocate allocator (ParseIP ip)) as [e|allocator'];
        [eauto|]. apply IH. apply Hstep.
Qed.

Lemma releaseClusterIPsRange_configuration toRelease :
  ∀ rs released rs' result,
    releaseClusterIPsRange rs toRelease released = (rs', result) →
    sameConfiguration rs rs' ∧ serviceNodePorts rs' = serviceNodePorts rs.
Proof.
  induction toRelease as [|[family ip] toRelease IH]; intros rs released rs' result;
    simpl.
  - intros [= <- _]. split; [apply sameConfiguration_refl|done].
  - destruct (serviceIPAllocatorsByFamily rs !! family) as [allocator|] eqn:Hf;
      [|apply IH].
    destruct (ipallocator.Release allocator (ParseIP ip)) as [e|allocator'].
    + intros [= <- _]. split; [apply sameConfiguration_refl|done].
    + intros Hrun. apply IH in Hrun as [Hcfg Hports].
      destruct (setAllocator_sameConfiguration rs family allocator')
        as [Hcfg' Hports']; [rewrite Hf; eauto|].
      split; [by eapply sameConfiguration_trans|congruence].
Qed.

Lemma releaseClusterIPs_configuration ord rs toRelease rs' result :
  releaseClusterIPs ord rs toRelease = (rs', result) →
  sameConfiguration rs rs' ∧ serviceNodePorts rs' = serviceNodePorts rs.
Proof.
  unfold releaseClusterIPs. destruct toRelease as [toRelease|].
  - apply releaseClusterIPsRange_configuration.
  - intros [= <- _]. split; [apply sameConfiguration_refl|done].
Qed.

(** The loop that collects [toAlloc] never indexes out of range, and it
    collects families of the Service only. *)
Lemma markClusterIPs_returns families :
  ∀ i clusterIPs toAlloc,
    (i ≤ length clusterIPs)%nat →
    ∃ clusterIPs' toAlloc',
      markClusterIPs i families clusterIPs toAlloc = Returns (clusterIPs', toAlloc')
      ∧ ∀ family, is_Some (toAlloc' !! family) →
                  is_Some (toAlloc !! family) ∨ family ∈ families.
Proof.
  induction families as [|f families IH]; intros i clusterIPs toAlloc Hi; simpl.
  - eexists _, _. split; [done|]. by left.
  - set (clusterIPs1 := if Z.of_nat i >? Z.of_nat (length clusterIPs) - 1
                        then (clusterIPs ++ [""])%list else clusterIPs).
    assert (i < length clusterIPs1)%nat as Hlt.
    { subst clusterIPs1. rewrite index_beyond_length.
      destruct (Nat.leb_spec (length clusterIPs) i); [|done].
      rewrite length_app. simpl. lia. }
    destruct (lookup_lt_is_Some_2 _ _ Hlt) as [ip Hip]. rewrite Hip.
    destruct (IH (S i) clusterIPs1 (<[f := ip]> toAlloc)) as (ips' & m' & -> & Hdom);
      [lia|].
    eexists _, _. split; [done|]. intros family Hin.
    destruct (Hdom _ Hin) as [Hm|Hf]; [|right; by right].
    destruct (decide (f = family)) as [<-|Hne]; [right; left|].
    rewrite lookup_insert_ne in Hm by done. by left.
Qed.

Lemma allocServiceClusterIPs_configuration ordAlloc ordSet rs service rs' service' r :
  allocServiceClusterIPs ordAlloc ordSet rs service = (rs', service', r) →
  sameConfiguration rs rs' ∧ serviceNodePorts rs' = serviceNodePorts rs.
Proof.
  unfold allocServiceClusterIPs.
  destruct (bool_decide _);
    [intros [= <- _ _]; split; [apply sameConfiguration_refl|done]|].
  destruct (_ && _);
    [intros [= <- _ _]; split; [apply sameConfiguration_refl|done]|].
  destruct (markClusterIPs _ _ _ _) as [[clusterIPs toAlloc]|];
    [|intros [= <- _ _]; split; [apply sameConfiguration_refl|done]].
  destruct (allocClusterIPs ordAlloc rs toAlloc) as [rs1 result] eqn:Halloc.
  apply allocClusterIPsRange_configuration in Halloc.
  destruct result as [[allocated [e|]]|]; by intros [= <- _ _].
Qed.

Lemma Create_sameConfiguration (c : Collaborators) rs service isDryRun :
  sameConfiguration rs (fst (Create c rs service isDryRun)).
Proof.
  unfold Create.
  destruct (BeforeCreate c service) as [e|service1]; [apply sameConfiguration_refl|].
  destruct (createAllocating c rs service1 isDryRun) as [[rs1 toRelease] result]
    eqn:Hbody.
  destruct (releaseClusterIPs (ordRelease c) rs1 toRelease) as [rs2 r] eqn:Hrelease.
  simpl. apply releaseClusterIPs_configuration in Hrelease as [Hcfg2 _].
  eapply sameConfiguration_trans; [|exact Hcfg2].
  unfold createAllocating in Hbody.
  destruct (tryDefaultValidateServiceClusterIPFields rs service1) as [e|service2];
    [injection Hbody as <- _ _; apply sameConfiguration_refl|].
  destruct (if negb isDryRun
            then allocServiceClusterIPs (ordAlloc c) (ordSet c) rs service2
            else (rs, service2, Returns (None, None)))
    as [[rs3 service3] allocation] eqn:Halloc.
  assert (sameConfiguration rs rs3) as Hcfg3.
  { destruct isDryRun; simpl in Halloc.
    - injection Halloc as <- _ _. apply sameConfiguration_refl.
    - by apply allocServiceClusterIPs_configuration in Halloc as [? _]. }
  destruct allocation as [[bag [e|]]|].
  - by injection Hbody as <- _ _.
  - destruct (createWithNodePortOp c service3 _) as [[op reset] res].
    injection Hbody as <- _ _. exact Hcfg3.
  - by injection Hbody as <- _ _.
Qed.

(** X4: [Create] keeps the cluster's configuration: whatever it returns,
    and also when it panics, the families that have an allocator and the
    default family are afterwards what they were. *)
Theorem Create_keeps_configuration (c : Collaborators) rs service isDryRun :
  defaultServiceIPFamily (fst (Create c rs service isDryRun))
  = defaultServiceIPFamily rs
  ∧ ∀ family,
      is_Some (serviceIPAllocatorsByFamily (fst (Create c rs service isDryRun))
               !! family)
      ↔ is_Some (serviceIPAllocatorsByFamily rs !! family).
Proof. apply Create_sameConfiguration. Qed.

(** X5: on a cluster whose default family has an allocator, [Create] never
    panics: the families of a Service whose cluster IPs get allocated have
    been validated by the defaulter, and the loops index within bounds. *)
Theorem Create_never_panics (c : Collaborators) rs service isDryRun :
  is_Some (serviceIPAllocatorsByFamily rs !! defaultServiceIPFamily rs) →
  ∃ result, snd (Create c rs service isDryRun) = Returns result.
Proof.
  intros Hdefault. unfold Create.
  destruct (BeforeCreate c service) as [e|service1]; [simpl; eauto|].
  destruct (createAllocating c rs service1 isDryRun) as [[rs1 toRelease] result]
    eqn:Hbody.
  destruct (releaseClusterIPs (ordRelease c) rs1 toRelease) as [rs2 r].
  simpl. unfold createAllocating in Hbody.
  destruct (tryDefaultValidateServiceClusterIPFields rs service1) as [e|service2]
    eqn:Hdefaulted; [injection Hbody as _ _ <-; eauto|].
  destruct isDryRun; simpl in Hbody.
  { destruct (createWithNodePortOp c service2 _) as [[op reset] res].
    injection Hbody as _ _ <-. eauto. }
  destruct (allocServiceClusterIPs (ordAlloc c) (ordSet c) rs service2)
    as [[rs3 service3] allocation] eqn:Halloc.
  assert (∃ res, allocation = Returns res) as [[bag err] ->].
  { unfold allocServiceClusterIPs in Halloc.
    destruct (bool_decide (Type_ (Spec service2) = ServiceTypeExternalName)) eqn:Hty;
      [injection Halloc as _ _ <-; eauto|].
    apply bool_decide_eq_false in Hty.
    destruct ((0 <? length (ClusterIPs (Spec service2)))%nat && isHeadless service2)
      eqn:Hheadless; [injection Halloc as _ _ <-; eauto|].
    assert (Type_ (Spec service1) ≠ ServiceTypeExternalName) as Hty1.
    { intros Hext. unfold tryDefaultValidateServiceClusterIPFields, beforeFamilyCheck
        in Hdefaulted.
      rewrite (bool_decide_eq_true_2 _ Hext) in Hdefaulted.
      injection Hdefaulted as <-. done. }
    destruct (defaulter_success_fields rs service1 service2 Hty1 Hdefault Hdefaulted)
      as (_ & _ & Hips & _ & _ & Hvalid).
    assert (∀ family, family ∈ IPFamilies (Spec service2) →
                      is_Some (serviceIPAllocatorsByFamily rs !! family)) as Hall.
    { apply Hvalid. intros [Hnone _]. rewrite <- Hips in Hnone.
      unfold isHeadless in Hheadless. rewrite (bool_decide_eq_true_2 _ Hnone) in Hheadless.
      destruct (ClusterIPs (Spec service2)); [discriminate|]. discriminate. }
    destruct (markClusterIPs_returns (IPFamilies (Spec service2)) 0
                (ClusterIPs (Spec service2)) ∅) as (ips' & toAlloc & Hmark & Hdom);
      [lia|].
    rewrite Hmark in Halloc.
    destruct (allocClusterIPsRange_returns (rangeMap (ordAlloc c) toAlloc) rs ∅)
      as (rs4 & res & Hrun).
    { intros family Hin. apply list_elem_of_fmap in Hin as ([f ip] & -> & Hin).
      apply Hall. simpl.
      assert (is_Some (toAlloc !! f)) as Hsome.
      { unfold rangeMap in Hin. apply list_elem_of_omap in Hin as (f' & _ & Hf').
        destruct (toAlloc !! f') eqn:Hl; simpl in Hf'; [|discriminate].
        injection Hf' as <- <-. rewrite Hl. eauto. }
      destruct (Hdom _ Hsome) as [Hempty|Hfam]; [|done].
      rewrite lookup_empty in Hempty. by destruct Hempty. }
    unfold allocClusterIPs in Halloc. rewrite Hrun in Halloc.
    destruct res as [allocated [e|]]; injection Halloc as _ _ <-; eauto. }
  destruct err as [e|]; [injection Hbody as _ _ <-; eauto|].
  destruct (createWithNodePortOp c service3 _) as [[op reset] res].
  injection Hbody as _ _ <-. eauto.
Qed.

Lemma Create_dry_run_allocators (c : Collaborators) rs service :
  serviceIPAllocatorsByFamily (fst (Create c rs service true))
  = serviceIPAllocatorsByFamily rs.
Proof.
  unfold Create.
  destruct (BeforeCreate c service) as [e|service1]; [done|].
  unfold createAllocating.
  destruct (tryDefaultValidateServiceClusterIPFields rs service1) as [e|service2];
    [done|].
  simpl.
  destruct (createWithNodePortOp c service2 _) as [[op reset] res].
  by destruct reset.
Qed.

(** X6: a dry-run [Create] allocates no cluster IP: whatever it returns,
    the per-family IP allocators are afterwards what they were. *)
Theorem Create_dry_run_keeps_IP_allocators (c : Collaborators) rs service :
  serviceIPAllocatorsByFamily (fst (Create c rs service true))
  = serviceIPAllocatorsByFamily rs.
Proof. apply Create_dry_run_allocators. Qed.

End CreateFacts.

Section NodePortFacts.

Import Storage portallocator AsSpecified.

Lemma reserved_stage op port v :
  inRange (pa op) port = true →
  (v = port ∨ reserved op v) → reserved (stage op port) v.
Proof.
  intros Hrange Hv. unfold reserved, stage. simpl.
  assert (inRange (if dryRun op then pa op
                   else setUsed (pa op) ({[port]} ∪ Used (pa op))) v
          = inRange (pa op) v) as -> by (by destruct (dryRun op)).
  destruct Hv as [->|(Hin & Hr & Hused)].
  - split; [set_solver|]. split; [done|]. intros ->. simpl. set_solver.
  - split; [set_solver|]. split; [done|]. intros Hdry. rewrite Hdry. simpl.
    specialize (Hused Hdry). set_solver.
Qed.

Lemma Allocate_reserved op port op' :
  Allocate op port = inr op' →
  inRange (pa op) port = true
  ∧ reserved op' port ∧ ∀ v, reserved op v → reserved op' v.
Proof.
  unfold Allocate. destruct (inRange (pa op) port) eqn:Hrange; [|discriminate]. simpl.
  case_bool_decide; [discriminate|]. intros [= <-].
  split; [done|]. split; [|intros v Hv]; apply reserved_stage; auto.
Qed.

Lemma AllocateNext_reserved op port op' :
  AllocateNext op = inr (port, op') →
  inRange (pa op) port = true
  ∧ reserved op' port ∧ ∀ v, reserved op v → reserved op' v.
Proof.
  unfold AllocateNext. destruct (Next (pa op) (taken op)) as [p|]; [|discriminate].
  destruct (isFree (pa op) (taken op) p) eqn:Hfree; [|discriminate].
  intros [= <- <-]. apply andb_prop in Hfree as [Hrange _].
  split; [done|]. split; [|intros v Hv]; apply reserved_stage; auto.
Qed.

(** The scan finds the entry's own node port when no earlier entry has its
    port. *)
Lemma findRequestedNodePort_own servicePorts :
  ∀ i servicePort,
    servicePorts !! i = Some servicePort →
    NodePort servicePort ≠ 0 →
    (∀ k p, (k < i)%nat → servicePorts !! k = Some p → Port p ≠ Port servicePort) →
    findRequestedNodePort (Port servicePort) servicePorts = NodePort servicePort.
Proof.
  induction servicePorts as [|q servicePorts IH]; intros i sp Hi Hn Hbefore;
    [discriminate|].
  simpl. destruct i as [|i]; simpl in Hi.
  - injection Hi as ->. rewrite Z.eqb_refl. simpl.
    by rewrite (proj2 (Z.eqb_neq _ _) Hn).
  - assert (Port q ≠ Port sp) as Hq by (apply (Hbefore 0%nat); [lia|done]).
    rewrite (proj2 (Z.eqb_neq (Port sp) (Port q))) by done. simpl.
    apply (IH i); [done|done|]. intros k p Hk Hp. apply (Hbefore (S k)); [lia|done].
Qed.

Lemma allocatedSoFar_start requested op : allocatedSoFar requested 0 requested ∅ op.
Proof.
  split; [done|]. split.
  { intros k p0 Hk. exists p0. by repeat split. }
  split; [done|]. split.
  - intros k p Hk. lia.
  - intros port v Hv. by rewrite lookup_empty in Hv.
Qed.

(** One turn of the loop: entry [i] gets the node port [v], which the
    operation [op'] holds and which is the entry's own if it names one. *)
Lemma allocatedSoFar_step requested i ports (m m' : gmap Z Z) op op' servicePort v :
  allocatedSoFar requested i ports m op →
  ports !! i = Some servicePort →
  (∀ w, reserved op w → reserved op' w) →
  reserved op' v →
  (NodePort servicePort ≠ 0 → v = NodePort servicePort) →
  (m' = m ∧ is_Some (m !! Port servicePort)) ∨ m' = <[Port servicePort := v]> m →
  allocatedSoFar requested (S i) (<[i := setNodePort servicePort v]> ports) m' op'.
Proof.
  intros (Hlen & Hsame & Hrest & Hdone & Hmap) Hi Hmono Hv Hown Hm.
  assert (i < length ports)%nat as Hlt by (by eapply lookup_lt_Some).
  assert (requested !! i = Some servicePort) as Hreq by (by rewrite <- Hrest).
  split; [by rewrite length_insert|]. split; [|split; [|split]].
  - intros k p0 Hk. destruct (decide (k = i)) as [->|Hne].
    + rewrite list_lookup_insert_eq by done. eexists. split; [done|].
      assert (p0 = servicePort) as -> by congruence.
      split; [by repeat split|]. simpl. intros Hn. by apply Hown.
    + rewrite list_lookup_insert_ne by done. by apply Hsame.
  - intros k Hk. rewrite list_lookup_insert_ne by lia. apply Hrest. lia.
  - intros k p Hk. destruct (decide (k = i)) as [->|Hne].
    + rewrite list_lookup_insert_eq by done. intros [= <-]. simpl. split; [done|].
      destruct Hm as [[-> ?]| ->]; [done|]. rewrite lookup_insert_eq. eauto.
    + rewrite list_lookup_insert_ne by done. intros Hp.
      destruct (Hdone k p) as [Hres Hin]; [lia|done|]. split; [by apply Hmono|].
      destruct Hm as [[-> ?]| ->]; [done|].
      destruct (decide (Port servicePort = Port p)) as [->|Hne'].
      * rewrite lookup_insert_eq. eauto.
      * by rewrite lookup_insert_ne.
  - intros port w Hw. destruct Hm as [[-> ?]| ->]; [by apply Hmono, (Hmap port)|].
    destruct (decide (Port servicePort = port)) as [<-|Hne].
    + rewrite lookup_insert_eq in Hw. by injection Hw as <-.
    + rewrite lookup_insert_ne in Hw by done. by apply Hmono, (Hmap port).
Qed.

Lemma reserved_nonzero op v :
  0 < Base (pa op) → Base (pa op) + Size (pa op) ≤ 2^31 →
  reserved op v → v ≠ 0 ∧ int32 v = v.
Proof. intros Hbase Hsize (_ & Hrange & _). by eapply int32_inRange. Qed.

Lemma initNodePortsFrom_allocates requested :
  ∀ n i ports m op ports' op',
    (i + n)%nat = length requested →
    allocatedSoFar requested i ports m op →
    0 < Base (pa op) → Base (pa op) + Size (pa op) ≤ 2^31 →
    initNodePortsFrom n i ports m op = (ports', op', None) →
    (∃ m', allocatedSoFar requested (length requested) ports' m' op')
    ∧ Base (pa op') = Base (pa op) ∧ Size (pa op') = Size (pa op).
Proof.
  induction n as [|n IH]; intros i ports m op ports' op' Hin Hinv Hbase Hsize; simpl.
  - intros [= <- <-]. split; [|done]. exists m.
    by replace (length requested) with i by lia.
  - pose proof Hinv as (Hlen & Hsame & Hrest & Hdone & Hmap).
    destruct (ports !! i) as [servicePort|] eqn:Hi.
    2:{ apply lookup_ge_None in Hi. lia. }
    destruct (m !! Port servicePort) as [v|] eqn:Hm; simpl.
    + pose proof (Hmap _ _ Hm) as Hres.
      destruct (reserved_nonzero op v Hbase Hsize Hres) as [Hv Hint].
      rewrite (proj2 (Z.eqb_neq v 0) Hv).
      destruct (Z.eqb_spec (NodePort servicePort) v) as [Heq|Hne]; simpl.
      * apply IH; [lia| |done|done].
        assert (<[i := setNodePort servicePort v]> ports = ports) as Hsame'
            by (rewrite <- Heq, setNodePort_same; by apply list_insert_id).
        rewrite <- Hsame'.
        apply (allocatedSoFar_step requested i ports m m op op servicePort v);
          [exact Hinv|exact Hi|auto|exact Hres|auto|left; rewrite Hm; eauto].
      * destruct (Z.eqb_spec (NodePort servicePort) 0) as [Hzero|Hnonzero].
        -- apply IH; [lia| |done|done]. rewrite Hint.
           apply (allocatedSoFar_step requested i ports m m op op servicePort v);
             [exact Hinv|exact Hi|auto|exact Hres|congruence
             |left; rewrite Hm; eauto].
        -- destruct (Allocate op (NodePort servicePort)) as [e|op1] eqn:Halloc;
             [discriminate|].
           pose proof (Allocate_inRange _ _ _ Halloc) as (_ & Hb & Hs).
           apply Allocate_reserved in Halloc as (_ & Hres1 & Hmono).
           intros Hrun. apply IH in Hrun as (Hfinal & Hb' & Hs');
             [|lia| |by rewrite Hb|by rewrite Hb, Hs].
           { split; [done|]. split; congruence. }
           assert (<[i := setNodePort servicePort (NodePort servicePort)]> ports
                   = ports) as Hsame'
               by (rewrite setNodePort_same; by apply list_insert_id).
           rewrite <- Hsame'.
           apply (allocatedSoFar_step requested i ports m m op op1 servicePort _);
             [exact Hinv|exact Hi|exact Hmono|exact Hres1|auto
             |left; rewrite Hm; eauto].
    + destruct (Z.eqb_spec (findRequestedNodePort (Port servicePort) ports) 0)
        as [Hnone|Hfound]; simpl.
      * destruct (AllocateNext op) as [e|[nodePort op1]] eqn:Halloc; [discriminate|].
        pose proof (AllocateNext_inRange _ _ _ Halloc) as (Hrange & Hb & Hs).
        apply AllocateNext_reserved in Halloc as (_ & Hres & Hmono).
        destruct (int32_inRange _ _ Hbase Hsize Hrange) as [Hnz Hint].
        intros Hrun. apply IH in Hrun as (Hfinal & Hb' & Hs');
          [|lia| |by rewrite Hb|by rewrite Hb, Hs].
        { split; [done|]. split; congruence. }
        rewrite Hint.
        apply (allocatedSoFar_step requested i ports m _ op op1 servicePort nodePort);
          [exact Hinv|exact Hi|exact Hmono|exact Hres| |by right].
        intros Hn. exfalso. apply Hn.
        by apply (findRequestedNodePort_none _ _ Hnone i).
      * destruct (Allocate op _) as [e|op1] eqn:Halloc; [discriminate|].
        pose proof (Allocate_inRange _ _ _ Halloc) as (Hrange & Hb & Hs).
        apply Allocate_reserved in Halloc as (_ & Hres & Hmono).
        destruct (int32_inRange _ _ Hbase Hsize Hrange) as [Hnz Hint].
        intros Hrun. apply IH in Hrun as (Hfinal & Hb' & Hs');
          [|lia| |by rewrite Hb|by rewrite Hb, Hs].
        { split; [done|]. split; congruence. }
        rewrite Hint.
        apply (allocatedSoFar_step requested i ports m _ op op1 servicePort _);
          [exact Hinv|exact Hi|exact Hmono|exact Hres| |by right].
        intros Hn. apply (findRequestedNodePort_own ports i); [done|done|].
        intros k p Hk Hp Heq. destruct (Hdone k p Hk Hp) as [_ [w Hw]]. congruence.
Qed.

(** X7: after [initNodePorts] has returned success on a node-port range
    within 1 .. 2^31, every entry of the Service's [Ports] carries a node
    port other than 0 that lies in the range and that the operation has
    staged, and that, outside a dry run, the allocator has reserved. *)
Theorem initNodePorts_reserves_every_node_port service nodePortOp service'
  nodePortOp' :
  0 < Base (pa nodePortOp) →
  Base (pa nodePortOp) + Size (pa nodePortOp) ≤ 2^31 →
  initNodePorts service nodePortOp = (service', nodePortOp', None) →
  ∀ p, p ∈ Ports (Spec service') →
       NodePort p ≠ 0
       ∧ inRange (pa nodePortOp') (NodePort p) = true
       ∧ NodePort p ∈ allocated nodePortOp'
       ∧ (dryRun nodePortOp' = false → NodePort p ∈ Used (pa nodePortOp')).
Proof.
  intros Hbase Hsize. unfold initNodePorts.
  destruct (initNodePortsFrom _ _ _ _ _) as [[ports op] err] eqn:Hrun.
  intros [= <- <- ->]. simpl.
  apply (initNodePortsFrom_allocates (Ports (Spec service))) in Hrun
    as ((m & Hlen & _ & _ & Hdone & _) & Hb & Hs);
    [|done|apply allocatedSoFar_start|done|done].
  intros p Hp. apply list_elem_of_lookup in Hp as [k Hk].
  destruct (Hdone k p) as [Hres _]; [|done|].
  { rewrite <- Hlen. by eapply lookup_lt_Some. }
  destruct (reserved_nonzero op (NodePort p)) as [Hnz _];
    [by rewrite Hb|by rewrite Hb, Hs|done|].
  destruct Hres as (? & ? & ?). done.
Qed.

(** X8: [initNodePorts], when it succeeds on a node-port range within
    1 .. 2^31, keeps the number and the order of the entries, changes nothing
    of an entry but its [NodePort], and leaves the [NodePort] of every entry
    that names one as it is. *)
Theorem initNodePorts_keeps_named_node_ports service nodePortOp service'
  nodePortOp' :
  0 < Base (pa nodePortOp) →
  Base (pa nodePortOp) + Size (pa nodePortOp) ≤ 2^31 →
  initNodePorts service nodePortOp = (service', nodePortOp', None) →
  length (Ports (Spec service')) = length (Ports (Spec service))
  ∧ ∀ k p0, Ports (Spec service) !! k = Some p0 →
            ∃ p, Ports (Spec service') !! k = Some p
                 ∧ PortName p = PortName p0 ∧ Protocol p = Protocol p0
                 ∧ Port p = Port p0 ∧ TargetPort p = TargetPort p0
                 ∧ (NodePort p0 ≠ 0 → NodePort p = NodePort p0).
Proof.
  intros Hbase Hsize. unfold initNodePorts.
  destruct (initNodePortsFrom _ _ _ _ _) as [[ports op] err] eqn:Hrun.
  intros [= <- <- ->]. simpl.
  apply (initNodePortsFrom_allocates (Ports (Spec service))) in Hrun
    as ((m & Hlen & Hsame & _) & _);
    [|done|apply allocatedSoFar_start|done|done].
  split; [done|]. intros k p0 Hk.
  destruct (Hsame k p0 Hk) as (p & Hp & (? & ? & ? & ?) & Hn). by exists p.
Qed.

End NodePortFacts.

Section ClusterIPFacts.

Import Storage portallocator AsSpecified.

Context {IP A : Type} `{!NetLib IP} `{!ipallocator.Interface IP A}.

Implicit Types (rs : REST A) (service : Service).

(** The loop that collects [toAlloc] pads [ClusterIPs] with markers up to
    the number of families and pairs each family with the entry at its
    index. *)
Lemma markClusterIPs_pairs families :
  ∀ i clusterIPs toAlloc clusterIPs' toAlloc',
    NoDup families →
    (i ≤ length clusterIPs)%nat →
    markClusterIPs i families clusterIPs toAlloc = Returns (clusterIPs', toAlloc') →
    clusterIPs'
    = (clusterIPs ++ replicate (i + length families - length clusterIPs) "")%list
    ∧ (∀ k family, families !! k = Some family →
                   is_Some (clusterIPs' !! (i + k)%nat)
                   ∧ toAlloc' !! family = clusterIPs' !! (i + k)%nat)
    ∧ (∀ family, family ∉ families → toAlloc' !! family = toAlloc !! family).
Proof.
  induction families as [|f families IH];
    intros i clusterIPs toAlloc clusterIPs' toAlloc' Hnodup Hi; simpl.
  - intros [= <- <-]. replace (i + 0 - length clusterIPs)%nat with 0%nat by lia.
    simpl. rewrite app_nil_r. split; [done|]. split; [|done].
    intros k family Hk. by rewrite lookup_nil in Hk.
  - apply NoDup_cons in Hnodup as [Hnotin Hnodup].
    rewrite index_beyond_length.
    set (clusterIPs1 := if (length clusterIPs <=? i)%nat
                        then (clusterIPs ++ [""])%list else clusterIPs).
    assert (i < length clusterIPs1)%nat as Hlt.
    { subst clusterIPs1. destruct (Nat.leb_spec (length clusterIPs) i); [|done].
      rewrite length_app. simpl. lia. }
    destruct (lookup_lt_is_Some_2 _ _ Hlt) as [ip Hip]. rewrite Hip.
    intros Hrun. apply IH in Hrun as (-> & Hpairs & Hother); [|done|lia].
    assert ((clusterIPs1
             ++ replicate (S i + length families - length clusterIPs1) "")%list
            = (clusterIPs
               ++ replicate (i + S (length families) - length clusterIPs) "")%list)
      as Hpad.
    { subst clusterIPs1. destruct (Nat.leb_spec (length clusterIPs) i).
      - rewrite length_app. simpl. rewrite <- app_assoc. f_equal.
        replace (i + S (length families) - length clusterIPs)%nat
          with (S (S i + length families - (length clusterIPs + 1))) by lia.
        done.
      - f_equal. f_equal. lia. }
    rewrite <- Hpad. split; [done|]. split.
    + intros k family Hk. destruct k as [|k]; simpl in Hk.
      * injection Hk as <-. rewrite Nat.add_0_r.
        rewrite (Hother f Hnotin), lookup_insert_eq.
        rewrite lookup_app_l by done. rewrite Hip. eauto.
      * replace (i + S k)%nat with (S i + k)%nat by lia. by apply Hpairs.
    + intros family Hfam. apply not_elem_of_cons in Hfam as [Hne Hfam].
      rewrite (Hother _ Hfam). by rewrite lookup_insert_ne.
Qed.

(** What a successful allocation loop hands back: an address for each
    entry, the named one where the entry names one. *)
Lemma allocClusterIPsRange_allocated toAlloc :
  ∀ rs allocated rs' allocated',
    NoDup toAlloc.*1 →
    allocClusterIPsRange rs toAlloc allocated = (rs', Returns (allocated', None)) →
    (∀ family ip, (family, ip) ∈ toAlloc →
       ∃ ip', allocated' !! family = Some ip' ∧ (ip ≠ "" → ip' = ip))
    ∧ (∀ family, family ∉ toAlloc.*1 → allocated' !! family = allocated !! family).
Proof.
  induction toAlloc as [|[f ip0] toAlloc IH]; intros rs allocated rs' allocated' Hnodup;
    simpl.
  - intros [= _ <-]. split; [|done]. intros family ip Hin. by apply elem_of_nil in Hin.
  - apply NoDup_cons in Hnodup as [Hnotin Hnodup].
    destruct (serviceIPAllocatorsByFamily rs !! f) as [allocator|]; [|discriminate].
    assert (∀ rs1 ip1,
              (ip0 ≠ "" → ip1 = ip0) →
              allocClusterIPsRange rs1 toAlloc (<[f := ip1]> allocated)
              = (rs', Returns (allocated', None)) →
              (∀ family ip, (family, ip) ∈ (f, ip0) :: toAlloc →
                 ∃ ip', allocated' !! family = Some ip' ∧ (ip ≠ "" → ip' = ip))
              ∧ (∀ family, family ∉ f :: toAlloc.*1 →
                           allocated' !! family = allocated !! family)) as Hstep.
    { intros rs1 ip1 Hnamed Hrun. apply IH in Hrun as [Hin Hout]; [|done]. split.
      - intros family ip Hmem. apply elem_of_cons in Hmem as [[= -> ->]|Hmem].
        + exists ip1. split; [|done]. rewrite (Hout f Hnotin). apply lookup_insert_eq.
        + by apply Hin.
      - intros family Hfam. apply not_elem_of_cons in Hfam as [Hne Hfam].
        rewrite (Hout _ Hfam). by rewrite lookup_insert_ne. }
    case_bool_decide as Hempty.
    + destruct (ipallocator.AllocateNext allocator) as [e|[allocatedIP allocator']];
        [discriminate|]. apply Hstep. congruence.
    + destruct (ipallocator.Allocate allocator (ParseIP ip0)) as [e|allocator'];
        [discriminate|]. by apply Hstep.
Qed.

Lemma setClusterIPsOfFamily_lookup family ip families :
  ∀ i clusterIPs,
    length (setClusterIPsOfFamily family ip i families clusterIPs) = length clusterIPs
    ∧ ∀ k,
        setClusterIPsOfFamily family ip i families clusterIPs !! k
        = if bool_decide ((i ≤ k)%nat ∧ families !! (k - i)%nat = Some family
                          ∧ (k < length clusterIPs)%nat)
          then Some ip else clusterIPs !! k.
Proof.
  induction families as [|check families IH]; intros i clusterIPs; simpl.
  - split; [done|]. intros k. rewrite bool_decide_eq_false_2; [done|].
    intros (_ & Hk & _). by rewrite lookup_nil in Hk.
  - set (clusterIPs1 := if bool_decide (family = check)
                        then <[i := ip]> clusterIPs else clusterIPs).
    assert (length clusterIPs1 = length clusterIPs) as Hlen
        by (subst clusterIPs1; case_bool_decide; [apply length_insert|done]).
    destruct (IH (S i) clusterIPs1) as [Hl Hk]. split; [congruence|].
    intros k. rewrite Hk, Hlen.
    destruct (decide (k = i)) as [->|Hne].
    + rewrite bool_decide_eq_false_2 by lia. rewrite Nat.sub_diag. simpl.
      subst clusterIPs1. case_bool_decide as Hfam.
      * subst check. destruct (decide (i < length clusterIPs)%nat) as [Hlt|Hge].
        -- rewrite list_lookup_insert_eq by done.
           by rewrite bool_decide_eq_true_2.
        -- rewrite list_insert_ge by lia.
           rewrite bool_decide_eq_false_2; [done|]. intros (_ & _ & ?). lia.
      * rewrite bool_decide_eq_false_2; [done|]. intros (_ & [= ?] & _). done.
    + assert (clusterIPs1 !! k = clusterIPs !! k) as ->.
      { subst clusterIPs1. case_bool_decide; [|done].
        by rewrite list_lookup_insert_ne. }
      destruct (decide (i ≤ k)%nat) as [Hle|Hgt].
      * replace (k - i)%nat with (S (k - S i)) by lia. simpl.
        rewrite (bool_decide_ext (_ ∧ _ ∧ _)
                   ((i ≤ k)%nat ∧ families !! (k - S i)%nat = Some family
                    ∧ (k < length clusterIPs)%nat)); [done|].
        intuition lia.
      * rewrite !bool_decide_eq_false_2; [done| |]; intros (? & _); lia.
Qed.

Lemma setAllocatedClusterIPs_lookup families allocated :
  ∀ clusterIPs,
    NoDup allocated.*1 →
    length (setAllocatedClusterIPs allocated families clusterIPs) = length clusterIPs
    ∧ ∀ k,
        setAllocatedClusterIPs allocated families clusterIPs !! k
        = match families !! k with
          | Some family =>
              match list_to_map (M := gmap IPFamily string) allocated !! family with
              | Some ip => if bool_decide (k < length clusterIPs)%nat
                           then Some ip else None
              | None => clusterIPs !! k
              end
          | None => clusterIPs !! k
          end.
Proof.
  unfold setAllocatedClusterIPs.
  induction allocated as [|[f ip] allocated IH]; intros clusterIPs Hnodup; simpl.
  - split; [done|]. intros k. destruct (families !! k); [|done].
    by rewrite lookup_empty.
  - apply NoDup_cons in Hnodup as [Hnotin Hnodup].
    destruct (setClusterIPsOfFamily_lookup f ip families 0 clusterIPs) as [Hl1 Hk1].
    destruct (IH (setClusterIPsOfFamily f ip 0 families clusterIPs) Hnodup)
      as [Hl Hk].
    split; [congruence|]. intros k. rewrite Hk, Hl1, Hk1, Nat.sub_0_r.
    destruct (families !! k) as [family|] eqn:Hfam.
    + destruct (decide (f = family)) as [<-|Hne].
      * rewrite lookup_insert_eq.
        rewrite (not_elem_of_list_to_map_1 (M := gmap IPFamily)) by done.
        destruct (decide (k < length clusterIPs)%nat) as [Hlt|Hge].
        -- rewrite !bool_decide_eq_true_2; [done|done|]. split; [lia|done].
        -- rewrite !bool_decide_eq_false_2; [|done|by intros (_ & _ & ?)].
           apply lookup_ge_None. lia.
      * rewrite lookup_insert_ne by done.
        rewrite (bool_decide_eq_false_2 (_ ∧ _)); [done|].
        intros (_ & [= ?] & _). done.
    + rewrite bool_decide_eq_false_2; [done|]. intros (_ & [=] & _).
Qed.

Lemma list_to_map_rangeMap {V} ord (m : gmap IPFamily V) :
  list_to_map (rangeMap ord m) = m.
Proof.
  apply map_eq. intros family. apply option_eq. intros v.
  rewrite <- elem_of_list_to_map.
  - apply rangeMap_lookup.
  - apply rangeMap_NoDup.
Qed.

Lemma allocServiceClusterIPs_pairs ordAlloc ordSet rs service rs' service' bag :
  NoDup (IPFamilies (Spec service)) →
  allocServiceClusterIPs ordAlloc ordSet rs service
  = (rs', service', Returns (Some bag, None)) →
  service' = setClusterIPs service (ClusterIPs (Spec service'))
  ∧ length (ClusterIPs (Spec service'))
    = (length (ClusterIPs (Spec service))
       `max` length (IPFamilies (Spec service)))%nat
  ∧ (∀ k family, IPFamilies (Spec service) !! k = Some family →
       ∃ ip, ClusterIPs (Spec service') !! k = Some ip ∧ bag !! family = Some ip)
  ∧ (∀ family, is_Some (bag !! family) → family ∈ IPFamilies (Spec service))
  ∧ (∀ k ip, ClusterIPs (Spec service) !! k = Some ip → ip ≠ "" →
             ClusterIPs (Spec service') !! k = Some ip).
Proof.
  intros Hnodup. unfold allocServiceClusterIPs.
  destruct (bool_decide _); [discriminate|].
  destruct (_ && _); [discriminate|].
  destruct (markClusterIPs _ _ _ _) as [[clusterIPs1 toAlloc]|] eqn:Hmark;
    [|discriminate].
  apply markClusterIPs_pairs in Hmark as (Hpad & Hpairs & Hother); [|done|lia].
  simpl in Hpad, Hpairs.
  destruct (allocClusterIPs ordAlloc rs toAlloc) as [rs1 [[allocated [e|]]|]] eqn:Halloc;
    [discriminate| |discriminate].
  intros [= <- <- <-]. unfold allocClusterIPs in Halloc.
  apply allocClusterIPsRange_allocated in Halloc as [Hin Hout];
    [|apply rangeMap_NoDup].
  destruct (setAllocatedClusterIPs_lookup (IPFamilies (Spec service))
              (rangeMap ordSet allocated) clusterIPs1 (rangeMap_NoDup _ _))
    as [Hlen Hlook].
  rewrite list_to_map_rangeMap in Hlook.
  assert (∀ family ip, toAlloc !! family = Some ip →
            ∃ ip', allocated !! family = Some ip' ∧ (ip ≠ "" → ip' = ip)) as Hin'
      by (intros family ip Hl; apply (Hin family ip); by apply rangeMap_lookup).
  assert (length clusterIPs1
          = (length (ClusterIPs (Spec service))
             `max` length (IPFamilies (Spec service)))%nat) as Hlen1
      by (rewrite Hpad, length_app, length_replicate; lia).
  destruct service as [m sp st]. destruct sp as [ty ps sel ips fams pol etp hc sa tk].
  simpl in *. split; [done|]. split; [congruence|]. split; [|split].
  - intros k family Hk. destruct (Hpairs k family Hk) as [[ip Hip] Hto].
    rewrite Hip in Hto. destruct (Hin' _ _ Hto) as (ip' & Hip' & _).
    exists ip'. split; [|done]. rewrite Hlook, Hk, Hip'.
    rewrite bool_decide_eq_true_2; [done|]. by eapply lookup_lt_Some.
  - intros family [ip Hip]. destruct (decide (family ∈ fams)) as [|Hnotin]; [done|].
    exfalso. rewrite Hout, lookup_empty in Hip; [done|].
    intros Hmem. apply list_elem_of_fmap in Hmem as ([f x] & -> & Hmem).
    apply rangeMap_lookup in Hmem. simpl in Hnotin.
    rewrite (Hother _ Hnotin), lookup_empty in Hmem. done.
  - intros k ip Hk Hne.
    assert (clusterIPs1 !! k = Some ip) as Hk1
        by (rewrite Hpad; by apply lookup_app_l_Some).
    rewrite Hlook. destruct (fams !! k) as [family|] eqn:Hfam; [|done].
    destruct (Hpairs k family Hfam) as [_ Hto]. rewrite Hk1 in Hto.
    destruct (Hin' _ _ Hto) as (ip' & -> & Hnamed).
    rewrite bool_decide_eq_true_2 by (by eapply lookup_lt_Some).
    by rewrite Hnamed.
Qed.

(** X9: when [allocServiceClusterIPs] has allocated for a Service whose
    families are distinct, the Service differs from the given one in its
    [ClusterIPs] only; these have been padded to the number of families; the
    entry at the index of each family is the address now held for that
    family in the bag of allocated addresses, which has no other family; and
    a cluster IP the Service named is still in its place. *)
Theorem allocServiceClusterIPs_pairs_families ordAlloc ordSet rs service
  rs' service' bag :
  NoDup (IPFamilies (Spec service)) →
  allocServiceClusterIPs ordAlloc ordSet rs service
  = (rs', service', Returns (Some bag, None)) →
  service' = setClusterIPs service (ClusterIPs (Spec service'))
  ∧ length (ClusterIPs (Spec service'))
    = (length (ClusterIPs (Spec service))
       `max` length (IPFamilies (Spec service)))%nat
  ∧ (∀ k family, IPFamilies (Spec service) !! k = Some family →
       ∃ ip, ClusterIPs (Spec service') !! k = Some ip ∧ bag !! family = Some ip)
  ∧ (∀ family, is_Some (bag !! family) → family ∈ IPFamilies (Spec service))
  ∧ (∀ k ip, ClusterIPs (Spec service) !! k = Some ip → ip ≠ "" →
             ClusterIPs (Spec service') !! k = Some ip).
Proof. apply allocServiceClusterIPs_pairs. Qed.

End ClusterIPFacts.

Section UpdateNodePortFacts.

Import Storage portallocator AsSpecified.

Lemma containsNumber_spec haystack needle :
  containsNumber haystack needle = true ↔ needle ∈ haystack.
Proof.
  induction haystack as [|v haystack IH]; simpl.
  - split; [discriminate|]. intros Hin. by apply elem_of_nil in Hin.
  - destruct (Z.eqb_spec v needle) as [->|Hne].
    + split; [intros _; left|done].
    + rewrite IH. split; [by right|].
      intros Hin. apply elem_of_cons in Hin as [->|Hin]; done.
Qed.

Lemma containsNodePort_spec serviceNodePorts serviceNodePort :
  containsNodePort serviceNodePorts serviceNodePort = true
  ↔ serviceNodePort ∈ serviceNodePorts.
Proof.
  induction serviceNodePorts as [|snp serviceNodePorts IH]; simpl.
  - split; [discriminate|]. intros Hin. by apply elem_of_nil in Hin.
  - case_bool_decide as Heq.
    + subst. split; [intros _; left|done].
    + rewrite IH. split; [by right|].
      intros Hin. apply elem_of_cons in Hin as [->|Hin]; done.
Qed.

(** [collectServiceNodePorts]: the node ports other than 0, in the order of
    the entries. *)
Lemma collectNodePorts_filter ports :
  collectNodePorts ports = filter (λ n, n ≠ 0) (map NodePort ports).
Proof.
  induction ports as [|p ports IH]; simpl; [done|].
  rewrite filter_cons. destruct (Z.eqb_spec (NodePort p) 0) as [Hz|Hnz]; simpl.
  - by rewrite decide_False by (intros ?; done).
  - rewrite decide_True by done. by rewrite IH.
Qed.

Lemma stage_releaseDeferred op port : releaseDeferred (stage op port) = releaseDeferred op.
Proof. done. Qed.

Lemma Allocate_releaseDeferred op port op' :
  Allocate op port = inr op' → releaseDeferred op' = releaseDeferred op.
Proof.
  unfold Allocate. destruct (negb _); [discriminate|].
  case_bool_decide; [discriminate|]. by intros [= <-].
Qed.

Lemma AllocateNext_releaseDeferred op port op' :
  AllocateNext op = inr (port, op') → releaseDeferred op' = releaseDeferred op.
Proof.
  unfold AllocateNext. destruct (Next _ _); [|discriminate].
  destruct (isFree _ _ _); [|discriminate]. by intros [= _ <-].
Qed.

Lemma updatedSoFar_start requested op : updatedSoFar requested 0 requested [] op op.
Proof.
  split; [done|]. split; [done|]. split; [constructor|]. split.
  { intros k p0 Hk. exists p0. repeat split; try done. lia. }
  done.
Qed.

Lemma take_S_insert {X} (l : list X) i x :
  (i < length l)%nat → take (S i) (<[i := x]> l) = (take i l ++ [x])%list.
Proof.
  intros Hlt. rewrite (take_S_r _ _ x) by (by apply list_lookup_insert_eq).
  by rewrite take_insert_ge by lia.
Qed.

Lemma updateNodePortsFrom_success olds requested op0 :
  ∀ n i ports news allocatedPorts op ports' op',
    (i + n)%nat = length requested →
    updatedSoFar requested i ports news op0 op →
    updateNodePortsFrom olds n i ports news allocatedPorts op = (ports', op', None) →
    ∃ news', updatedSoFar requested (length requested) ports' news' op0 op'.
Proof.
  induction n as [|n IH]; intros i ports news allocatedPorts op ports' op' Hin Hinv;
    simpl.
  - intros [= <- <-]. exists news. by replace (length requested) with i by lia.
  - pose proof Hinv as (Hlen & Hnews & Hnodup & Hsame & Hrest & Hdeferred & Hmono
                        & Hbase & Hsize).
    destruct (ports !! i) as [servicePort|] eqn:Hi.
    2:{ apply lookup_ge_None in Hi. lia. }
    assert (i < length ports)%nat as Hlt by (by eapply lookup_lt_Some).
    assert (requested !! i = Some servicePort) as Hreq by (by rewrite <- Hrest).
    (* the invariant after a turn that leaves the entry as it is *)
    assert (∀ op1,
              NodePort servicePort ≠ 0 →
              releaseDeferred op1 = releaseDeferred op →
              (∀ v, reserved op v → reserved op1 v) →
              Base (pa op1) = Base (pa op) ∧ Size (pa op1) = Size (pa op) →
              nodePortOf servicePort ∉ news →
              updatedSoFar requested (S i) ports (news ++ [nodePortOf servicePort])
                op0 op1) as Hkeep.
    { intros op1 Hnz Hd Hm [Hb1 Hs1] Hfresh. split; [done|]. split.
      { rewrite (take_S_r _ _ servicePort) by done. rewrite map_app. by rewrite Hnews. }
      split.
      { apply NoDup_app. split; [done|]. split; [|apply NoDup_singleton].
        intros x Hx Hx'. apply list_elem_of_singleton in Hx'. by subst. }
      split.
      { intros k p0 Hk. destruct (Hsame k p0 Hk) as (p & Hp & Hs & Hn & Hz).
        exists p. split; [done|]. split; [done|]. split; [done|]. intros Hzero Hki.
        destruct (decide (k = i)) as [->|Hne]; [congruence|].
        destruct Hz as (v & Hv & Hpv); [done|lia|]. exists v. auto. }
      split; [intros k Hk; apply Hrest; lia|].
      split; [congruence|]. split; [auto|]. split; congruence. }
    destruct (Z.eqb_spec (NodePort servicePort) 0) as [Hzero|Hnonzero]; simpl.
    + destruct (AllocateNext op) as [e|[nodePort op1]] eqn:Halloc; [discriminate|].
      pose proof (AllocateNext_releaseDeferred _ _ _ Halloc) as Hd.
      pose proof (AllocateNext_inRange _ _ _ Halloc) as (_ & Hb & Hs).
      apply AllocateNext_reserved in Halloc as (Hrange & Hres & Hmono1).
      destruct (containsNodePort news _) eqn:Hdup; [discriminate|].
      apply IH; [lia|].
      assert (mkServiceNodePort (Protocol servicePort) (int32 nodePort) ∉ news)
        as Hfresh.
      { intros Hmem. apply containsNodePort_spec in Hmem. simpl in Hdup. congruence. }
      split; [by rewrite length_insert|]. split.
      { rewrite take_S_insert by done. rewrite map_app. by rewrite Hnews. }
      split.
      { apply NoDup_app. split; [done|]. split; [|apply NoDup_singleton].
        intros x Hx Hx'. apply list_elem_of_singleton in Hx'. by subst. }
      split.
      { intros k p0 Hk. destruct (decide (k = i)) as [->|Hne].
        - rewrite list_lookup_insert_eq by done. eexists. split; [done|].
          assert (p0 = servicePort) as -> by congruence.
          split; [by repeat split|]. split; [done|]. intros _ _. simpl.
          by exists nodePort.
        - rewrite list_lookup_insert_ne by done.
          destruct (Hsame k p0 Hk) as (p & Hp & Hsb & Hn & Hz).
          exists p. split; [done|]. split; [done|]. split; [done|]. intros Hz0 Hki.
          destruct Hz as (v & Hv & Hpv); [done|lia|]. exists v. auto. }
      split; [intros k Hk; rewrite list_lookup_insert_ne by lia; apply Hrest; lia|].
      split; [congruence|]. split; [intros v Hv; by apply Hmono1, Hmono|].
      split; congruence.
    + destruct (negb (containsNumber olds (NodePort servicePort))
                && negb (default false (allocatedPorts !! NodePort servicePort))).
      * destruct (Allocate op (NodePort servicePort)) as [e|op1] eqn:Halloc;
          [discriminate|].
        pose proof (Allocate_releaseDeferred _ _ _ Halloc) as Hd.
        pose proof (Allocate_inRange _ _ _ Halloc) as (_ & Hb & Hs).
        apply Allocate_reserved in Halloc as (_ & _ & Hmono1).
        destruct (containsNodePort news _) eqn:Hdup; [discriminate|].
        apply IH; [lia|]. apply Hkeep; auto.
        intros Hmem. apply containsNodePort_spec in Hmem. unfold nodePortOf in Hmem.
        congruence.
      * destruct (containsNodePort news _) eqn:Hdup; [discriminate|].
        apply IH; [lia|]. apply Hkeep; auto.
        intros Hmem. apply containsNodePort_spec in Hmem. unfold nodePortOf in Hmem.
        congruence.
Qed.

Lemma releaseDroppedNodePorts_filter olds news :
  ∀ op, releaseDroppedNodePorts olds news op
        = mkOp (pa op) (allocated op)
            (releaseDeferred op ++ filter (λ n, n ∉ news) olds)%list
            (shouldRollback op) (dryRun op).
Proof.
  unfold releaseDroppedNodePorts.
  induction olds as [|old olds IH]; intros op; simpl.
  - rewrite app_nil_r. by destruct op.
  - rewrite filter_cons. destruct (containsNumber news old) eqn:Hmem.
    + apply containsNumber_spec in Hmem. rewrite decide_False by (intros Hn; done).
      apply IH.
    + rewrite decide_True.
      2:{ intros Hin. apply containsNumber_spec in Hin. congruence. }
      rewrite IH. simpl. by rewrite <- app_assoc.
Qed.

(** What a successful [updateNodePorts] leaves behind. *)
Lemma updateNodePorts_success oldService newService nodePortOp
  newService' nodePortOp' :
  updateNodePorts oldService newService nodePortOp
  = (newService', nodePortOp', None) →
  ∃ news op1,
    updatedSoFar (Ports (Spec newService)) (length (Ports (Spec newService)))
      (Ports (Spec newService')) news nodePortOp op1
    ∧ nodePortOp'
      = mkOp (pa op1) (allocated op1)
          (releaseDeferred nodePortOp
           ++ filter (λ n, n ∉ collectServiceNodePorts newService')
                (collectServiceNodePorts oldService))%list
          (shouldRollback op1) (dryRun op1).
Proof.
  unfold updateNodePorts.
  destruct (updateNodePortsFrom _ _ _ _ _ _ _) as [[ports op1] [err|]] eqn:Hrun;
    [discriminate|].
  intros [= <- <-].
  apply (updateNodePortsFrom_success _ (Ports (Spec newService)) nodePortOp) in Hrun
    as [news Hinv]; [|done|apply updatedSoFar_start].
  exists news, op1. split; [done|].
  rewrite releaseDroppedNodePorts_filter.
  destruct Hinv as (_ & _ & _ & _ & _ & -> & _). done.
Qed.

(** X10: after [updateNodePorts] has returned success, the new Service has
    as many entries as before, each differing from the requested one in its
    [NodePort] at most and not at all if the request names a node port, and
    no two entries have the same protocol and the same node port. *)
Theorem updateNodePorts_no_duplicates oldService newService nodePortOp
  newService' nodePortOp' :
  updateNodePorts oldService newService nodePortOp
  = (newService', nodePortOp', None) →
  length (Ports (Spec newService')) = length (Ports (Spec newService))
  ∧ (∀ k p0, Ports (Spec newService) !! k = Some p0 →
             ∃ p, Ports (Spec newService') !! k = Some p
                  ∧ PortName p = PortName p0 ∧ Protocol p = Protocol p0
                  ∧ Port p = Port p0 ∧ TargetPort p = TargetPort p0
                  ∧ (NodePort p0 ≠ 0 → NodePort p = NodePort p0))
  ∧ ∀ j k p q, Ports (Spec newService') !! j = Some p →
               Ports (Spec newService') !! k = Some q →
               Protocol p = Protocol q → NodePort p = NodePort q → j = k.
Proof.
  intros Hrun. apply updateNodePorts_success in Hrun
    as (news & op1 & (Hlen & Hnews & Hnodup & Hsame & _) & _).
  split; [done|]. split.
  - intros k p0 Hk. destruct (Hsame k p0 Hk) as (p & Hp & (? & ? & ? & ?) & Hn & _).
    by exists p.
  - intros j k p q Hj Hk Hproto Hport.
    rewrite <- Hlen, firstn_all in Hnews. subst news.
    apply (NoDup_lookup _ j k (nodePortOf p) Hnodup).
    + by rewrite list_lookup_fmap, Hj.
    + rewrite list_lookup_fmap, Hk. simpl. unfold nodePortOf. congruence.
Qed.

(** X11: [updateNodePorts] fails when two entries of the new Service name
    the same node port, other than 0, for the same protocol. *)
Theorem updateNodePorts_rejects_duplicates oldService newService nodePortOp j k p q :
  Ports (Spec newService) !! j = Some p →
  Ports (Spec newService) !! k = Some q →
  j ≠ k →
  Protocol p = Protocol q → NodePort p = NodePort q → NodePort p ≠ 0 →
  ∃ err, (updateNodePorts oldService newService nodePortOp).2 = Some err.
Proof.
  intros Hj Hk Hjk Hproto Hport Hnz.
  destruct (updateNodePorts oldService newService nodePortOp)
    as [[newService' nodePortOp'] [err|]] eqn:Hrun; [by exists err|].
  exfalso. apply updateNodePorts_success in Hrun
    as (news & op1 & (Hlen & Hnews & Hnodup & Hsame & _) & _).
  destruct (Hsame j p Hj) as (p' & Hp' & (_ & Hpp & _) & Hpn & _).
  destruct (Hsame k q Hk) as (q' & Hq' & (_ & Hqp & _) & Hqn & _).
  rewrite <- Hlen, firstn_all in Hnews. subst news.
  apply Hjk, (NoDup_lookup _ j k (nodePortOf p') Hnodup).
  - by rewrite list_lookup_fmap, Hp'.
  - rewrite list_lookup_fmap, Hq'. simpl. unfold nodePortOf.
    rewrite Hpp, Hpn, Hqp, Hqn by congruence. congruence.
Qed.

(** X12: on a node-port range within 1 .. 2^31, after [updateNodePorts] has
    returned success every entry of the new Service carries a node port
    other than 0, and an entry that named none carries one that lies in the
    range and that the operation has staged, and that, outside a dry run,
    the allocator has reserved. *)
Theorem updateNodePorts_fills_node_ports oldService newService nodePortOp
  newService' nodePortOp' :
  0 < Base (pa nodePortOp) →
  Base (pa nodePortOp) + Size (pa nodePortOp) ≤ 2^31 →
  updateNodePorts oldService newService nodePortOp
  = (newService', nodePortOp', None) →
  ∀ k p0 p, Ports (Spec newService) !! k = Some p0 →
            Ports (Spec newService') !! k = Some p →
            NodePort p ≠ 0
            ∧ (NodePort p0 = 0 →
               inRange (pa nodePortOp') (NodePort p) = true
               ∧ NodePort p ∈ allocated nodePortOp'
               ∧ (dryRun nodePortOp' = false → NodePort p ∈ Used (pa nodePortOp'))).
Proof.
  intros Hbase Hsize Hrun. apply updateNodePorts_success in Hrun
    as (news & op1 & (Hlen & _ & _ & Hsame & _ & _ & _ & Hb & Hs) & ->). simpl.
  intros k p0 p Hk Hp. destruct (Hsame k p0 Hk) as (p' & Hp' & _ & Hn & Hz).
  assert (p' = p) as -> by congruence.
  destruct (Z.eq_dec (NodePort p0) 0) as [Hzero|Hnz].
  - destruct Hz as (v & Hres & Hv); [done|by eapply lookup_lt_Some|].
    destruct (reserved_nonzero op1 v) as [Hvz Hint];
      [by rewrite Hb|by rewrite Hb, Hs|done|].
    rewrite Hv, Hint. split; [done|]. intros _. by destruct Hres as (? & ? & ?).
  - split; [by rewrite Hn|done].
Qed.

(** X13: once [updateNodePorts] has returned success on an operation with
    no release scheduled before, in a dry run or not, the releases it has
    scheduled are exactly the node ports the old Service carries and the new
    one does not; outside a dry run, committing the operation frees exactly
    those: after [Commit] a port is reserved exactly if it was reserved
    before the commit and is not such a dropped port. *)
Theorem updateNodePorts_commit_frees_dropped oldService newService nodePortOp
  newService' nodePortOp' :
  releaseDeferred nodePortOp = [] →
  updateNodePorts oldService newService nodePortOp
  = (newService', nodePortOp', None) →
  (∀ n, n ∈ releaseDeferred nodePortOp'
        ↔ n ∈ collectServiceNodePorts oldService
          ∧ n ∉ collectServiceNodePorts newService')
  ∧ (dryRun nodePortOp' = false →
     ∀ n, n ∈ Used (pa (Commit nodePortOp'))
          ↔ n ∈ Used (pa nodePortOp')
            ∧ ¬ (n ∈ collectServiceNodePorts oldService
                 ∧ n ∉ collectServiceNodePorts newService')).
Proof.
  intros Hnone Hrun. apply updateNodePorts_success in Hrun
    as (news & op1 & _ & ->). simpl in *. rewrite Hnone. simpl.
  assert (∀ n, n ∈ filter (λ n, n ∉ collectServiceNodePorts newService')
                     (collectServiceNodePorts oldService)
               ↔ n ∈ collectServiceNodePorts oldService
                 ∧ n ∉ collectServiceNodePorts newService') as Hfilter.
  { intros n. rewrite list_elem_of_filter. tauto. }
  split; [done|]. intros Hdry n. unfold Commit. simpl. rewrite Hdry.
  rewrite foldl_Release. simpl. rewrite elem_of_difference, elem_of_list_to_set.
  by rewrite Hfilter.
Qed.

(** The first loop on entries that all name a node port the old Service
    carries, no two alike: nothing is allocated and nothing changes. *)
Lemma updateNodePortsFrom_held olds op :
  ∀ n i ports news allocatedPorts,
    (i + n)%nat = length ports →
    (∀ p, p ∈ drop i ports → NodePort p ≠ 0 ∧ NodePort p ∈ olds) →
    NoDup (news ++ map nodePortOf (drop i ports)) →
    updateNodePortsFrom olds n i ports news allocatedPorts op = (ports, op, None).
Proof.
  induction n as [|n IH]; intros i ports news allocatedPorts Hin Hheld Hnodup;
    simpl; [done|].
  destruct (ports !! i) as [servicePort|] eqn:Hi; [|done].
  rewrite (drop_S _ _ _ Hi) in Hheld, Hnodup.
  destruct (Hheld servicePort) as [Hnz Hold]; [left|].
  rewrite (proj2 (Z.eqb_neq _ _) Hnz). simpl.
  rewrite (proj2 (containsNumber_spec _ _) Hold). simpl.
  destruct (containsNodePort news _) eqn:Hdup.
  { exfalso. apply containsNodePort_spec in Hdup.
    apply NoDup_app in Hnodup as (_ & Hdisjoint & _).
    apply (Hdisjoint _ Hdup). left. }
  apply IH; [lia| |].
  - intros p Hp. apply Hheld. by right.
  - by rewrite <- app_assoc.
Qed.

(** X14: an update whose entries all name a node port that the old Service
    carries, no two entries with the same protocol and node port, succeeds
    without allocating anything: the Service is returned as it is, the
    allocator and the staged allocations are untouched, and only the
    release of the old node ports that are no longer named is scheduled. *)
Theorem updateNodePorts_keeps_held_ports oldService newService nodePortOp :
  (∀ p, p ∈ Ports (Spec newService) →
        NodePort p ≠ 0 ∧ NodePort p ∈ collectServiceNodePorts oldService) →
  NoDup (map (λ p, (Protocol p, NodePort p)) (Ports (Spec newService))) →
  ∃ nodePortOp',
    updateNodePorts oldService newService nodePortOp = (newService, nodePortOp', None)
    ∧ pa nodePortOp' = pa nodePortOp
    ∧ allocated nodePortOp' = allocated nodePortOp
    ∧ releaseDeferred nodePortOp'
      = (releaseDeferred nodePortOp
         ++ filter (λ n, n ∉ collectServiceNodePorts newService)
              (collectServiceNodePorts oldService))%list.
Proof.
  intros Hheld Hnodup. unfold updateNodePorts.
  rewrite updateNodePortsFrom_held; [| done | done |].
  - assert (setPorts newService (Ports (Spec newService)) = newService) as ->
        by (by destruct newService as [? [] ?]).
    rewrite releaseDroppedNodePorts_filter. eexists. split; [done|]. done.
  - simpl. apply (NoDup_fmap_1 (λ snp, (nodePortProtocol snp, nodePortNumber snp))).
    by rewrite <- list_fmap_compose.
Qed.

End UpdateNodePortFacts.

Section HealthCheckFacts.

Import Storage portallocator AsSpecified.

(** X15: when an update makes the health check necessary,
    [healthCheckNodePortUpdate] on a node-port range within 1 .. 2^31 either
    fails with an Internal error, the Service as it was, or succeeds with a
    Service that differs in [HealthCheckNodePort] at most: the field is the
    requested port if the request names one, it is not 0, and the operation
    holds it. *)
Theorem healthCheckNodePortUpdate_becomes_needed oldService service nodePortOp
  service' nodePortOp' success err :
  0 < Base (pa nodePortOp) →
  Base (pa nodePortOp) + Size (pa nodePortOp) ≤ 2^31 →
  NeedsHealthCheck oldService = false →
  NeedsHealthCheck service = true →
  healthCheckNodePortUpdate oldService service nodePortOp
  = (service', nodePortOp', (success, err)) →
  (success = false ∧ (∃ cause, err = Some (ErrInternal cause))
   ∧ service' = service ∧ nodePortOp' = nodePortOp)
  ∨ (success = true ∧ err = None
     ∧ service' = setHealthCheckNodePort service (HealthCheckNodePort (Spec service'))
     ∧ HealthCheckNodePort (Spec service') ≠ 0
     ∧ (HealthCheckNodePort (Spec service) ≠ 0 →
        HealthCheckNodePort (Spec service') = HealthCheckNodePort (Spec service))
     ∧ reserved nodePortOp' (HealthCheckNodePort (Spec service'))).
Proof.
  intros Hbase Hsize Hold Hnew. unfold healthCheckNodePortUpdate.
  rewrite Hold, Hnew. simpl. unfold allocateHealthCheckNodePort.
  destruct (Z.eqb_spec (HealthCheckNodePort (Spec service)) 0) as [Hzero|Hnz]; simpl.
  - destruct (AllocateNext nodePortOp) as [e|[port op1]] eqn:Halloc.
    + intros [= <- <- <- <-]. left. eauto.
    + intros [= <- <- <- <-]. right.
      pose proof (AllocateNext_inRange _ _ _ Halloc) as (Hrange & _).
      apply AllocateNext_reserved in Halloc as (_ & Hres & _).
      destruct (int32_inRange _ _ Hbase Hsize Hrange) as [Hport Hint].
      simpl. rewrite Hint. split; [done|]. split; [done|]. split; [reflexivity|].
      split; [done|]. split; [intros Hn; by destruct Hn|done].
  - destruct (Allocate nodePortOp _) as [e|op1] eqn:Halloc.
    + intros [= <- <- <- <-]. left. eauto.
    + intros [= <- <- <- <-]. right.
      apply Allocate_reserved in Halloc as (_ & Hres & _).
      split; [done|]. split; [done|]. split; [|done].
      by destruct service as [? [] ?].
Qed.

(** X16: when an update makes the health check unnecessary,
    [healthCheckNodePortUpdate] succeeds, sets [HealthCheckNodePort] to 0
    and changes nothing else of the Service, leaves the allocator and the
    staged allocations as they are, and schedules the release of the old
    Service's health-check port: outside a dry run that port is free once
    the operation is committed, and still as it was if the operation is
    finished without commit. *)
Theorem healthCheckNodePortUpdate_no_longer_needed oldService service nodePortOp
  service' nodePortOp' result :
  NeedsHealthCheck oldService = true →
  NeedsHealthCheck service = false →
  healthCheckNodePortUpdate oldService service nodePortOp
  = (service', nodePortOp', result) →
  result = (true, None)
  ∧ service' = setHealthCheckNodePort service 0
  ∧ pa nodePortOp' = pa nodePortOp
  ∧ allocated nodePortOp' = allocated nodePortOp
  ∧ (dryRun nodePortOp = false →
     HealthCheckNodePort (Spec oldService) ∉ Used (pa (Commit nodePortOp')))
  ∧ (allocated nodePortOp = [] → pa (Finish nodePortOp') = pa nodePortOp).
Proof.
  intros Hold Hnew. unfold healthCheckNodePortUpdate. rewrite Hold, Hnew. simpl.
  intros [= <- <- <-]. repeat split.
  - intros Hdry. unfold Commit. simpl. rewrite Hdry, foldl_Release. simpl.
    set_solver.
  - intros Hnone. unfold Finish, Rollback. simpl. rewrite Hnone.
    by destruct (shouldRollback nodePortOp), (dryRun nodePortOp).
Qed.

End HealthCheckFacts.

(** * A failed Update *)

Section UpdateRollback.

Import Storage portallocator AsSpecified.

Context {IP A : Type} `{!NetLib IP} `{!ipallocator.Interface IP A}
        `{!ipallocator.Contract IP A}.

Implicit Types (rs : REST A) (service : Service).

(** ** The node-port operation stays uncommitted *)

Lemma ReleaseDeferred_stagedOn pa0 op port :
  stagedOn pa0 op → stagedOn pa0 (ReleaseDeferred op port).
Proof. done. Qed.

Lemma foldl_ReleaseDeferred_stagedOn pa0 ports :
  ∀ op, stagedOn pa0 op → stagedOn pa0 (foldl ReleaseDeferred op ports).
Proof.
  induction ports as [|port ports IH]; intros op Hst; simpl; [done|].
  by apply IH, ReleaseDeferred_stagedOn.
Qed.

Lemma updateNodePortsFrom_stagedOn pa0 olds :
  ∀ n i ports news allocatedPorts op ports' op' err,
    stagedOn pa0 op →
    updateNodePortsFrom olds n i ports news allocatedPorts op = (ports', op', err) →
    stagedOn pa0 op'.
Proof.
  induction n as [|n IH]; intros i ports news allocatedPorts op ports' op' err Hst;
    simpl; [by intros [= _ <- _]|].
  destruct (ports !! i) as [servicePort|]; [|by intros [= _ <- _]].
  destruct (negb (NodePort servicePort =? 0)); simpl.
  - destruct (negb (containsNumber olds (NodePort servicePort))
              && negb (default false (allocatedPorts !! NodePort servicePort))).
    + destruct (Allocate op (NodePort servicePort)) as [e|op1] eqn:Halloc;
        [by intros [= _ <- _]|].
      pose proof (Allocate_stagedOn _ _ _ _ Hst Halloc) as Hst1.
      destruct (containsNodePort news _); [by intros [= _ <- _]|]. by apply IH.
    + destruct (containsNodePort news _); [by intros [= _ <- _]|]. by apply IH.
  - destruct (AllocateNext op) as [e|[nodePort op1]] eqn:Halloc;
      [by intros [= _ <- _]|].
    pose proof (AllocateNext_stagedOn _ _ _ _ Hst Halloc) as Hst1.
    destruct (containsNodePort news _); [by intros [= _ <- _]|]. by apply IH.
Qed.

Lemma updateNodePorts_stagedOn pa0 oldService newService op newService' op' err :
  stagedOn pa0 op →
  updateNodePorts oldService newService op = (newService', op', err) →
  stagedOn pa0 op'.
Proof.
  intros Hst. unfold updateNodePorts.
  destruct (updateNodePortsFrom _ _ _ _ _ _ _) as [[ports op1] [e|]] eqn:Hrun;
    intros [= _ <- _];
    apply (updateNodePortsFrom_stagedOn pa0) in Hrun; try done.
  by rewrite releaseDroppedNodePorts_filter.
Qed.

Lemma healthCheckNodePortUpdate_stagedOn pa0 oldService service op service' op' r :
  stagedOn pa0 op →
  healthCheckNodePortUpdate oldService service op = (service', op', r) →
  stagedOn pa0 op'.
Proof.
  intros Hst. unfold healthCheckNodePortUpdate.
  destruct (negb (NeedsHealthCheck oldService) && NeedsHealthCheck service).
  { destruct (allocateHealthCheckNodePort service op) as [[service1 op1] e] eqn:Hhc.
    apply (allocateHealthCheckNodePort_stagedOn pa0) in Hhc; [|done].
    destruct e; by intros [= _ <- _]. }
  destruct (NeedsHealthCheck oldService && negb (NeedsHealthCheck service));
    [by intros [= _ <- _]|].
  destruct (NeedsHealthCheck oldService && NeedsHealthCheck service);
    [|by intros [= _ <- _]].
  destruct (negb _); by intros [= _ <- _].
Qed.

(** A failing [Update] leaves its node-port operation uncommitted and its
    two bags of cluster IPs in place. *)
Lemma updateWithNodePortOp_failure u pa0 oldService service op op' reset out
  created err :
  stagedOn pa0 op →
  updateWithNodePortOp u oldService service op
  = (op', reset, (out, created, Some err)) →
  stagedOn pa0 op' ∧ reset = false.
Proof.
  intros Hst. unfold updateWithNodePortOp.
  set (op0 := if _ && _ then releaseNodePorts oldService op else op).
  assert (stagedOn pa0 op0) as Hst0.
  { unfold op0. destruct (_ && _); [|done].
    by apply foldl_ReleaseDeferred_stagedOn. }
  clearbody op0.
  destruct (if bool_decide (Type_ (Spec service) = ServiceTypeNodePort)
               || bool_decide (Type_ (Spec service) = ServiceTypeLoadBalancer)
            then updateNodePorts oldService service op0 else (service, op0, None))
    as [[service1 op1] err1] eqn:Hupdate.
  assert (stagedOn pa0 op1) as Hst1.
  { destruct (bool_decide _ || bool_decide _).
    - by eapply updateNodePorts_stagedOn.
    - by injection Hupdate as _ <- _. }
  destruct err1 as [e|]; [by intros [= <- <- _ _ _]|].
  destruct (healthCheckNodePortUpdate oldService _ op1)
    as [[service2 op2] [success err2]] eqn:Hhc.
  apply (healthCheckNodePortUpdate_stagedOn pa0) in Hhc; [|done].
  destruct (negb success || bool_decide (err2 ≠ None)); [by intros [= <- <- _ _ _]|].
  destruct (ValidateServiceExternalTrafficFieldsCombination _ _);
    [by intros [= <- <- _ _ _]|].
  destruct (servicesUpdate u _) as [e|[out' created']];
    [by intros [= <- <- _ _ _]|discriminate].
Qed.

(** ** The cluster IPs are given back or taken back *)

Lemma allocClusterIPs_empty ord rs :
  allocClusterIPs ord rs ∅ = (rs, Returns (∅, None)).
Proof. unfold allocClusterIPs, rangeMap. by destruct ord. Qed.

Lemma releaseClusterIPsRange_reallocatable before toRelease :
  ∀ rs released rs' released' err,
    NoDup toRelease.*1 →
    (∀ family, family ∈ toRelease.*1 → released !! family = None) →
    (∀ family ip, (family, ip) ∈ toRelease →
       ip ≠ "" ∧ ∀ a, before !! family = Some a →
                      ∃ a0, ipallocator.Allocate a0 (ParseIP ip) = inr a) →
    reallocatable before (serviceIPAllocatorsByFamily rs) released →
    releaseClusterIPsRange rs toRelease released = (rs', (released', err)) →
    ∃ m, released' = Some m
         ∧ reallocatable before (serviceIPAllocatorsByFamily rs') m
         ∧ defaultServiceIPFamily rs' = defaultServiceIPFamily rs
         ∧ serviceNodePorts rs' = serviceNodePorts rs.
Proof.
  induction toRelease as [|[family ip] toRelease IH];
    intros rs released rs' released' err Hnodup Hfresh Hheld Hrel; simpl.
  - intros [= <- <- _]. by exists released.
  - apply NoDup_cons in Hnodup as [Hnotin Hnodup].
    assert (serviceIPAllocatorsByFamily rs !! family = before !! family) as Hsame.
    { specialize (Hrel family). by rewrite (Hfresh family) in Hrel by (simpl; left). }
    destruct (serviceIPAllocatorsByFamily rs !! family) as [allocator|] eqn:Hf.
    + destruct (Hheld family ip) as [Hip Hallocated]; [left|].
      destruct (Hallocated allocator) as [a0 Ha0]; [done|].
      rewrite (ipallocator.Release_Allocate _ _ _ Ha0).
      intros Hrun. eapply IH in Hrun; [exact Hrun|done| | |].
      * intros f Hin. rewrite lookup_insert_ne by (intros ->; done).
        apply Hfresh. simpl. by right.
      * intros f ip' Hin. apply Hheld. by right.
      * intros g. simpl. destruct (decide (family = g)) as [<-|Hne].
        -- rewrite !lookup_insert_eq. split; [done|]. eauto.
        -- rewrite !lookup_insert_ne by done. apply Hrel.
    + intros Hrun. eapply IH in Hrun; [exact Hrun|done| | |done].
      * intros f Hin. apply Hfresh. simpl. by right.
      * intros f ip' Hin. apply Hheld. by right.
Qed.

Lemma allocClusterIPsRange_restores before toAlloc :
  ∀ rs allocated,
    NoDup toAlloc.*1 →
    (∀ family ip, (family, ip) ∈ toAlloc →
       ip ≠ ""
       ∧ ∃ a0 a1, before !! family = Some a0
                  ∧ serviceIPAllocatorsByFamily rs !! family = Some a1
                  ∧ ipallocator.Allocate a1 (ParseIP ip) = inr a0) →
    (∀ family, family ∉ toAlloc.*1 →
       serviceIPAllocatorsByFamily rs !! family = before !! family) →
    ∃ allocated',
      allocClusterIPsRange rs toAlloc allocated
      = (mkREST before (defaultServiceIPFamily rs) (serviceNodePorts rs),
         Returns (allocated', None)).
Proof.
  induction toAlloc as [|[family ip] toAlloc IH];
    intros rs allocated Hnodup Hin Hout; simpl.
  - exists allocated. do 2 f_equal. destruct rs as [m d p]. simpl in *. f_equal.
    apply map_eq. intros f. apply Hout. apply not_elem_of_nil.
  - apply NoDup_cons in Hnodup as [Hnotin Hnodup].
    destruct (Hin family ip) as (Hip & a0 & a1 & Hb & Hc & Hr); [left|].
    rewrite Hc. rewrite bool_decide_eq_false_2 by done. rewrite Hr.
    destruct (IH (setAllocator rs family a0) (<[family := ip]> allocated))
      as [allocated' Hrun]; [done| | |by eauto].
    + intros f ip' Hf. destruct (Hin f ip') as (? & b0 & b1 & ? & ? & ?); [by right|].
      split; [done|]. exists b0, b1. simpl. rewrite lookup_insert_ne; [done|].
      intros ->. apply Hnotin. apply list_elem_of_fmap. by exists (f, ip').
    + intros f Hf. simpl. destruct (decide (family = f)) as [<-|Hne].
      * by rewrite lookup_insert_eq.
      * rewrite lookup_insert_ne by done. apply Hout.
        simpl. rewrite not_elem_of_cons. done.
Qed.

Lemma allocClusterIPs_reallocatable ord rs' before released :
  reallocatable before (serviceIPAllocatorsByFamily rs') released →
  ∃ r, allocClusterIPs ord rs' released
       = (mkREST before (defaultServiceIPFamily rs') (serviceNodePorts rs'), Returns r).
Proof.
  intros Hrel. unfold allocClusterIPs.
  destruct (allocClusterIPsRange_restores before (rangeMap ord released) rs' ∅)
    as [allocated' Hrun]; [apply rangeMap_NoDup| | |by eauto].
  - intros family ip Hin. apply rangeMap_lookup in Hin.
    specialize (Hrel family). by rewrite Hin in Hrel.
  - intros family Hnotin. specialize (Hrel family).
    destruct (released !! family) as [ip|] eqn:Hlook; [|done].
    exfalso. apply Hnotin. apply list_elem_of_fmap. exists (family, ip).
    split; [done|]. by apply rangeMap_lookup.
Qed.

(** What [releaseClusterIPs] releases of addresses the allocators hold,
    [allocClusterIPs] takes back. *)
Lemma releaseClusterIPs_reallocated ordRelease ordAlloc rs toRelease rs' released err :
  (∀ family ip, toRelease !! family = Some ip →
     ip ≠ "" ∧ ∀ a, serviceIPAllocatorsByFamily rs !! family = Some a →
                    ∃ a0, ipallocator.Allocate a0 (ParseIP ip) = inr a) →
  releaseClusterIPs ordRelease rs (Some toRelease) = (rs', (released, err)) →
  serviceNodePorts rs' = serviceNodePorts rs
  ∧ ∃ r, allocClusterIPs ordAlloc rs' (default ∅ released) = (rs, Returns r).
Proof.
  intros Hheld. unfold releaseClusterIPs. intros Hrun.
  apply (releaseClusterIPsRange_reallocatable (serviceIPAllocatorsByFamily rs))
    in Hrun as (m & -> & Hrel & Hdef & Hports).
  - split; [done|]. simpl.
    destruct (allocClusterIPs_reallocatable ordAlloc rs' _ _ Hrel) as [r Hr].
    exists r. rewrite Hr, Hdef, Hports. by destruct rs.
  - apply rangeMap_NoDup.
  - intros; apply lookup_empty.
  - intros family ip Hin. apply rangeMap_lookup in Hin. by apply Hheld.
  - intros family. by rewrite lookup_empty.
Qed.

(** The map [releaseServiceClusterIPs] collects pairs a family of the
    Service with the address at the family's index. *)
Lemma collectToRelease_lookup clusterIPs families :
  ∀ i toRelease m,
    collectToRelease i families clusterIPs toRelease = Returns m →
    ∀ family ip, m !! family = Some ip →
      toRelease !! family = Some ip
      ∨ ∃ k, families !! k = Some family ∧ clusterIPs !! (i + k)%nat = Some ip.
Proof.
  induction families as [|ipFamily families IH]; intros i toRelease m; simpl.
  - intros [= <-]. auto.
  - destruct (clusterIPs !! i) as [ip0|] eqn:Hi; [|discriminate].
    intros Hrun family ip Hm.
    destruct (IH _ _ _ Hrun family ip Hm) as [Hin|(k & Hk & Hip)].
    + destruct (decide (ipFamily = family)) as [<-|Hne].
      * rewrite lookup_insert_eq in Hin. injection Hin as <-.
        right. exists 0%nat. by rewrite Nat.add_0_r.
      * rewrite lookup_insert_ne in Hin by done. by left.
    + right. exists (S k). split; [done|]. by rewrite <- Nat.add_succ_comm.
Qed.

(** Whatever [handleClusterIPsForUpdatedService] has allocated and released
    of the addresses the old Service holds, the deferred clean-up of
    [Update] releases and takes back. *)
Lemma handleClusterIPsForUpdatedService_undone ordAlloc ordSet ordRelease
  ordCleanupRelease ordCleanupAlloc rs oldService service rs1 service1
  toRelease toAlloc err :
  held rs oldService →
  handleClusterIPsForUpdatedService ordAlloc ordSet ordRelease rs oldService service
  = (rs1, service1, Returns (toRelease, toAlloc, err)) →
  serviceNodePorts rs1 = serviceNodePorts rs
  ∧ ∃ rs2 r r',
      releaseClusterIPs ordCleanupRelease rs1 toRelease = (rs2, r)
      ∧ allocClusterIPs ordCleanupAlloc rs2 (default ∅ toAlloc) = (rs, Returns r').
Proof.
  intros Hheld. unfold handleClusterIPsForUpdatedService.
  assert (∀ rs0, ∃ rs2 r r',
            releaseClusterIPs ordCleanupRelease rs0 None = (rs2, r)
            ∧ allocClusterIPs ordCleanupAlloc rs2 (default ∅ None)
              = (rs0, Returns r')) as Hnothing.
  { intros rs0. exists rs0. do 2 eexists. split; [done|]. apply allocClusterIPs_empty. }
  destruct (bool_decide (Type_ (Spec oldService) = ServiceTypeExternalName)
            && bool_decide (Type_ (Spec service) ≠ ServiceTypeExternalName)).
  { (* CASE A *)
    destruct (allocServiceClusterIPs ordAlloc ordSet rs service)
      as [[rs0 service0] [[allocated e]|]] eqn:Halloc; [|discriminate].
    intros [= <- _ <- <- _].
    split; [by apply allocServiceClusterIPs_configuration in Halloc as [_ ?]|].
    destruct (allocServiceClusterIPs_released _ _ ordCleanupRelease _ _ _ _ _ _ Halloc)
      as [r Hr].
    exists rs, r. eexists. split; [done|]. apply allocClusterIPs_empty. }
  destruct (bool_decide (Type_ (Spec oldService) ≠ ServiceTypeExternalName)
            && bool_decide (Type_ (Spec service) = ServiceTypeExternalName)).
  { (* CASE B *)
    unfold releaseServiceClusterIPs.
    destruct (bool_decide (Type_ (Spec oldService) = ServiceTypeExternalName)).
    { intros [= <- _ <- <- _]. split; [done|]. apply Hnothing. }
    destruct ((0 <? length (ClusterIPs (Spec oldService)))%nat && isHeadless oldService).
    { intros [= <- _ <- <- _]. split; [done|]. apply Hnothing. }
    destruct (collectToRelease _ _ _ _) as [m|] eqn:Hcollect; [|discriminate].
    destruct (releaseClusterIPs ordRelease rs (Some m)) as [rs0 [released e]] eqn:Hrel.
    intros [= <- _ <- <- _].
    apply (releaseClusterIPs_reallocated _ ordCleanupAlloc) in Hrel as [Hports [r Hr]].
    - split; [done|]. exists rs0. do 2 eexists. split; [done|exact Hr].
    - intros family ip Hm.
      destruct (collectToRelease_lookup _ _ _ _ _ Hcollect family ip Hm)
        as [Hin|(k & Hk & Hip)]; [by rewrite lookup_empty in Hin|].
      by apply (Hheld k). }
  destruct ((0 <? length (ClusterIPs (Spec oldService)))%nat && isHeadless oldService).
  { intros [= <- _ <- <- _]. split; [done|]. apply Hnothing. }
  destruct ((length (IPFamilies (Spec oldService)) =? 1)%nat
            && (length (IPFamilies (Spec service)) =? 2)%nat).
  { (* CASE C *)
    set (service0 := if (length (ClusterIPs (Spec service)) <? 2)%nat
                     then setClusterIPs service (ClusterIPs (Spec service) ++ [""])%list
                     else service).
    clearbody service0.
    destruct (IPFamilies (Spec service0) !! 1%nat) as [family|]; [|discriminate].
    destruct (ClusterIPs (Spec service0) !! 1%nat) as [ip|]; [|discriminate].
    destruct (allocClusterIPs ordAlloc rs (<[family := ip]> ∅))
      as [rs0 [[allocated e]|]] eqn:Halloc; [|discriminate].
    unfold allocClusterIPs in Halloc.
    apply (allocClusterIPsRange_releasable (serviceIPAllocatorsByFamily rs))
      in Halloc as (Hrel & Hdef & Hports);
      [|apply rangeMap_NoDup|intros; apply lookup_empty
       |intros f; by rewrite lookup_empty].
    destruct (releaseClusterIPs_releasable ordCleanupRelease rs0 _ _ Hrel) as [r Hr].
    assert (mkREST (serviceIPAllocatorsByFamily rs) (defaultServiceIPFamily rs0)
              (serviceNodePorts rs0) = rs) as Hrs
        by (rewrite Hdef, Hports; by destruct rs).
    rewrite Hrs in Hr.
    destruct e as [e|]; intros [= <- _ <- <- _].
    all: split; [done|]; exists rs, r; eexists; split; [done|].
    all: apply allocClusterIPs_empty. }
  destruct ((length (IPFamilies (Spec oldService)) =? 2)%nat
            && (length (IPFamilies (Spec service)) =? 1)%nat).
  { (* CASE D *)
    destruct (IPFamilies (Spec oldService) !! 1%nat) as [family|] eqn:Hfamily;
      [|discriminate].
    destruct (ClusterIPs (Spec oldService) !! 1%nat) as [ip|] eqn:Hip; [|discriminate].
    destruct (releaseClusterIPs ordRelease rs (Some (<[family := ip]> ∅)))
      as [rs0 [released e]] eqn:Hrel.
    intros [= <- _ <- <- _].
    apply (releaseClusterIPs_reallocated _ ordCleanupAlloc) in Hrel as [Hports [r Hr]].
    - split; [done|]. exists rs0. do 2 eexists. split; [done|exact Hr].
    - intros f ip' Hm. apply lookup_insert_Some in Hm as [[<- <-]|[_ Hm]].
      + by apply (Hheld 1%nat).
      + by rewrite lookup_empty in Hm. }
  intros [= <- _ <- <- _]. split; [done|]. apply Hnothing.
Qed.

(** A [Create] that returns an error leaves the allocators as they were. *)
Lemma Create_failure_rollback (c : Collaborators) rs service rs' out err :
  Create c rs service false = (rs', Returns (out, Some err)) → rs' = rs.
Proof.
  unfold Create.
  destruct (BeforeCreate c service) as [e|service1]; [by intros [= <- _ _]|].
  unfold createAllocating.
  destruct (tryDefaultValidateServiceClusterIPFields rs service1) as [e|service2].
  { simpl. by intros [= <- _ _]. }
  simpl negb. cbv iota.
  destruct (allocServiceClusterIPs (ordAlloc c) (ordSet c) rs service2)
    as [[rs1 service3] [[toRelease [e|]]|]] eqn:Halloc.
  - destruct (allocServiceClusterIPs_released _ _ (ordRelease c) _ _ _ _ _ _ Halloc)
      as [r Hr].
    rewrite Hr. by intros [= <- _ _].
  - destruct (createWithNodePortOp c service3
                (StartOperation (serviceNodePorts rs1) false))
      as [[op reset] result] eqn:Hop.
    destruct (releaseClusterIPs (ordRelease c)
                (setServiceNodePorts rs1 (pa (Finish op)))
                (if reset then None else toRelease)) as [rs2 r] eqn:Hrelease.
    intros [= <- ->].
    apply createWithNodePortOp_failure with (pa0 := serviceNodePorts rs1) in Hop
      as [Hst ->]; [|apply StartOperation_stagedOn].
    rewrite (Finish_stagedOn _ _ Hst) in Hrelease.
    destruct (allocServiceClusterIPs_released _ _ (ordRelease c) _ _ _ _ _ _ Halloc)
      as [r' Hr].
    replace (setServiceNodePorts rs1 (serviceNodePorts rs1)) with rs1 in Hrelease
      by (by destruct rs1).
    congruence.
  - destruct (releaseClusterIPs (ordRelease c) rs1 None). discriminate.
Qed.

(** X17: an [Update] that is not a dry run and returns an error leaves the
    per-family IP allocators and the node-port allocator as they were before
    the call, for allocators that keep the contract of section 4.4.3 and
    that hold the cluster IPs of the stored Service: the deferred clean-up
    releases the addresses the call has allocated and allocates again the
    addresses it has released, and the deferred [Finish] rolls back the
    staged node ports and drops the scheduled releases. *)
Theorem Update_failure_restores_allocators (u : UpdateCollaborators) rs name
  forceAllowCreate rs' out created err :
  (∀ oldService, servicesGet u name = inr oldService → held rs oldService) →
  Update u rs name forceAllowCreate false = (rs', Returns (out, created, Some err)) →
  rs' = rs.
Proof.
  intros Hheld. unfold Update.
  destruct (servicesGet u name) as [e|oldService].
  { destruct forceAllowCreate; [|by intros [= <- _ _ _]].
    destruct (UpdatedObject u None) as [e'|obj]; [by intros [= <- _ _ _]|].
    destruct (Create (forCreate u) rs obj false) as [rs0 [[out0 [e0|]]|]] eqn:Hcreate;
      [|discriminate|discriminate].
    intros [= <- _ _ _]. by apply Create_failure_rollback in Hcreate. }
  specialize (Hheld oldService eq_refl).
  destruct (UpdatedObject u (Some oldService)) as [e|service]; [by intros [= <- _ _ _]|].
  destruct (negb (ValidNamespace u service)); [by intros [= <- _ _ _]|].
  destruct (BeforeUpdate u service oldService) as [e|service1];
    [by intros [= <- _ _ _]|].
  unfold updateAllocating.
  assert (pa (Finish (StartOperation (serviceNodePorts rs) false)) = serviceNodePorts rs)
    as Hfinish by (apply Finish_stagedOn, StartOperation_stagedOn).
  destruct (tryDefaultValidateServiceClusterIPFields rs service1) as [e|service2].
  { rewrite Hfinish. simpl. rewrite allocClusterIPs_empty.
    intros [= <- _ _ _]. by destruct rs. }
  simpl negb. cbv iota.
  destruct (handleClusterIPsForUpdatedService _ _ _ rs oldService service2)
    as [[rs1 service3] [[[toRelease toAlloc] e]|]] eqn:Hhandle.
  2:{ simpl. rewrite allocClusterIPs_empty. discriminate. }
  apply (handleClusterIPsForUpdatedService_undone _ _ _
           (ordCleanupRelease u) (ordCleanupAlloc u)) in Hhandle
    as (Hports & rs2 & r & r' & Hrelease & Halloc); [|done].
  assert (setServiceNodePorts rs1 (serviceNodePorts rs) = rs1) as Hsame
      by (rewrite <- Hports; by destruct rs1).
  destruct e as [e|].
  - rewrite Hfinish, Hsame, Hrelease, Halloc. by intros [= <- _ _ _].
  - destruct (updateWithNodePortOp u oldService service3
                (StartOperation (serviceNodePorts rs) false))
      as [[op reset] [[out1 created1] err1]] eqn:Hop.
    destruct err1 as [e1|].
    + apply updateWithNodePortOp_failure with (pa0 := serviceNodePorts rs) in Hop
        as [Hst ->]; [|apply StartOperation_stagedOn].
      rewrite (Finish_stagedOn _ _ Hst), Hsame, Hrelease, Halloc.
      by intros [= <- _ _ _].
    + clear Hrelease Halloc.
      destruct (releaseClusterIPs _ _ _) as [rs3 r3].
      destruct (allocClusterIPs _ _ _) as [rs4 [r4|]]; discriminate.
Qed.

End UpdateRollback.

(** * Delete *)

Section DeleteFacts.

Import Storage portallocator AsSpecified.

Context {IP A : Type} `{!NetLib IP} `{!ipallocator.Interface IP A}.

Implicit Types (rs : REST A) (service : Service).

Lemma releaseServiceClusterIPs_configuration ord rs service rs' r :
  releaseServiceClusterIPs ord rs service = (rs', r) →
  sameConfiguration rs rs' ∧ serviceNodePorts rs' = serviceNodePorts rs.
Proof.
  unfold releaseServiceClusterIPs.
  destruct (bool_decide _);
    [intros [= <- _]; split; [apply sameConfiguration_refl|done]|].
  destruct (_ && _);
    [intros [= <- _]; split; [apply sameConfiguration_refl|done]|].
  destruct (collectToRelease _ _ _ _) as [toRelease|];
    [|intros [= <- _]; split; [apply sameConfiguration_refl|done]].
  destruct (releaseClusterIPs ord rs (Some toRelease)) as [rs1 r1] eqn:Hrelease.
  apply releaseClusterIPs_configuration in Hrelease. by intros [= <- _].
Qed.

Lemma elem_of_collectServiceNodePorts service n :
  n ∈ collectServiceNodePorts service
  ↔ n ≠ 0 ∧ ∃ p, p ∈ Ports (Spec service) ∧ NodePort p = n.
Proof.
  unfold collectServiceNodePorts. rewrite collectNodePorts_filter.
  rewrite list_elem_of_filter, list_elem_of_fmap. split.
  - intros [Hn (p & -> & Hp)]. split; [done|]. by exists p.
  - intros [Hn (p & Hp & <-)]. split; [done|]. by exists p.
Qed.

(** The node-port allocator after [releaseAllocatedResources] has
    returned. *)
Lemma releaseAllocatedResources_ports ord rs svc rs' :
  releaseAllocatedResources ord rs svc = (rs', Returns tt) →
  serviceNodePorts rs'
  = setUsed (serviceNodePorts rs)
      (Used (serviceNodePorts rs)
       ∖ (list_to_set (collectServiceNodePorts svc)
          ∪ (if NeedsHealthCheck svc && (HealthCheckNodePort (Spec svc) >? 0)
             then {[HealthCheckNodePort (Spec svc)]} else ∅))).
Proof.
  unfold releaseAllocatedResources.
  destruct (releaseServiceClusterIPs ord rs svc) as [rs1 [r|]] eqn:Hrelease;
    [|discriminate].
  apply releaseServiceClusterIPs_configuration in Hrelease as [_ Hports].
  intros [= <-]. simpl. rewrite Hports, foldl_Release.
  destruct (NeedsHealthCheck svc); simpl.
  - destruct (HealthCheckNodePort (Spec svc) >? 0); unfold Release, setUsed; simpl;
      f_equal; set_solver.
  - f_equal. set_solver.
Qed.

(** X18: a [Delete] that is not a dry run and returns without error has
    freed, in the node-port allocator, the node ports other than 0 of the
    entries of the deleted Service and, if the Service needs a health check,
    its health-check node port if that is positive; every other port is
    reserved afterwards exactly if it was before; and the call returns the
    success status with the name of the deleted Service. *)
Theorem Delete_frees_node_ports (d : DeleteCollaborators) rs id svc rs'
  status deleted :
  servicesDelete d id = inr svc →
  Delete d rs id false = (rs', Returns (status, deleted, None)) →
  status = Some (StatusSuccess (Name (Meta svc))) ∧ deleted = true
  ∧ Base (serviceNodePorts rs') = Base (serviceNodePorts rs)
  ∧ Size (serviceNodePorts rs') = Size (serviceNodePorts rs)
  ∧ ∀ n, n ∈ Used (serviceNodePorts rs')
         ↔ n ∈ Used (serviceNodePorts rs)
           ∧ ¬ (n ≠ 0 ∧ ∃ p, p ∈ Ports (Spec svc) ∧ NodePort p = n)
           ∧ ¬ (NeedsHealthCheck svc = true ∧ 0 < n
                ∧ n = HealthCheckNodePort (Spec svc)).
Proof.
  intros Hsvc. unfold Delete. rewrite Hsvc. simpl. intros Hdelete.
  assert (∀ rs1 r,
            releaseAllocatedResources (ordDelete d) rs svc = (rs1, r) →
            match r with Panics => (rs1, Panics) | Returns _ =>
              (rs1, Returns (Some (StatusSuccess (Name (Meta svc))), true, None)) end
            = (rs', Returns (status, deleted, @None error)) →
            releaseAllocatedResources (ordDelete d) rs svc = (rs', Returns tt)
            ∧ status = Some (StatusSuccess (Name (Meta svc))) ∧ deleted = true)
    as Hcases.
  { intros rs1 [[]|] Hrun; [|discriminate]. by intros [= <- <- <-]. }
  assert (releaseAllocatedResources (ordDelete d) rs svc = (rs', Returns tt)
          ∧ status = Some (StatusSuccess (Name (Meta svc))) ∧ deleted = true)
    as (Hrun & -> & ->).
  { revert Hdelete. destruct (endpointsDelete d id) as [e|].
    - destruct (negb (IsNotFound d e)); [discriminate|].
      destruct (releaseAllocatedResources _ _ _) as [rs1 r] eqn:Hrun.
      intros Hresult. by apply (Hcases rs1 r).
    - destruct (releaseAllocatedResources _ _ _) as [rs1 r] eqn:Hrun.
      intros Hresult. by apply (Hcases rs1 r). }
  apply releaseAllocatedResources_ports in Hrun. rewrite Hrun. simpl.
  split; [done|]. split; [done|]. split; [done|]. split; [done|].
  intros n. rewrite elem_of_difference, elem_of_union, elem_of_list_to_set.
  rewrite elem_of_collectServiceNodePorts.
  destruct (NeedsHealthCheck svc); simpl.
  - destruct (Z.gtb_spec (HealthCheckNodePort (Spec svc)) 0).
    + rewrite elem_of_singleton. intuition (try lia; try congruence).
    + rewrite elem_of_empty. intuition (try lia; try congruence).
  - rewrite elem_of_empty. intuition (try lia; try congruence).
Qed.

(** X19: [Delete] touches the allocators only when it is not a dry run and
    returns without error: in a dry run, and whenever it returns an error
    (from the object store, or from the endpoints store other than
    NotFound, the Service then being deleted from the object store
    already), the IP allocators and the node-port allocator are afterwards
    what they were. *)
Theorem Delete_leaves_allocators_alone (d : DeleteCollaborators) rs id isDryRun
  rs' status deleted err :
  Delete d rs id isDryRun = (rs', Returns (status, deleted, err)) →
  isDryRun = true ∨ err ≠ None →
  rs' = rs.
Proof.
  unfold Delete. destruct (servicesDelete d id) as [e|svc]; [by intros [= <- _ _ _]|].
  destruct isDryRun; simpl; [by intros [= <- _ _ _]|].
  intros Hrun [?|Herr]; [done|]. revert Hrun.
  destruct (endpointsDelete d id) as [e|].
  - destruct (negb (IsNotFound d e)); [by intros [= <- _ _ _]|].
    destruct (releaseAllocatedResources _ _ _) as [rs1 [r|]]; [|discriminate].
    intros [= _ _ _ <-]. done.
  - destruct (releaseAllocatedResources _ _ _) as [rs1 [r|]]; [|discriminate].
    intros [= _ _ _ <-]. done.
Qed.

Lemma Delete_sameConfiguration (d : DeleteCollaborators) rs id isDryRun :
  sameConfiguration rs (fst (Delete d rs id isDryRun)).
Proof.
  assert (∀ svc, sameConfiguration rs
                   (fst (releaseAllocatedResources (ordDelete d) rs svc))) as Hrelease.
  { intros svc. unfold releaseAllocatedResources.
    destruct (releaseServiceClusterIPs _ rs svc) as [rs1 [r|]] eqn:Hr;
      apply releaseServiceClusterIPs_configuration in Hr as [Hcfg _]; [|done].
    simpl. destruct Hcfg as [Hd Hc]. by split. }
  unfold Delete. destruct (servicesDelete d id) as [e|svc];
    [apply sameConfiguration_refl|].
  destruct isDryRun; simpl; [apply sameConfiguration_refl|].
  specialize (Hrelease svc).
  destruct (endpointsDelete d id) as [e|].
  - destruct (negb (IsNotFound d e)); [apply sameConfiguration_refl|].
    by destruct (releaseAllocatedResources _ _ _) as [rs1 [r|]].
  - by destruct (releaseAllocatedResources _ _ _) as [rs1 [r|]].
Qed.

End DeleteFacts.

(** * Upgrading to and downgrading from dual stack *)

Section DualStackChangeFacts.

Import Storage portallocator AsSpecified.

Context {IP A : Type} `{!NetLib IP} `{!ipallocator.Interface IP A}.

Implicit Types (rs : REST A) (service : Service).

Lemma rangeMap_singleton {V} ord family (v : V) :
  rangeMap ord (<[family := v]> ∅) = [(family, v)].
Proof. by destruct ord, family. Qed.

(** The tests [handleClusterIPsForUpdatedService] makes before it looks at
    the number of families, on two Services that have cluster IPs. *)
Lemma handleClusterIPsForUpdatedService_by_families ordAlloc ordSet ordRelease
  rs oldService service :
  Type_ (Spec oldService) ≠ ServiceTypeExternalName →
  Type_ (Spec service) ≠ ServiceTypeExternalName →
  isHeadless oldService = false →
  handleClusterIPsForUpdatedService ordAlloc ordSet ordRelease rs oldService service
  = if (length (IPFamilies (Spec oldService)) =? 1)%nat
       && (length (IPFamilies (Spec service)) =? 2)%nat
    then
      let service :=
        if (length (ClusterIPs (Spec service)) <? 2)%nat
        then setClusterIPs service (ClusterIPs (Spec service) ++ [""])%list
        else service in
      match IPFamilies (Spec service) !! 1%nat, ClusterIPs (Spec service) !! 1%nat with
      | Some family, Some ip =>
          match allocClusterIPs ordAlloc rs (<[family := ip]> ∅) with
          | (rs, Panics) => (rs, service, Panics)
          | (rs, Returns (allocated, Some err)) =>
              (rs, service, Returns (Some allocated, None, Some err))
          | (rs, Returns (allocated, None)) =>
              (rs,
               setClusterIPs service
                 (<[1%nat := default "" (allocated !! family)]>
                    (ClusterIPs (Spec service))),
               Returns (Some allocated, None, None))
          end
      | _, _ => (rs, service, Panics)
      end
    else if (length (IPFamilies (Spec oldService)) =? 2)%nat
            && (length (IPFamilies (Spec service)) =? 1)%nat
    then
      match IPFamilies (Spec oldService) !! 1%nat,
            ClusterIPs (Spec oldService) !! 1%nat with
      | Some family, Some ip =>
          let '(rs, (released, err)) :=
            releaseClusterIPs ordRelease rs (Some (<[family := ip]> ∅)) in
          (rs, service, Returns (None, released, err))
      | _, _ => (rs, service, Panics)
      end
    else (rs, service, Returns (None, None, None)).
Proof.
  intros Hold Hnew Hheadless. unfold handleClusterIPsForUpdatedService.
  rewrite (bool_decide_eq_false_2 _ Hold).
  rewrite (bool_decide_eq_false_2 (Type_ (Spec service) = ServiceTypeExternalName))
    by done.
  rewrite Hheadless, !andb_false_r. simpl. done.
Qed.

(** X20: an update that adds a second family to a Service with cluster IPs
    allocates for the second family only.  When
    [handleClusterIPsForUpdatedService] returns, it has released nothing,
    the allocators of the other families and the node-port allocator are
    what they were, and the Service differs in [ClusterIPs] at most, where
    the first address is as it was.  On success the second address is the
    one allocated, which is the one the request names if it names one; on
    failure no allocator has changed. *)
Theorem upgrade_allocates_secondary_only ordAlloc ordSet ordRelease rs
  oldService service rs' service' allocated released err :
  Type_ (Spec oldService) ≠ ServiceTypeExternalName →
  Type_ (Spec service) ≠ ServiceTypeExternalName →
  isHeadless oldService = false →
  length (IPFamilies (Spec oldService)) = 1%nat →
  length (IPFamilies (Spec service)) = 2%nat →
  handleClusterIPsForUpdatedService ordAlloc ordSet ordRelease rs oldService service
  = (rs', service', Returns (allocated, released, err)) →
  ∃ family,
    IPFamilies (Spec service) !! 1%nat = Some family
    ∧ released = None
    ∧ (∀ other, other ≠ family →
         serviceIPAllocatorsByFamily rs' !! other
         = serviceIPAllocatorsByFamily rs !! other)
    ∧ serviceNodePorts rs' = serviceNodePorts rs
    ∧ service' = setClusterIPs service (ClusterIPs (Spec service'))
    ∧ ClusterIPs (Spec service') !! 0%nat = ClusterIPs (Spec service) !! 0%nat
    ∧ match err with
      | None =>
          ∃ ip, allocated = Some (<[family := ip]> ∅)
                ∧ ClusterIPs (Spec service') !! 1%nat = Some ip
                ∧ ∀ named, ClusterIPs (Spec service) !! 1%nat = Some named →
                           named ≠ "" → ip = named
      | Some _ => rs' = rs ∧ allocated = Some ∅
      end.
Proof.
  intros Hold Hnew Hheadless Hone Htwo.
  rewrite handleClusterIPsForUpdatedService_by_families by done.
  rewrite Hone, Htwo. simpl.
  destruct (IPFamilies (Spec service)) as [|primary [|family [|]]] eqn:Hfamilies;
    try discriminate.
  assert (∀ service0 ip,
            IPFamilies (Spec service0) = [primary; family] →
            service0 = setClusterIPs service (ClusterIPs (Spec service0)) →
            ClusterIPs (Spec service0) !! 0%nat = ClusterIPs (Spec service) !! 0%nat →
            ClusterIPs (Spec service0) !! 1%nat = Some ip →
            (∀ named, ClusterIPs (Spec service) !! 1%nat = Some named → ip = named) →
            match allocClusterIPs ordAlloc rs (<[family := ip]> ∅) with
            | (rs, Panics) => (rs, service0, Panics)
            | (rs, Returns (allocated, Some err)) =>
                (rs, service0, Returns (Some allocated, None, Some err))
            | (rs, Returns (allocated, None)) =>
                (rs,
                 setClusterIPs service0
                   (<[1%nat := default "" (allocated !! family)]>
                      (ClusterIPs (Spec service0))),
                 Returns (Some allocated, None, None))
            end = (rs', service', Returns (allocated, released, err)) →
            ∃ family0,
              [primary; family] !! 1%nat = Some family0
              ∧ released = None
              ∧ (∀ other, other ≠ family0 →
                   serviceIPAllocatorsByFamily rs' !! other
                   = serviceIPAllocatorsByFamily rs !! other)
              ∧ serviceNodePorts rs' = serviceNodePorts rs
              ∧ service' = setClusterIPs service (ClusterIPs (Spec service'))
              ∧ ClusterIPs (Spec service') !! 0%nat = ClusterIPs (Spec service) !! 0%nat
              ∧ match err with
                | None =>
                    ∃ ip, allocated = Some (<[family0 := ip]> ∅)
                          ∧ ClusterIPs (Spec service') !! 1%nat = Some ip
                          ∧ ∀ named, ClusterIPs (Spec service) !! 1%nat = Some named →
                                     named ≠ "" → ip = named
                | Some _ => rs' = rs ∧ allocated = Some ∅
                end) as Hallocated.
  { intros service0 ip Hfam Hself Hfirst Hsecond Hnamed.
    assert (1 < length (ClusterIPs (Spec service0)))%nat as Hlen
        by (by eapply lookup_lt_Some).
    assert (∀ ip', service' = setClusterIPs service0
                                (<[1%nat := ip']> (ClusterIPs (Spec service0))) →
                   service' = setClusterIPs service (ClusterIPs (Spec service'))
                   ∧ ClusterIPs (Spec service') !! 0%nat
                     = ClusterIPs (Spec service) !! 0%nat
                   ∧ ClusterIPs (Spec service') !! 1%nat = Some ip') as Hwritten.
    { intros ip' ->. simpl. split; [by rewrite Hself at 1|].
      split; [by rewrite list_lookup_insert_ne|by apply list_lookup_insert_eq]. }
    unfold allocClusterIPs. rewrite rangeMap_singleton. simpl.
    destruct (serviceIPAllocatorsByFamily rs !! family) as [allocator|]; [|discriminate].
    case_bool_decide as Hmarker.
    - destruct (ipallocator.AllocateNext allocator) as [e|[allocatedIP allocator']].
      + intros [= <- <- <- <- <-]. exists family. by rewrite <- Hself.
      + intros [= <- Hservice <- <- <-]. symmetry in Hservice.
        rewrite lookup_insert_eq in Hservice. simpl in Hservice.
        destruct (Hwritten _ Hservice) as (? & ? & ?).
        exists family. repeat split; try done.
        * intros other Hother. simpl. by rewrite lookup_insert_ne.
        * eexists. split; [done|]. split; [done|].
          intros named Hn Hne. apply Hnamed in Hn. congruence.
    - destruct (ipallocator.Allocate allocator (ParseIP ip)) as [e|allocator'].
      + intros [= <- <- <- <- <-]. exists family. by rewrite <- Hself.
      + intros [= <- Hservice <- <- <-]. symmetry in Hservice.
        rewrite lookup_insert_eq in Hservice. simpl in Hservice.
        destruct (Hwritten _ Hservice) as (? & ? & ?).
        exists family. repeat split; try done.
        * intros other Hother. simpl. by rewrite lookup_insert_ne.
        * eexists. split; [done|]. split; [done|].
          intros named Hn _. by apply Hnamed. }
  destruct (Nat.ltb_spec (length (ClusterIPs (Spec service))) 2) as [Hshort|Hlong].
  - destruct (ClusterIPs (Spec service)) as [|ip0 [|ip1 ips]] eqn:Hips; simpl;
      rewrite Hfamilies; simpl.
    + discriminate.
    + apply (Hallocated (setClusterIPs service [ip0; ""])); simpl; try done.
    + simpl in Hshort. lia.
  - rewrite Hfamilies. simpl.
    destruct (ClusterIPs (Spec service) !! 1%nat) as [ip1|] eqn:Hsecond;
      [|discriminate].
    apply (Hallocated service ip1); try done.
    + by destruct service as [? [] ?].
    + intros named [= <-]. done.
Qed.

(** X21: an update that takes the second family from a Service with
    cluster IPs releases the old Service's second address in the allocator
    of its second family, and nothing else.  When
    [handleClusterIPsForUpdatedService] returns, it has allocated nothing,
    the new Service is as it was, and the allocators of the other families
    and the node-port allocator are what they were.  Without allocator for
    that family nothing is released and no error is returned; with one, the
    allocator afterwards is the one its [Release] has returned, or the
    error is that of [Release] and no allocator has changed. *)
Theorem downgrade_releases_secondary_only ordAlloc ordSet ordRelease rs
  oldService service rs' service' allocated released err :
  Type_ (Spec oldService) ≠ ServiceTypeExternalName →
  Type_ (Spec service) ≠ ServiceTypeExternalName →
  isHeadless oldService = false →
  length (IPFamilies (Spec oldService)) = 2%nat →
  length (IPFamilies (Spec service)) = 1%nat →
  handleClusterIPsForUpdatedService ordAlloc ordSet ordRelease rs oldService service
  = (rs', service', Returns (allocated, released, err)) →
  ∃ family ip,
    IPFamilies (Spec oldService) !! 1%nat = Some family
    ∧ ClusterIPs (Spec oldService) !! 1%nat = Some ip
    ∧ allocated = None
    ∧ service' = service
    ∧ (∀ other, other ≠ family →
         serviceIPAllocatorsByFamily rs' !! other
         = serviceIPAllocatorsByFamily rs !! other)
    ∧ serviceNodePorts rs' = serviceNodePorts rs
    ∧ match serviceIPAllocatorsByFamily rs !! family with
      | None => rs' = rs ∧ released = Some ∅ ∧ err = None
      | Some allocator =>
          match ipallocator.Release allocator (ParseIP ip) with
          | inl e => rs' = rs ∧ released = Some ∅ ∧ err = Some e
          | inr allocator' =>
              serviceIPAllocatorsByFamily rs' !! family = Some allocator'
              ∧ released = Some (<[family := ip]> ∅) ∧ err = None
          end
      end.
Proof.
  intros Hold Hnew Hheadless Htwo Hone.
  rewrite handleClusterIPsForUpdatedService_by_families by done.
  rewrite Hone, Htwo. simpl.
  destruct (IPFamilies (Spec oldService) !! 1%nat) as [family|]; [|discriminate].
  destruct (ClusterIPs (Spec oldService) !! 1%nat) as [ip|]; [|discriminate].
  unfold releaseClusterIPs. rewrite rangeMap_singleton. simpl.
  destruct (serviceIPAllocatorsByFamily rs !! family) as [allocator|] eqn:Hfamily.
  - destruct (ipallocator.Release allocator (ParseIP ip)) as [e|allocator'] eqn:Hrelease.
    + intros [= <- <- <- <- <-]. exists family, ip. rewrite Hfamily, Hrelease. done.
    + intros [= <- <- <- <- <-]. exists family, ip. rewrite Hfamily, Hrelease. simpl.
      repeat split; try done.
      * intros other Hother. by rewrite lookup_insert_ne.
      * by rewrite lookup_insert_eq.
  - intros [= <- <- <- <- <-]. exists family, ip. rewrite Hfamily. done.
Qed.

(** X22: [handleClusterIPsForUpdatedService] indexes [ClusterIPs] at 1
    without test.  On two Services that have cluster IPs it panics, before
    it has touched any allocator, when the update adds a second family and
    the new Service has no cluster IP at all, and when the update takes the
    second family away and the old Service has fewer than two cluster
    IPs. *)
Theorem handleClusterIPsForUpdatedService_index_panics ordAlloc ordSet ordRelease
  rs oldService service :
  Type_ (Spec oldService) ≠ ServiceTypeExternalName →
  Type_ (Spec service) ≠ ServiceTypeExternalName →
  isHeadless oldService = false →
  (length (IPFamilies (Spec oldService)) = 1%nat
   ∧ length (IPFamilies (Spec service)) = 2%nat
   ∧ ClusterIPs (Spec service) = [])
  ∨ (length (IPFamilies (Spec oldService)) = 2%nat
     ∧ length (IPFamilies (Spec service)) = 1%nat
     ∧ (length (ClusterIPs (Spec oldService)) < 2)%nat) →
  ∃ service',
    handleClusterIPsForUpdatedService ordAlloc ordSet ordRelease rs oldService service
    = (rs, service', Panics).
Proof.
  intros Hold Hnew Hheadless Hcases.
  rewrite handleClusterIPsForUpdatedService_by_families by done.
  destruct Hcases as [(Hone & Htwo & Hnone)|(Htwo & Hone & Hshort)];
    rewrite Hone, Htwo; simpl.
  - rewrite Hnone. simpl.
    destruct (IPFamilies (Spec service) !! 1%nat); eauto.
  - rewrite (lookup_ge_None_2 (ClusterIPs (Spec oldService)) 1) by lia.
    destruct (IPFamilies (Spec oldService) !! 1%nat); eauto.
Qed.

End DualStackChangeFacts.

(** * Update: what it keeps *)

Section UpdateFacts.

Import Storage portallocator AsSpecified.

Context {IP A : Type} `{!NetLib IP} `{!ipallocator.Interface IP A}.

Implicit Types (rs : REST A) (service : Service).

Lemma setServiceNodePorts_sameConfiguration rs ports :
  sameConfiguration rs (setServiceNodePorts rs ports).
Proof. by split. Qed.

Lemma handleClusterIPsForUpdatedService_configuration ordAlloc ordSet ordRelease
  rs oldService service rs' service' r :
  handleClusterIPsForUpdatedService ordAlloc ordSet ordRelease rs oldService service
  = (rs', service', r) →
  sameConfiguration rs rs'.
Proof.
  unfold handleClusterIPsForUpdatedService.
  destruct (_ && _).
  { destruct (allocServiceClusterIPs ordAlloc ordSet rs service)
      as [[rs0 service0] [[allocated e]|]] eqn:Halloc;
      apply allocServiceClusterIPs_configuration in Halloc as [Hcfg _];
      by intros [= <- _ _]. }
  destruct (_ && _).
  { destruct (releaseServiceClusterIPs ordRelease rs oldService)
      as [rs0 [[released e]|]] eqn:Hrelease;
      apply releaseServiceClusterIPs_configuration in Hrelease as [Hcfg _];
      by intros [= <- _ _]. }
  destruct (_ && _); [intros [= <- _ _]; apply sameConfiguration_refl|].
  destruct (_ && _).
  { set (service0 := if (length (ClusterIPs (Spec service)) <? 2)%nat
                     then setClusterIPs service (ClusterIPs (Spec service) ++ [""])%list
                     else service).
    clearbody service0.
    destruct (IPFamilies (Spec service0) !! 1%nat) as [family|];
      [|intros [= <- _ _]; apply sameConfiguration_refl].
    destruct (ClusterIPs (Spec service0) !! 1%nat) as [ip|];
      [|intros [= <- _ _]; apply sameConfiguration_refl].
    destruct (allocClusterIPs ordAlloc rs _) as [rs0 r0] eqn:Halloc.
    apply allocClusterIPsRange_configuration in Halloc as [Hcfg _].
    destruct r0 as [[allocated [e|]]|]; by intros [= <- _ _]. }
  destruct (_ && _); [|intros [= <- _ _]; apply sameConfiguration_refl].
  destruct (IPFamilies (Spec oldService) !! 1%nat) as [family|];
    [|intros [= <- _ _]; apply sameConfiguration_refl].
  destruct (ClusterIPs (Spec oldService) !! 1%nat) as [ip|];
    [|intros [= <- _ _]; apply sameConfiguration_refl].
  destruct (releaseClusterIPs ordRelease rs _) as [rs0 [released e]] eqn:Hrelease.
  apply releaseClusterIPs_configuration in Hrelease as [Hcfg _].
  by intros [= <- _ _].
Qed.

(** The deferred clean-up of [Update]. *)
Lemma cleanup_sameConfiguration ordR ordA rs toRelease toAlloc :
  sameConfiguration rs
    (fst (allocClusterIPs ordA (fst (releaseClusterIPs ordR rs toRelease)) toAlloc)).
Proof.
  destruct (releaseClusterIPs ordR rs toRelease) as [rs1 r1] eqn:Hrelease.
  apply releaseClusterIPs_configuration in Hrelease as [Hcfg1 _]. simpl.
  destruct (allocClusterIPs ordA rs1 toAlloc) as [rs2 r2] eqn:Halloc.
  apply allocClusterIPsRange_configuration in Halloc as [Hcfg2 _]. simpl.
  by eapply sameConfiguration_trans.
Qed.

Lemma Update_sameConfiguration (u : UpdateCollaborators) rs name
  forceAllowCreate isDryRun :
  sameConfiguration rs (fst (Update u rs name forceAllowCreate isDryRun)).
Proof.
  unfold Update.
  destruct (servicesGet u name) as [e|oldService].
  { destruct forceAllowCreate; [|apply sameConfiguration_refl].
    destruct (UpdatedObject u None) as [e'|obj]; [apply sameConfiguration_refl|].
    pose proof (Create_sameConfiguration (forCreate u) rs obj isDryRun) as Hcfg.
    by destruct (Create (forCreate u) rs obj isDryRun) as [rs0 [[out0 [e0|]]|]]. }
  destruct (UpdatedObject u (Some oldService)) as [e|service];
    [apply sameConfiguration_refl|].
  destruct (negb (ValidNamespace u service)); [apply sameConfiguration_refl|].
  destruct (BeforeUpdate u service oldService) as [e|service1];
    [apply sameConfiguration_refl|].
  destruct (updateAllocating u rs oldService service1 isDryRun)
    as [[[rs1 toRelease] toAlloc] result] eqn:Hbody.
  assert (sameConfiguration rs rs1) as Hcfg1.
  { unfold updateAllocating in Hbody.
    destruct (tryDefaultValidateServiceClusterIPFields rs service1) as [e|service2];
      [by injection Hbody as <- _ _ _|].
    destruct (if negb isDryRun
              then handleClusterIPsForUpdatedService (ordAlloc (forCreate u))
                     (ordSet (forCreate u)) (ordRelease (forCreate u)) rs oldService
                     service2
              else (rs, service2, Returns (None, None, None)))
      as [[rs2 service3] handled] eqn:Hhandle.
    assert (sameConfiguration rs rs2) as Hcfg2.
    { destruct isDryRun; simpl in Hhandle.
      - injection Hhandle as <- _ _. apply sameConfiguration_refl.
      - by apply handleClusterIPsForUpdatedService_configuration in Hhandle. }
    destruct handled as [[[bag1 bag2] [e|]]|].
    - by injection Hbody as <- _ _ _.
    - destruct (updateWithNodePortOp u oldService service3 _) as [[op reset] res].
      by injection Hbody as <- _ _ _.
    - by injection Hbody as <- _ _ _. }
  pose proof (cleanup_sameConfiguration (ordCleanupRelease u) (ordCleanupAlloc u)
                rs1 toRelease (default ∅ toAlloc)) as Hcfg2.
  destruct (releaseClusterIPs (ordCleanupRelease u) rs1 toRelease) as [rs2 r2].
  simpl in Hcfg2.
  destruct (allocClusterIPs (ordCleanupAlloc u) rs2 (default ∅ toAlloc))
    as [rs3 [r3|]]; simpl in *; by eapply sameConfiguration_trans.
Qed.

(** X23: [Update] and [Delete] keep the cluster's configuration: whatever
    they return, and also when they panic, the families that have an
    allocator and the default family are afterwards what they were. *)
Theorem Update_and_Delete_keep_configuration (u : UpdateCollaborators)
  (d : DeleteCollaborators) rs name forceAllowCreate isDryRun :
  (defaultServiceIPFamily (fst (Update u rs name forceAllowCreate isDryRun))
   = defaultServiceIPFamily rs
   ∧ ∀ family,
       is_Some (serviceIPAllocatorsByFamily
                  (fst (Update u rs name forceAllowCreate isDryRun)) !! family)
       ↔ is_Some (serviceIPAllocatorsByFamily rs !! family))
  ∧ (defaultServiceIPFamily (fst (Delete d rs name isDryRun))
     = defaultServiceIPFamily rs
     ∧ ∀ family,
         is_Some (serviceIPAllocatorsByFamily (fst (Delete d rs name isDryRun))
                  !! family)
         ↔ is_Some (serviceIPAllocatorsByFamily rs !! family)).
Proof.
  split; [apply Update_sameConfiguration|apply Delete_sameConfiguration].
Qed.

(** X24: a dry-run [Update] allocates and releases no cluster IP: whatever
    it returns, the per-family IP allocators are afterwards what they
    were. *)
Theorem Update_dry_run_keeps_IP_allocators (u : UpdateCollaborators) rs name
  forceAllowCreate :
  serviceIPAllocatorsByFamily (fst (Update u rs name forceAllowCreate true))
  = serviceIPAllocatorsByFamily rs.
Proof.
  unfold Update.
  destruct (servicesGet u name) as [e|oldService].
  { destruct forceAllowCreate; [|done].
    destruct (UpdatedObject u None) as [e'|obj]; [done|].
    pose proof (Create_dry_run_allocators (forCreate u) rs obj) as Hsame.
    by destruct (Create (forCreate u) rs obj true) as [rs0 [[out0 [e0|]]|]]. }
  destruct (UpdatedObject u (Some oldService)) as [e|service]; [done|].
  destruct (negb (ValidNamespace u service)); [done|].
  destruct (BeforeUpdate u service oldService) as [e|service1]; [done|].
  unfold updateAllocating.
  destruct (tryDefaultValidateServiceClusterIPFields rs service1) as [e|service2].
  { simpl. by rewrite allocClusterIPs_empty. }
  simpl.
  destruct (updateWithNodePortOp u oldService service2 _) as [[op reset] res].
  destruct reset; simpl; by rewrite allocClusterIPs_empty.
Qed.

End UpdateFacts.

(** * Further properties of the strategy *)

Section StrategyFrame.

Import Strategy.

(** X25: [Export] with [exact] false is idempotent, and what it returns
    for a Service carries no allocated address and, for a NodePort Service,
    no node port: [Status] is blank, [ClusterIPs] is empty unless it starts
    with "None", in which case it is as it was, and every entry of a
    NodePort Service has [NodePort] 0. *)
Theorem Export_clears_allocated_fields (obj : Object) :
  Export (Export obj false).1 false = Export obj false
  ∧ ∀ t, obj = ObjService t →
         ∃ t', Export obj false = (ObjService t', None)
               ∧ Meta t' = Meta t
               ∧ Status t' = mkStatus []
               ∧ Type_ (Spec t') = Type_ (Spec t)
               ∧ ClusterIPs (Spec t')
                 = (if bool_decide (ClusterIPs (Spec t) !! 0%nat = Some ClusterIPNone)
                    then ClusterIPs (Spec t) else [])
               ∧ (Type_ (Spec t) = ServiceTypeNodePort →
                  ∀ p, p ∈ Ports (Spec t') → NodePort p = 0)
               ∧ (Type_ (Spec t) ≠ ServiceTypeNodePort →
                  Ports (Spec t') = Ports (Spec t)).
Proof.
  split.
  - destruct obj as [[m [ty ports sel ips fams pol etp hc sa tk] st]|kind]; [|done].
    unfold Export. simpl.
    assert (map (λ p, setNodePort p 0) (map (λ p, setNodePort p 0) ports)
            = map (λ p, setNodePort p 0) ports) as Hagain
        by (by rewrite <- list_fmap_compose).
    destruct ips as [|ip0 ips]; simpl.
    + destruct ty; simpl; by rewrite ?Hagain.
    + destruct (decide (ip0 = ClusterIPNone)) as [->|Hne].
      * rewrite !(bool_decide_eq_false_2 (ClusterIPNone ≠ ClusterIPNone))
          by (intros Hn; by apply Hn).
        destruct ty; simpl;
          rewrite ?(bool_decide_eq_false_2 (ClusterIPNone ≠ ClusterIPNone))
            by (intros Hn; by apply Hn);
          simpl; by rewrite ?Hagain.
      * rewrite !(bool_decide_eq_true_2 (ip0 ≠ ClusterIPNone)) by done.
        destruct ty; simpl; by rewrite ?Hagain.
  - intros t ->. unfold Export. simpl.
    set (t1 := match ClusterIPs (Spec t) with
               | ip0 :: _ =>
                   if bool_decide (ip0 ≠ ClusterIPNone)
                   then setClusterIPs (setStatus t (mkStatus [])) []
                   else setStatus t (mkStatus [])
               | [] => setStatus t (mkStatus [])
               end).
    assert (Meta t1 = Meta t ∧ Status t1 = mkStatus []
            ∧ Type_ (Spec t1) = Type_ (Spec t) ∧ Ports (Spec t1) = Ports (Spec t)
            ∧ ClusterIPs (Spec t1)
              = (if bool_decide (ClusterIPs (Spec t) !! 0%nat = Some ClusterIPNone)
                 then ClusterIPs (Spec t) else []))
      as (Hmeta & Hstatus & Htype & Hports & Hips).
    { unfold t1. destruct (ClusterIPs (Spec t)) as [|ip0 ips] eqn:Hips; simpl.
      - by rewrite Hips.
      - repeat case_bool_decide; simplify_eq; simpl; done. }
    clearbody t1. rewrite Htype. eexists. split; [done|].
    destruct (decide (Type_ (Spec t) = ServiceTypeNodePort)) as [Hnodeport|Hother].
    + rewrite (bool_decide_eq_true_2 _ Hnodeport). simpl.
      do 4 (split; [done|]). split; [|done].
      intros _ p Hp. rewrite Hports in Hp.
      apply list_elem_of_fmap in Hp as (q & -> & _). done.
    + rewrite (bool_decide_eq_false_2 _ Hother).
      do 4 (split; [done|]). split; [done|done].
Qed.

Lemma prepare_hooks_frame gates (newService oldService : Service) :
  let updated := PrepareForUpdate gates newService oldService in
  let created := PrepareForCreate gates newService in
  (Status updated = Status oldService
   ∧ Meta updated = Meta newService
   ∧ Type_ (Spec updated) = Type_ (Spec newService)
   ∧ Ports (Spec updated) = Ports (Spec newService)
   ∧ Selector (Spec updated) = Selector (Spec newService)
   ∧ ExternalTrafficPolicy (Spec updated) = ExternalTrafficPolicy (Spec newService)
   ∧ HealthCheckNodePort (Spec updated) = HealthCheckNodePort (Spec newService)
   ∧ SessionAffinity (Spec updated) = SessionAffinity (Spec newService))
  ∧ (Status created = mkStatus []
     ∧ Meta created = Meta newService
     ∧ Type_ (Spec created) = Type_ (Spec newService)
     ∧ Ports (Spec created) = Ports (Spec newService)
     ∧ Selector (Spec created) = Selector (Spec newService)
     ∧ ClusterIPs (Spec created) = ClusterIPs (Spec newService)
     ∧ ExternalTrafficPolicy (Spec created) = ExternalTrafficPolicy (Spec newService)
     ∧ HealthCheckNodePort (Spec created) = HealthCheckNodePort (Spec newService)
     ∧ SessionAffinity (Spec created) = SessionAffinity (Spec newService)).
Proof.
  unfold PrepareForUpdate, PrepareForCreate, clearClusterIPRelatedFields,
    dropServiceDisabledFields.
  split; simpl; case_tests; done.
Qed.

Lemma dropServiceDisabledFields_in_use gates
  (newSvc : Service) (oldSvc : option Service) :
  (serviceDualStackFieldsInUse oldSvc = true →
   IPFamilies (Spec (dropServiceDisabledFields gates newSvc oldSvc))
   = IPFamilies (Spec newSvc)
   ∧ IPFamilyPolicy (Spec (dropServiceDisabledFields gates newSvc oldSvc))
     = IPFamilyPolicy (Spec newSvc))
  ∧ (topologyKeysInUse oldSvc = true →
     TopologyKeys (Spec (dropServiceDisabledFields gates newSvc oldSvc))
     = TopologyKeys (Spec newSvc))
  ∧ (IPv6DualStack gates = true → ServiceTopology gates = true →
     dropServiceDisabledFields gates newSvc oldSvc = newSvc).
Proof.
  unfold dropServiceDisabledFields. split; [|split].
  - intros ->. rewrite andb_false_r. simpl. split; by case_tests.
  - intros ->. rewrite andb_false_r. simpl. by case_tests.
  - intros -> ->. done.
Qed.

(** X26: what the strategy's preparation hooks keep.  [PrepareForUpdate]
    takes [Status] from the stored Service and leaves the metadata and, of
    the Spec, [Type], [Ports], [Selector], [ExternalTrafficPolicy],
    [HealthCheckNodePort] and [SessionAffinity] as the client sent them;
    [PrepareForCreate] blanks [Status] and leaves the same fields and
    [ClusterIPs] as sent.  [dropServiceDisabledFields] never drops a field
    the stored Service uses, whatever the feature gates: if the old Service
    has an [IPFamilyPolicy] or a family, the new Service keeps its
    [IPFamilies] and [IPFamilyPolicy], and if the old Service has topology
    keys, the new one keeps its [TopologyKeys]; with both gates enabled the
    Service is returned as it is. *)
Theorem prepare_hooks_keep_fields gates (newService oldService : Service)
  (oldSvc : option Service) :
  (let updated := PrepareForUpdate gates newService oldService in
   let created := PrepareForCreate gates newService in
   (Status updated = Status oldService
    ∧ Meta updated = Meta newService
    ∧ Type_ (Spec updated) = Type_ (Spec newService)
    ∧ Ports (Spec updated) = Ports (Spec newService)
    ∧ Selector (Spec updated) = Selector (Spec newService)
    ∧ ExternalTrafficPolicy (Spec updated) = ExternalTrafficPolicy (Spec newService)
    ∧ HealthCheckNodePort (Spec updated) = HealthCheckNodePort (Spec newService)
    ∧ SessionAffinity (Spec updated) = SessionAffinity (Spec newService))
   ∧ (Status created = mkStatus []
      ∧ Meta created = Meta newService
      ∧ Type_ (Spec created) = Type_ (Spec newService)
      ∧ Ports (Spec created) = Ports (Spec newService)
      ∧ Selector (Spec created) = Selector (Spec newService)
      ∧ ClusterIPs (Spec created) = ClusterIPs (Spec newService)
      ∧ ExternalTrafficPolicy (Spec created) = ExternalTrafficPolicy (Spec newService)
      ∧ HealthCheckNodePort (Spec created) = HealthCheckNodePort (Spec newService)
      ∧ SessionAffinity (Spec created) = SessionAffinity (Spec newService)))
  ∧ ((serviceDualStackFieldsInUse oldSvc = true →
      IPFamilies (Spec (dropServiceDisabledFields gates newService oldSvc))
      = IPFamilies (Spec newService)
      ∧ IPFamilyPolicy (Spec (dropServiceDisabledFields gates newService oldSvc))
        = IPFamilyPolicy (Spec newService))
     ∧ (topologyKeysInUse oldSvc = true →
        TopologyKeys (Spec (dropServiceDisabledFields gates newService oldSvc))
        = TopologyKeys (Spec newService))
     ∧ (IPv6DualStack gates = true → ServiceTopology gates = true →
        dropServiceDisabledFields gates newService oldSvc = newService)).
Proof.
  split; [apply prepare_hooks_frame|apply dropServiceDisabledFields_in_use].
Qed.

End StrategyFrame.

(** * The storage as NewREST builds it *)

Section NewRESTFacts.

Import Strategy Storage portallocator AsSpecified.

Context {IP A : Type} `{!NetLib IP} `{!ipallocator.Interface IP A}.

(** X27: [NewREST] and [StrategyForServiceCIDRs] agree.  The default family
    of the storage is the one the strategy function returns for the same
    primary range; the families that have an allocator are exactly the
    families of the strategy, the default family first and no family
    twice; the default family has the primary allocator, and the other
    family, if there is a secondary allocator, has that one. *)
Theorem NewREST_agrees_with_strategy (serviceIPs : A) (secondaryServiceIPs : option A)
  (nodePorts : PortAllocator) :
  let rs := NewREST serviceIPs secondaryServiceIPs nodePorts in
  let result := StrategyForServiceCIDRs (ipallocator.IsIPv6CIDR serviceIPs)
                  (bool_decide (is_Some secondaryServiceIPs)) in
  defaultServiceIPFamily rs = result.2
  ∧ (∀ family, is_Some (serviceIPAllocatorsByFamily rs !! family)
               ↔ family ∈ ipFamilies result.1)
  ∧ head (ipFamilies result.1) = Some (defaultServiceIPFamily rs)
  ∧ NoDup (ipFamilies result.1)
  ∧ serviceIPAllocatorsByFamily rs !! defaultServiceIPFamily rs = Some serviceIPs
  ∧ (∀ family, family ≠ defaultServiceIPFamily rs →
               serviceIPAllocatorsByFamily rs !! family = secondaryServiceIPs)
  ∧ serviceNodePorts rs = nodePorts.
Proof.
  unfold NewREST, StrategyForServiceCIDRs.
  destruct (ipallocator.IsIPv6CIDR serviceIPs), secondaryServiceIPs as [secondary|];
    simpl.
  all: split; [done|]; split; [|split; [done|]; split; [|split; [|split; [|done]]]].
  all: try (intros family; destruct family; simpl;
            rewrite ?lookup_insert_eq, ?lookup_insert_ne, ?lookup_empty by done;
            rewrite ?is_Some_alt; set_solver).
  all: try (repeat constructor; set_solver).
  all: try (intros [] ?; simpl;
            rewrite ?lookup_insert_eq, ?lookup_insert_ne, ?lookup_empty by done;
            done).
Qed.

End NewRESTFacts.

(** * The redirect *)

Section LocationFacts.

Import Storage.

Implicit Types (l : LocationCollaborators).

Lemma podIPsContain_spec podIPs ip : podIPsContain podIPs ip = true ↔ ip ∈ podIPs.
Proof.
  induction podIPs as [|podIP podIPs IH]; simpl.
  - split; [discriminate|]. intros Hin. by apply elem_of_nil in Hin.
  - case_bool_decide as Heq.
    + subst. split; [intros _; left|done].
    + rewrite IH. split; [by right|].
      intros Hin. apply elem_of_cons in Hin as [->|Hin]; done.
Qed.

(** An address passes [isValidAddress] exactly if it references, in the
    namespace of the request, a Pod that the Pod store returns and that
    lists the address's IP. *)
Lemma isValidAddress_None l addr :
  isValidAddress l addr = None
  ↔ ∃ targetRef pod,
      TargetRef addr = Some targetRef
      ∧ RefNamespace targetRef = NamespaceValue l
      ∧ getPod l (RefName targetRef) = inr (ObjPod (Some pod))
      ∧ AddressIP addr ∈ PodIPs pod.
Proof.
  unfold isValidAddress. split.
  - destruct (TargetRef addr) as [targetRef|]; [|discriminate].
    case_bool_decide as Hns; [discriminate|].
    destruct (getPod l (RefName targetRef)) as [e|[[pod|]|]] eqn:Hpod;
      try discriminate.
    destruct (podIPsContain _ _) eqn:Hip; [|discriminate].
    intros _. exists targetRef, pod. apply podIPsContain_spec in Hip.
    split; [done|]. split; [by symmetry|]. by split.
  - intros (targetRef & pod & -> & Hns & -> & Hip).
    rewrite bool_decide_eq_false_2 by (intros Hne; by apply Hne).
    by rewrite (proj2 (podIPsContain_spec _ _) Hip).
Qed.

(** A scan that starts at a seed and wraps around visits every index. *)
Lemma rotation_covers (len seed j : nat) :
  (j < len)%nat → ∃ t, (t < len)%nat ∧ ((seed + t) mod len)%nat = j.
Proof.
  intros Hj.
  pose proof (Nat.div_mod_eq seed len) as Hseed.
  pose proof (Nat.mod_upper_bound seed len ltac:(lia)) as Hs.
  destruct (le_lt_dec (seed mod len) j) as [Hle|Hlt].
  - exists (j - seed mod len)%nat. split; [lia|].
    symmetry. apply (Nat.mod_unique _ _ (seed / len)); [done|]. lia.
  - exists (j + len - seed mod len)%nat. split; [lia|].
    symmetry. apply (Nat.mod_unique _ _ (S (seed / len))); [done|]. lia.
Qed.

Lemma tryAddresses_Some l addresses addrSeed :
  ∀ n try addr,
    tryAddresses l addresses addrSeed n try = Some addr →
    addr ∈ addresses ∧ isValidAddress l addr = None.
Proof.
  induction n as [|n IH]; intros try addr; simpl; [discriminate|].
  destruct (addresses !! _) as [a|] eqn:Ha; [|discriminate].
  destruct (isValidAddress l a) eqn:Hvalid; [apply IH|].
  intros [= <-]. split; [|done]. by eapply list_elem_of_lookup_2.
Qed.

Lemma tryAddresses_None l addresses addrSeed :
  ∀ n try,
    tryAddresses l addresses addrSeed n try = None →
    ∀ t addr, (try ≤ t < try + n)%nat →
              addresses !! ((addrSeed + t) mod length addresses)%nat = Some addr →
              isValidAddress l addr ≠ None.
Proof.
  induction n as [|n IH]; intros try; simpl; [intros _ t addr Ht; lia|].
  destruct (addresses !! ((addrSeed + try) mod length addresses)%nat) as [a|] eqn:Ha.
  - destruct (isValidAddress l a) eqn:Hvalid; [|discriminate].
    intros Hrest t addr Ht Haddr.
    destruct (decide (t = try)) as [->|Hne].
    + rewrite Ha in Haddr. injection Haddr as <-. by rewrite Hvalid.
    + apply (IH (S try) Hrest t); [lia|done].
  - intros _ t addr Ht Haddr. exfalso.
    apply lookup_ge_None in Ha. apply lookup_lt_Some in Haddr.
    pose proof (Nat.mod_upper_bound (addrSeed + try) (length addresses)). lia.
Qed.

(** Whatever the seed, the loop over the addresses finds a valid address if
    there is one. *)
Lemma tryAddresses_all_invalid l addresses addrSeed :
  tryAddresses l addresses addrSeed (length addresses) 0 = None →
  ∀ addr, addr ∈ addresses → isValidAddress l addr ≠ None.
Proof.
  intros Hnone addr Hin. apply list_elem_of_lookup in Hin as [j Hj].
  destruct (rotation_covers (length addresses) addrSeed j) as (t & Ht & Hmod);
    [by eapply lookup_lt_Some|].
  apply (tryAddresses_None _ _ _ _ _ Hnone t); [lia|by rewrite Hmod].
Qed.

Lemma searchPorts_Some l svcScheme portStr ss :
  ∀ ports calls calls' location,
    searchPorts l svcScheme portStr ss ports calls = (calls', Some location) →
    ∃ port addr,
      port ∈ ports ∧ EndpointPortName port = portStr
      ∧ addr ∈ Addresses ss ∧ isValidAddress l addr = None
      ∧ location = mkURL svcScheme
                     (JoinHostPort l (AddressIP addr)
                        (Itoa l (EndpointPortNumber port))).
Proof.
  induction ports as [|port ports IH]; intros calls calls' location; simpl;
    [discriminate|].
  assert (∀ calls0,
            searchPorts l svcScheme portStr ss ports calls0 = (calls', Some location) →
            ∃ port0 addr,
              port0 ∈ port :: ports ∧ EndpointPortName port0 = portStr
              ∧ addr ∈ Addresses ss ∧ isValidAddress l addr = None
              ∧ location = mkURL svcScheme
                             (JoinHostPort l (AddressIP addr)
                                (Itoa l (EndpointPortNumber port0)))) as Hrest.
  { intros calls0 Hrun. apply IH in Hrun as (port0 & addr & Hin & Hrest).
    exists port0, addr. split; [by right|done]. }
  case_bool_decide as Hname; [|apply Hrest].
  destruct (tryAddresses l _ _ _ _) as [addr|] eqn:Htry; [|apply Hrest].
  intros [= _ <-]. apply tryAddresses_Some in Htry as [Hin Hvalid].
  exists port, addr. split; [left|done].
Qed.

Lemma searchPorts_None l svcScheme portStr ss :
  ∀ ports calls calls',
    searchPorts l svcScheme portStr ss ports calls = (calls', None) →
    ∀ port addr, port ∈ ports → EndpointPortName port = portStr →
                 addr ∈ Addresses ss → isValidAddress l addr ≠ None.
Proof.
  induction ports as [|port ports IH]; intros calls calls'; simpl.
  - intros _ port addr Hin. by apply elem_of_nil in Hin.
  - case_bool_decide as Hname.
    + destruct (tryAddresses l _ _ _ _) as [a|] eqn:Htry; [discriminate|].
      intros Hrest port0 addr Hin Hport Haddr.
      by apply (tryAddresses_all_invalid _ _ _ Htry).
    + intros Hrest port0 addr Hin Hport Haddr.
      apply elem_of_cons in Hin as [->|Hin]; [done|].
      by apply (IH _ _ Hrest port0).
Qed.

Lemma searchSubsets_Some l svcScheme portStr subsets ssSeed :
  ∀ n ssi calls location,
    searchSubsets l svcScheme portStr subsets ssSeed n ssi calls = Some location →
    ∃ ss port addr,
      ss ∈ subsets ∧ port ∈ SubsetPorts ss ∧ EndpointPortName port = portStr
      ∧ addr ∈ Addresses ss ∧ isValidAddress l addr = None
      ∧ location = mkURL svcScheme
                     (JoinHostPort l (AddressIP addr)
                        (Itoa l (EndpointPortNumber port))).
Proof.
  induction n as [|n IH]; intros ssi calls location; simpl; [discriminate|].
  destruct (subsets !! _) as [ss|] eqn:Hss; [|discriminate].
  destruct (length (Addresses ss) =? 0)%nat; [apply IH|].
  destruct (searchPorts l svcScheme portStr ss (SubsetPorts ss) calls)
    as [calls' [found|]] eqn:Hports; [|apply IH].
  intros [= <-]. apply searchPorts_Some in Hports as (port & addr & Hrest).
  exists ss, port, addr. split; [by eapply list_elem_of_lookup_2|done].
Qed.

Lemma searchSubsets_None l svcScheme portStr subsets ssSeed :
  ∀ n ssi calls,
    searchSubsets l svcScheme portStr subsets ssSeed n ssi calls = None →
    ∀ t ss port addr,
      (ssi ≤ t < ssi + n)%nat →
      subsets !! ((ssSeed + t) mod length subsets)%nat = Some ss →
      port ∈ SubsetPorts ss → EndpointPortName port = portStr →
      addr ∈ Addresses ss → isValidAddress l addr ≠ None.
Proof.
  induction n as [|n IH]; intros ssi calls; simpl;
    [intros _ t ss port addr Ht; lia|].
  destruct (subsets !! ((ssSeed + ssi) mod length subsets)%nat) as [ss0|] eqn:Hss.
  - assert (∀ calls0,
              searchSubsets l svcScheme portStr subsets ssSeed n (S ssi) calls0 = None →
              (∀ port addr, port ∈ SubsetPorts ss0 → EndpointPortName port = portStr →
                            addr ∈ Addresses ss0 → isValidAddress l addr ≠ None) →
              ∀ t ss port addr,
                (ssi ≤ t < ssi + S n)%nat →
                subsets !! ((ssSeed + t) mod length subsets)%nat = Some ss →
                port ∈ SubsetPorts ss → EndpointPortName port = portStr →
                addr ∈ Addresses ss → isValidAddress l addr ≠ None) as Hstep.
    { intros calls0 Hrest Hhere t ss port addr Ht Hlook.
      destruct (decide (t = ssi)) as [->|Hne].
      - rewrite Hss in Hlook. injection Hlook as <-. apply Hhere.
      - apply (IH (S ssi) calls0 Hrest t); [lia|done]. }
    destruct (length (Addresses ss0) =? 0)%nat eqn:Hempty.
    + intros Hrest. apply (Hstep calls Hrest).
      intros port addr _ _ Hin. apply Nat.eqb_eq in Hempty.
      destruct (Addresses ss0); [by apply elem_of_nil in Hin|discriminate].
    + destruct (searchPorts l svcScheme portStr ss0 (SubsetPorts ss0) calls)
        as [calls' [found|]] eqn:Hports; [discriminate|].
      intros Hrest. apply (Hstep calls' Hrest).
      by apply (searchPorts_None _ _ _ _ _ _ _ Hports).
  - intros _ t ss port addr Ht Hlook. exfalso.
    apply lookup_ge_None in Hss. apply lookup_lt_Some in Hlook.
    pose proof (Nat.mod_upper_bound (ssSeed + ssi) (length subsets)). lia.
Qed.

(** X28: a location [ResourceLocation] returns is that of a backend that
    qualifies.  The identifier is well formed; the Endpoints object of the
    named Service has a subset with a port of the name the identifier's
    port stands for and with an address that references, in the namespace
    of the request, a Pod that the Pod store returns and that lists the
    address's IP; and the URL has the scheme of the identifier and, as
    host, that IP joined with that port's number. *)
Theorem ResourceLocation_returns_valid_endpoint l id location :
  ResourceLocation l id = inr location →
  ∃ svcScheme svcName portStr portName eps ss port addr targetRef pod,
    SplitSchemeNamePort l id = (svcScheme, svcName, portStr, true)
    ∧ resolvePortName l svcName portStr = inr portName
    ∧ getEndpoints l svcName = inr eps
    ∧ ss ∈ Subsets eps
    ∧ port ∈ SubsetPorts ss ∧ EndpointPortName port = portName
    ∧ addr ∈ Addresses ss
    ∧ TargetRef addr = Some targetRef
    ∧ RefNamespace targetRef = NamespaceValue l
    ∧ getPod l (RefName targetRef) = inr (ObjPod (Some pod))
    ∧ AddressIP addr ∈ PodIPs pod
    ∧ location = mkURL svcScheme
                   (JoinHostPort l (AddressIP addr)
                      (Itoa l (EndpointPortNumber port))).
Proof.
  unfold ResourceLocation.
  destruct (SplitSchemeNamePort l id) as [[[svcScheme svcName] portStr] valid]
    eqn:Hid.
  destruct valid; simpl; [|discriminate].
  destruct (resolvePortName l svcName portStr) as [e|portName] eqn:Hname;
    [discriminate|].
  destruct (getEndpoints l svcName) as [e|eps] eqn:Heps; [discriminate|].
  destruct (length (Subsets eps) =? 0)%nat; [discriminate|].
  destruct (searchSubsets l _ _ _ _ _ _ _) as [found|] eqn:Hsearch; [|discriminate].
  intros [= <-].
  apply searchSubsets_Some in Hsearch
    as (ss & port & addr & Hss & Hport & Hportname & Haddr & Hvalid & ->).
  apply isValidAddress_None in Hvalid as (targetRef & pod & Href & Hns & Hpod & Hip).
  exists svcScheme, svcName, portStr, portName, eps, ss, port, addr, targetRef, pod.
  repeat split; done.
Qed.

(** X29: whatever [rand.Intn] returns, [ResourceLocation] finds a backend
    if one qualifies: on a well-formed identifier whose port stands for a
    port name, it returns a location as soon as some subset of the
    Service's Endpoints has a port of that name and an address that passes
    [isValidAddress]. *)
Theorem ResourceLocation_finds_qualifying_endpoint l id svcScheme svcName portStr
  portName eps ss port addr :
  SplitSchemeNamePort l id = (svcScheme, svcName, portStr, true) →
  resolvePortName l svcName portStr = inr portName →
  getEndpoints l svcName = inr eps →
  ss ∈ Subsets eps →
  port ∈ SubsetPorts ss → EndpointPortName port = portName →
  addr ∈ Addresses ss → isValidAddress l addr = None →
  ∃ location, ResourceLocation l id = inr location.
Proof.
  intros Hid Hname Heps Hss Hport Hportname Haddr Hvalid.
  unfold ResourceLocation. rewrite Hid. simpl. rewrite Hname, Heps.
  apply list_elem_of_lookup in Hss as [j Hj].
  assert (j < length (Subsets eps))%nat as Hlt by (by eapply lookup_lt_Some).
  destruct (Nat.eqb_spec (length (Subsets eps)) 0) as [Hzero|_]; [lia|].
  destruct (searchSubsets l _ _ _ _ _ _ _) as [found|] eqn:Hsearch; [eauto|].
  exfalso.
  destruct (rotation_covers (length (Subsets eps))
              (Intn l 0 (length (Subsets eps))) j Hlt) as (t & Ht & Hmod).
  apply (searchSubsets_None _ _ _ _ _ _ _ _ Hsearch t ss port addr); try done.
  - lia.
  - by rewrite Hmod.
Qed.

End LocationFacts.

(** * Create, then Delete *)

Section CreateThenDelete.

Import Storage portallocator AsSpecified.

Context {IP A : Type} `{!NetLib IP} `{!ipallocator.Interface IP A}
        `{!ipallocator.Contract IP A}.

Implicit Types (rs : REST A) (service : Service).

(** ** The node ports a Create has committed are those of the Service *)

Lemma Allocate_allocated op port op' :
  Allocate op port = inr op' → allocated op' = (allocated op ++ [port])%list.
Proof.
  unfold Allocate. destruct (negb _); [discriminate|].
  case_bool_decide; [discriminate|]. by intros [= <-].
Qed.

Lemma AllocateNext_allocated op port op' :
  AllocateNext op = inr (port, op') → allocated op' = (allocated op ++ [port])%list.
Proof.
  unfold AllocateNext. destruct (Next _ _); [|discriminate].
  destruct (isFree _ _ _); [|discriminate]. by intros [= <- <-].
Qed.

(** Every port the loop of [initNodePorts] has staged is the node port of
    an entry it has passed, and the loop schedules no release. *)
Lemma initNodePortsFrom_allocated_entries :
  ∀ n i ports m op ports' op',
    (i + n)%nat = length ports →
    0 < Base (pa op) → Base (pa op) + Size (pa op) ≤ 2^31 →
    (∀ v, v ∈ allocated op →
          ∃ k p, (k < i)%nat ∧ ports !! k = Some p ∧ NodePort p = v) →
    initNodePortsFrom n i ports m op = (ports', op', None) →
    (∀ v, v ∈ allocated op' → ∃ p, p ∈ ports' ∧ NodePort p = v)
    ∧ releaseDeferred op' = releaseDeferred op.
Proof.
  induction n as [|n IH]; intros i ports m op ports' op' Hin Hbase Hsize Hinv; simpl.
  - intros [= <- <-]. split; [|done]. intros v Hv.
    destruct (Hinv v Hv) as (k & p & _ & Hk & Hp). exists p.
    split; [by eapply list_elem_of_lookup_2|done].
  - destruct (ports !! i) as [servicePort|] eqn:Hi.
    2:{ apply lookup_ge_None in Hi. lia. }
    assert (i < length ports)%nat as Hlt by (by eapply lookup_lt_Some).
    (* a turn that writes [written] to entry [i] and stages [staged] *)
    assert (∀ op1 written staged,
              allocated op1 = (allocated op ++ staged)%list →
              (∀ v, v ∈ staged → v = written) →
              ∀ v, v ∈ allocated op1 →
                   ∃ k p, (k < S i)%nat
                          ∧ <[i := setNodePort servicePort written]> ports !! k = Some p
                          ∧ NodePort p = v) as Hstep.
    { intros op1 written staged Hop1 Hstaged v Hv. rewrite Hop1 in Hv.
      apply elem_of_app in Hv as [Hv|Hv].
      - destruct (Hinv v Hv) as (k & p & Hk & Hp & Hnp). exists k, p.
        split; [lia|]. split; [|done]. rewrite list_lookup_insert_ne by lia. done.
      - apply Hstaged in Hv as ->. exists i. eexists.
        split; [lia|]. split; [by apply list_lookup_insert_eq|done]. }
    assert (∀ op1 staged,
              allocated op1 = (allocated op ++ staged)%list →
              (∀ v, v ∈ staged → v = NodePort servicePort) →
              ∀ v, v ∈ allocated op1 →
                   ∃ k p, (k < S i)%nat ∧ ports !! k = Some p ∧ NodePort p = v)
      as Hkeep.
    { intros op1 staged Hop1 Hstaged v Hv.
      destruct (Hstep op1 (NodePort servicePort) staged Hop1 Hstaged v Hv)
        as (k & p & Hk & Hp & Hnp).
      rewrite setNodePort_same, list_insert_id in Hp by done. eauto. }
    destruct (default 0 (m !! Port servicePort) =? 0).
    + destruct (negb (findRequestedNodePort (Port servicePort) ports =? 0)).
      * destruct (Allocate op _) as [e|op1] eqn:Halloc; [discriminate|].
        pose proof (Allocate_inRange _ _ _ Halloc) as (Hrange & Hb & Hs).
        pose proof (Allocate_releaseDeferred _ _ _ Halloc) as Hd.
        apply Allocate_allocated in Halloc.
        destruct (int32_inRange _ _ Hbase Hsize Hrange) as [_ Hint]. rewrite Hint.
        intros Hrun. apply IH in Hrun as [Hfinal Hd'];
          [|rewrite length_insert; lia|by rewrite Hb|by rewrite Hb, Hs|].
        { split; [done|congruence]. }
        eapply (Hstep op1); [exact Halloc|].
        intros v Hv. by apply list_elem_of_singleton in Hv.
      * destruct (AllocateNext op) as [e|[nodePort op1]] eqn:Halloc; [discriminate|].
        pose proof (AllocateNext_inRange _ _ _ Halloc) as (Hrange & Hb & Hs).
        pose proof (AllocateNext_releaseDeferred _ _ _ Halloc) as Hd.
        apply AllocateNext_allocated in Halloc.
        destruct (int32_inRange _ _ Hbase Hsize Hrange) as [_ Hint]. rewrite Hint.
        intros Hrun. apply IH in Hrun as [Hfinal Hd'];
          [|rewrite length_insert; lia|by rewrite Hb|by rewrite Hb, Hs|].
        { split; [done|congruence]. }
        eapply (Hstep op1); [exact Halloc|].
        intros v Hv. by apply list_elem_of_singleton in Hv.
    + destruct (negb (NodePort servicePort =? default 0 (m !! Port servicePort))).
      * destruct (NodePort servicePort =? 0).
        -- intros Hrun. apply IH in Hrun as [Hfinal Hd'];
             [done|rewrite length_insert; lia|done|done|].
           eapply (Hstep op _ []); [by rewrite app_nil_r|].
           intros v Hv. by apply elem_of_nil in Hv.
        -- destruct (Allocate op _) as [e|op1] eqn:Halloc; [discriminate|].
           pose proof (Allocate_inRange _ _ _ Halloc) as (Hrange & Hb & Hs).
           pose proof (Allocate_releaseDeferred _ _ _ Halloc) as Hd.
           apply Allocate_allocated in Halloc.
           intros Hrun. apply IH in Hrun as [Hfinal Hd'];
             [|lia|by rewrite Hb|by rewrite Hb, Hs|].
           { split; [done|congruence]. }
           eapply (Hkeep op1); [exact Halloc|].
           intros v Hv. by apply list_elem_of_singleton in Hv.
      * intros Hrun. apply IH in Hrun as [Hfinal Hd']; [done|lia|done|done|].
        apply (Hkeep op []); [by rewrite app_nil_r|].
        intros v Hv. by apply elem_of_nil in Hv.
Qed.

(** After [initNodePorts] has succeeded on a fresh operation, the ports it
    has staged are the node ports of the Service, none of them 0. *)
Lemma initNodePorts_allocated service op service' op' :
  0 < Base (pa op) → Base (pa op) + Size (pa op) ≤ 2^31 →
  allocated op = [] →
  initNodePorts service op = (service', op', None) →
  list_to_set (allocated op') =@{gset Z} list_to_set (collectServiceNodePorts service')
  ∧ releaseDeferred op' = releaseDeferred op
  ∧ Base (pa op') = Base (pa op) ∧ Size (pa op') = Size (pa op)
  ∧ service' = setPorts service (Ports (Spec service')).
Proof.
  intros Hbase Hsize Hnone. unfold initNodePorts.
  destruct (initNodePortsFrom _ _ _ _ _) as [[ports op1] err] eqn:Hrun.
  intros [= <- <- ->]. simpl.
  pose proof Hrun as Hrun'.
  apply (initNodePortsFrom_allocates (Ports (Spec service))) in Hrun
    as ((m & Hlen & _ & _ & Hdone & _) & Hb & Hs);
    [|done|apply allocatedSoFar_start|done|done].
  apply initNodePortsFrom_allocated_entries in Hrun' as [Hentries Hd];
    [|done|done|done|].
  2:{ intros v Hv. rewrite Hnone in Hv. by apply elem_of_nil in Hv. }
  split; [|done]. apply set_eq. intros v.
  rewrite !elem_of_list_to_set. unfold collectServiceNodePorts. simpl.
  rewrite collectNodePorts_filter, list_elem_of_filter, list_elem_of_fmap. split.
  - intros Hv. destruct (Hentries v Hv) as (p & Hp & <-).
    apply list_elem_of_lookup in Hp as [k Hk].
    destruct (Hdone k p) as [Hres _]; [|done|].
    { rewrite <- Hlen. by eapply lookup_lt_Some. }
    destruct (reserved_nonzero op1 (NodePort p)) as [Hnz _];
      [by rewrite Hb|by rewrite Hb, Hs|done|].
    split; [done|]. exists p. split; [done|]. by eapply list_elem_of_lookup_2.
  - intros [_ (p & -> & Hp)]. apply list_elem_of_lookup in Hp as [k Hk].
    destruct (Hdone k p) as [(Hin & _) _]; [|done|done].
    rewrite <- Hlen. by eapply lookup_lt_Some.
Qed.

Lemma allocateHealthCheckNodePort_allocated service op service' op' :
  0 < Base (pa op) → Base (pa op) + Size (pa op) ≤ 2^31 →
  allocateHealthCheckNodePort service op = (service', op', None) →
  allocated op' = (allocated op ++ [HealthCheckNodePort (Spec service')])%list
  ∧ 0 < HealthCheckNodePort (Spec service')
  ∧ releaseDeferred op' = releaseDeferred op
  ∧ service' = setHealthCheckNodePort service (HealthCheckNodePort (Spec service')).
Proof.
  intros Hbase Hsize. unfold allocateHealthCheckNodePort.
  assert (∀ port, inRange (pa op) port = true → 0 < port ∧ int32 port = port)
    as Hpositive.
  { intros port Hrange. destruct (int32_inRange _ _ Hbase Hsize Hrange) as [_ Hint].
    split; [|done]. unfold inRange in Hrange.
    apply andb_prop in Hrange as [Hlo _]. apply Z.leb_le in Hlo. lia. }
  destruct (negb (HealthCheckNodePort (Spec service) =? 0)).
  - destruct (Allocate op _) as [e|op1] eqn:Halloc; [discriminate|].
    intros [= <- <-].
    pose proof (Allocate_inRange _ _ _ Halloc) as (Hrange & _).
    pose proof (Allocate_releaseDeferred _ _ _ Halloc) as Hd.
    apply Allocate_allocated in Halloc.
    destruct (Hpositive _ Hrange) as [Hpos _].
    split; [done|]. split; [done|]. split; [done|]. by destruct service as [? [] ?].
  - destruct (AllocateNext op) as [e|[port op1]] eqn:Halloc; [discriminate|].
    intros [= <- <-].
    pose proof (AllocateNext_inRange _ _ _ Halloc) as (Hrange & _).
    pose proof (AllocateNext_releaseDeferred _ _ _ Halloc) as Hd.
    apply AllocateNext_allocated in Halloc.
    destruct (Hpositive _ Hrange) as [Hpos Hint]. simpl. rewrite Hint.
    split; [done|]. split; [done|]. split; [done|reflexivity].
Qed.

(** What a [Create] that succeeds leaves of its node-port operation: the
    allocator has, besides what it had, the ports of the Service. *)
Lemma createWithNodePortOp_success (c : Collaborators) pa0 service op' reset created :
  0 < Base pa0 → Base pa0 + Size pa0 ≤ 2^31 →
  (∀ stored out, servicesCreate c stored = inr out → out = stored) →
  (Type_ (Spec created) ≠ ServiceTypeNodePort →
   Type_ (Spec created) ≠ ServiceTypeLoadBalancer →
   ∀ p, p ∈ Ports (Spec created) → NodePort p = 0) →
  createWithNodePortOp c service (StartOperation pa0 false)
  = (op', reset, (Some created, None)) →
  reset = true
  ∧ Type_ (Spec created) = Type_ (Spec service)
  ∧ ClusterIPs (Spec created) = ClusterIPs (Spec service)
  ∧ IPFamilies (Spec created) = IPFamilies (Spec service)
  ∧ setUsed (pa (Finish op')) (Used (pa (Finish op')) ∖ portsOf created) = pa0.
Proof.
  intros Hbase Hsize Hecho Hnone. unfold createWithNodePortOp.
  pose proof (StartOperation_stagedOn pa0) as Hst0.
  destruct (if bool_decide (Type_ (Spec service) = ServiceTypeNodePort)
               || bool_decide (Type_ (Spec service) = ServiceTypeLoadBalancer)
            then initNodePorts service (StartOperation pa0 false)
            else (service, StartOperation pa0 false, None))
    as [[service1 op1] err1] eqn:Hinit.
  destruct err1 as [e|]; [discriminate|].
  assert (stagedOn pa0 op1
          ∧ releaseDeferred op1 = []
          ∧ Base (pa op1) = Base pa0 ∧ Size (pa op1) = Size pa0
          ∧ service1 = setPorts service (Ports (Spec service1))
          ∧ ((bool_decide (Type_ (Spec service) = ServiceTypeNodePort)
              || bool_decide (Type_ (Spec service) = ServiceTypeLoadBalancer)) = true →
             list_to_set (allocated op1)
             =@{gset Z} list_to_set (collectServiceNodePorts service1))
          ∧ ((bool_decide (Type_ (Spec service) = ServiceTypeNodePort)
              || bool_decide (Type_ (Spec service) = ServiceTypeLoadBalancer)) = false →
             allocated op1 = [] ∧ service1 = service))
    as (Hst1 & Hd1 & Hb1 & Hs1 & Hself1 & Hinit1 & Hnoinit1).
  { destruct (bool_decide _ || bool_decide _).
    - pose proof (initNodePorts_stagedOn _ _ _ _ _ _ Hst0 Hinit) as Hst1.
      apply initNodePorts_allocated in Hinit as (Hset & Hd & Hb & Hs & Hself);
        [|done|done|done].
      split; [done|]. split; [done|]. split; [done|]. split; [done|].
      split; [done|]. split; [done|discriminate].
    - injection Hinit as <- <-.
      split; [done|]. split; [done|]. split; [done|]. split; [done|].
      split; [by destruct service as [? [] ?]|]. split; [discriminate|done]. }
  destruct (if NeedsHealthCheck service1
            then allocateHealthCheckNodePort service1 op1 else (service1, op1, None))
    as [[service2 op2] err2] eqn:Hhc.
  destruct err2 as [e|]; [discriminate|].
  destruct (ValidateServiceExternalTrafficFieldsCombination c service2);
    [discriminate|].
  destruct (servicesCreate c service2) as [e|out] eqn:Hstore; [discriminate|].
  apply Hecho in Hstore as ->.
  intros [= <- <- <-]. split; [done|].
  assert (stagedOn pa0 op2
          ∧ releaseDeferred op2 = []
          ∧ service2 = setHealthCheckNodePort service1 (HealthCheckNodePort (Spec service2))
          ∧ list_to_set (allocated op2)
            =@{gset Z} list_to_set (allocated op1)
                       ∪ (if NeedsHealthCheck service2
                             && (HealthCheckNodePort (Spec service2) >? 0)
                          then {[HealthCheckNodePort (Spec service2)]} else ∅))
    as (Hst2 & Hd2 & Hself2 & Hset2).
  { destruct (NeedsHealthCheck service1) eqn:Hneeds.
    - pose proof (allocateHealthCheckNodePort_stagedOn _ _ _ _ _ _ Hst1 Hhc) as Hst2.
      apply allocateHealthCheckNodePort_allocated in Hhc as (Hall & Hpos & Hd & Hself);
        [|by rewrite Hb1|by rewrite Hb1, Hs1].
      split; [done|]. split; [congruence|]. split; [done|].
      assert (NeedsHealthCheck service2 = true) as ->
          by (rewrite Hself; exact Hneeds).
      rewrite (proj2 (Z.gtb_lt _ _) Hpos). simpl.
      rewrite Hall, list_to_set_app_L. simpl. set_solver.
    - injection Hhc as <- <-. rewrite Hneeds. simpl.
      split; [done|]. split; [done|]. split; [by destruct service1 as [? [] ?]|].
      set_solver. }
  do 3 (split; [by rewrite Hself2, Hself1|]).
  (* the allocator after the commit *)
  destruct Hst2 as (Hdry & Hroll & Hpa & Hused & Hfree).
  assert (pa (Finish (Commit op2)) = pa op2) as ->.
  { unfold Finish, Commit. simpl. by rewrite Hdry, Hd2. }
  assert (list_to_set (allocated op2) =@{gset Z} portsOf service2) as Hports.
  { rewrite Hset2. unfold portsOf. f_equal.
    assert (collectServiceNodePorts service2 = collectServiceNodePorts service1)
      as -> by (by rewrite Hself2).
    destruct (bool_decide (Type_ (Spec service) = ServiceTypeNodePort)
              || bool_decide (Type_ (Spec service) = ServiceTypeLoadBalancer))
      eqn:Htype.
    - by apply Hinit1.
    - destruct (Hnoinit1 eq_refl) as [-> ->]. simpl.
      apply orb_false_elim in Htype as [Hnp Hlb].
      apply bool_decide_eq_false in Hnp, Hlb.
      assert (collectServiceNodePorts service = []) as ->; [|done].
      apply elem_of_nil_inv. intros v Hv.
      apply elem_of_collectServiceNodePorts in Hv as [Hnz (p & Hp & <-)].
      apply Hnz. apply Hnone.
      + by rewrite Hself2.
      + by rewrite Hself2.
      + by rewrite Hself2. }
  rewrite <- Hports, Hused, <- Hpa. unfold setUsed. simpl. f_equal. set_solver.
Qed.

(** ** The cluster IPs a Create has allocated are those Delete releases *)

Lemma collectToRelease_pairs (bag : gmap IPFamily string) clusterIPs families :
  ∀ i toRelease,
    (∀ k family, families !! k = Some family →
       ∃ ip, clusterIPs !! (i + k)%nat = Some ip ∧ bag !! family = Some ip) →
    ∃ m, collectToRelease i families clusterIPs toRelease = Returns m
         ∧ ∀ family, m !! family
                     = if decide (family ∈ families) then bag !! family
                       else toRelease !! family.
Proof.
  induction families as [|ipFamily families IH]; intros i toRelease Hpairs.
  - exists toRelease. split; [done|]. intros family.
    destruct (decide (family ∈ [])) as [Hin|_]; [by apply elem_of_nil in Hin|done].
  - destruct (Hpairs 0%nat ipFamily eq_refl) as (ip0 & Hip0 & Hbag).
    rewrite Nat.add_0_r in Hip0. cbn [collectToRelease]. rewrite Hip0.
    destruct (IH (S i) (<[ipFamily := ip0]> toRelease)) as (m & Hrun & Hm).
    { intros k family Hk. destruct (Hpairs (S k) family Hk) as (ip & Hip & Hb).
      exists ip. split; [|done]. by rewrite <- Nat.add_succ_comm in Hip. }
    exists m. split; [done|]. intros family. rewrite Hm.
    destruct (decide (family ∈ families)) as [Hin|Hnotin];
      destruct (decide (family ∈ ipFamily :: families)) as [Hin'|Hnotin'].
    + done.
    + exfalso. apply Hnotin'. by right.
    + apply elem_of_cons in Hin' as [->|Hin']; [|done].
      by rewrite lookup_insert_eq.
    + rewrite lookup_insert_ne; [done|].
      intros ->. apply Hnotin'. left.
Qed.

(** What [allocServiceClusterIPs] has allocated for a Service,
    [releaseServiceClusterIPs] gives back for a Service with the same type,
    families and cluster IPs. *)
Lemma allocServiceClusterIPs_released_for ordAlloc ordSet ord rs service
  rs1 service1 bag created ports :
  NoDup (IPFamilies (Spec service)) →
  allocServiceClusterIPs ordAlloc ordSet rs service
  = (rs1, service1, Returns (bag, None)) →
  Type_ (Spec created) = Type_ (Spec service1) →
  ClusterIPs (Spec created) = ClusterIPs (Spec service1) →
  IPFamilies (Spec created) = IPFamilies (Spec service1) →
  isHeadless created = isHeadless service →
  ∃ r, releaseServiceClusterIPs ord (setServiceNodePorts rs1 ports) created
       = (setServiceNodePorts rs ports, Returns r).
Proof.
  intros Hnodup Halloc Htype Hips Hfamilies Hheadless.
  pose proof Halloc as Hrun. revert Hrun.
  unfold allocServiceClusterIPs, releaseServiceClusterIPs.
  rewrite Htype, Hheadless, Hips.
  destruct (bool_decide (Type_ (Spec service) = ServiceTypeExternalName)) eqn:Hext.
  { intros [= <- <- _]. rewrite Hext. eauto. }
  destruct ((0 <? length (ClusterIPs (Spec service)))%nat && isHeadless service)
    eqn:Hhl.
  { intros [= <- <- _]. rewrite Hext, Hhl. eauto. }
  destruct (markClusterIPs _ _ _ _) as [[clusterIPs toAlloc]|] eqn:Hmark;
    [|discriminate].
  destruct (allocClusterIPs ordAlloc rs toAlloc) as [rs2 [[allocated [e|]]|]] eqn:Hal;
    [discriminate| |discriminate].
  intros [= <- Hservice1 <-]. simpl.
  assert (Type_ (Spec service1) = Type_ (Spec service)) as -> by (by subst service1).
  rewrite Hext.
  assert (isHeadless service = false) as Hnot.
  { destruct (isHeadless service) eqn:Hh; [|done].
    rewrite andb_true_r in Hhl. unfold isHeadless in Hh.
    apply bool_decide_eq_true in Hh. apply lookup_lt_Some in Hh.
    apply Nat.ltb_ge in Hhl. lia. }
  rewrite Hnot, andb_false_r.
  destruct (allocServiceClusterIPs_pairs _ _ _ _ _ _ _ Hnodup Halloc)
    as (_ & _ & Hpairs & Hdom & _).
  assert (IPFamilies (Spec service1) = IPFamilies (Spec service)) as Hfam1
      by (by subst service1).
  rewrite Hfamilies, Hfam1.
  destruct (collectToRelease_pairs allocated (ClusterIPs (Spec service1))
              (IPFamilies (Spec service)) 0 ∅) as (m & Hcollect & Hm).
  { intros k family Hk. by apply Hpairs. }
  rewrite Hcollect.
  assert (m = allocated) as ->.
  { apply map_eq. intros family. rewrite Hm.
    destruct (decide (family ∈ IPFamilies (Spec service))) as [Hin|Hnotin]; [done|].
    rewrite lookup_empty. symmetry. apply eq_None_not_Some. intros Hsome.
    by apply Hnotin, Hdom. }
  unfold allocClusterIPs in Hal.
  apply (allocClusterIPsRange_releasable (serviceIPAllocatorsByFamily rs))
    in Hal as (Hrel & Hdef & Hports);
    [|apply rangeMap_NoDup|intros; apply lookup_empty
     |intros f; by rewrite lookup_empty].
  destruct (releaseClusterIPs_releasable ord (setServiceNodePorts rs2 ports) _ _ Hrel)
    as [r Hr].
  unfold releaseClusterIPs in Hr. rewrite Hr. simpl. rewrite Hdef. eexists. f_equal.
Qed.

Lemma defaulter_keeps_cluster_IPs rs service defaulted :
  tryDefaultValidateServiceClusterIPFields rs service = inr defaulted →
  ClusterIPs (Spec defaulted) = ClusterIPs (Spec service).
Proof.
  unfold tryDefaultValidateServiceClusterIPFields, beforeFamilyCheck.
  destruct (bool_decide _); [by intros [= <-]|].
  destruct (policyConflict service); [discriminate|].
  destruct (defaultFamiliesFromClusterIPs _ _ _ _) as [err|extended]; [discriminate|].
  set (extendedService := setIPFamilies service extended).
  destruct (isHeadlessSelectorless extendedService).
  - intros [= <-].
    by destruct (defaultHeadlessSelectorless_fields rs extendedService)
      as (_ & _ & -> & _).
  - destruct (ipFamilyCheck rs extendedService) as [|[err|]]; try discriminate.
    all: intros [= <-].
    all: by destruct (defaultPolicyAndFamilies_fields rs extendedService)
           as (_ & _ & -> & _).
Qed.

(** X30: what a Create has allocated, the Delete of the created Service
    gives back.  For allocators that keep the contract of section 4.4.3, on
    a node-port range within 1 .. 2^31 and with an object store that
    returns the Service it has stored: if a [Create] that is not a dry run
    succeeds, and the Service it returns has distinct families, node ports
    only if it is a NodePort or LoadBalancer Service, and is headless
    exactly if the prepared request was, then a [Delete] of that Service
    that is not a dry run and returns without error leaves the per-family
    IP allocators and the node-port allocator as they were before the
    Create. *)
Theorem Create_then_Delete_restores_allocators (c : Collaborators)
  (d : DeleteCollaborators) rs service rs1 created id rs2 status deleted :
  0 < Base (serviceNodePorts rs) →
  Base (serviceNodePorts rs) + Size (serviceNodePorts rs) ≤ 2^31 →
  (∀ stored out, servicesCreate c stored = inr out → out = stored) →
  Create c rs service false = (rs1, Returns (Some created, None)) →
  NoDup (IPFamilies (Spec created)) →
  (Type_ (Spec created) ≠ ServiceTypeNodePort →
   Type_ (Spec created) ≠ ServiceTypeLoadBalancer →
   ∀ p, p ∈ Ports (Spec created) → NodePort p = 0) →
  (∀ prepared, BeforeCreate c service = inr prepared →
               isHeadless created = isHeadless prepared) →
  servicesDelete d id = inr created →
  Delete d rs1 id false = (rs2, Returns (status, deleted, None)) →
  rs2 = rs.
Proof.
  intros Hbase Hsize Hecho Hcreate Hnodup Hnone Hheadless Hstored Hdelete.
  (* the Create *)
  unfold Create in Hcreate.
  destruct (BeforeCreate c service) as [e|prepared]; [discriminate|].
  specialize (Hheadless prepared eq_refl).
  unfold createAllocating in Hcreate.
  destruct (tryDefaultValidateServiceClusterIPFields rs prepared) as [e|defaulted]
    eqn:Hdefaulted; [discriminate|].
  apply defaulter_keeps_cluster_IPs in Hdefaulted.
  simpl negb in Hcreate. cbv iota in Hcreate.
  destruct (allocServiceClusterIPs (ordAlloc c) (ordSet c) rs defaulted)
    as [[rs0 allocatedService] [[bag [e|]]|]] eqn:Halloc;
    [by destruct (releaseClusterIPs _ _ _)| |by destruct (releaseClusterIPs _ _ _)].
  destruct (createWithNodePortOp c allocatedService
              (StartOperation (serviceNodePorts rs0) false))
    as [[op reset] result] eqn:Hop.
  pose proof (allocServiceClusterIPs_configuration _ _ _ _ _ _ _ Halloc)
    as [_ Hports0].
  destruct result as [[out|] [e|]];
    try (destruct (releaseClusterIPs _ _ _); discriminate).
  assert (out = created) as ->.
  { destruct (releaseClusterIPs _ _ _). by injection Hcreate as _ ->. }
  rewrite Hports0 in Hop.
  apply createWithNodePortOp_success in Hop
    as (-> & Htype & Hips & Hfamilies & Hfreed); [|done..].
  simpl in Hcreate. injection Hcreate as <-.
  (* the Delete *)
  assert (IPFamilies (Spec allocatedService) = IPFamilies (Spec defaulted)) as Hfam0.
  { revert Halloc. unfold allocServiceClusterIPs.
    destruct (bool_decide _); [by intros [= _ <- _]|].
    destruct (_ && _); [by intros [= _ <- _]|].
    destruct (markClusterIPs _ _ _ _) as [[? ?]|]; [|discriminate].
    destruct (allocClusterIPs _ _ _) as [? [[? [?|]]|]]; try discriminate.
    by intros [= _ <- _]. }
  destruct (allocServiceClusterIPs_released_for _ _ (ordDelete d) _ _ _ _ _ created
              (pa (Finish op)) ltac:(by rewrite <- Hfam0, <- Hfamilies) Halloc
              Htype Hips Hfamilies) as [r Hrelease].
  { rewrite Hheadless. unfold isHeadless. by rewrite Hdefaulted. }
  assert (releaseAllocatedResources (ordDelete d)
            (setServiceNodePorts rs0 (pa (Finish op))) created = (rs, Returns tt))
    as Hreleased.
  { unfold releaseAllocatedResources. rewrite Hrelease. simpl.
    rewrite foldl_Release.
    assert (∀ ports : PortAllocator,
              (if NeedsHealthCheck created
               then if HealthCheckNodePort (Spec created) >? 0
                    then Release ports (HealthCheckNodePort (Spec created)) else ports
               else ports)
              = setUsed ports
                  (Used ports
                   ∖ (if NeedsHealthCheck created
                         && (HealthCheckNodePort (Spec created) >? 0)
                      then {[HealthCheckNodePort (Spec created)]} else ∅))) as ->.
    { intros ports. destruct (NeedsHealthCheck created); simpl.
      - destruct (_ >? 0); [done|]. rewrite difference_empty_L.
        by rewrite setUsed_Used.
      - rewrite difference_empty_L. by rewrite setUsed_Used. }
    match goal with
    | |- (setServiceNodePorts _ ?ports, _) = _ =>
        assert (ports = serviceNodePorts rs) as ->
    end.
    { rewrite <- Hfreed. unfold setUsed, portsOf. simpl. f_equal. set_solver. }
    by destruct rs. }
  unfold Delete in Hdelete. rewrite Hstored in Hdelete. simpl in Hdelete.
  rewrite Hreleased in Hdelete.
  destruct (endpointsDelete d id) as [e|].
  - destruct (negb (IsNotFound d e)); [discriminate|]. by injection Hdelete as <-.
  - by injection Hdelete as <-.
Qed.

End CreateThenDelete.

(** * The further properties at sample requests *)

Section FurtherSamples.

Import Storage portallocator AsSpecified Sample.

(** X1, at a Service that prefers dual stack on a cluster with both
    families. *)
Lemma defaulter_validates_families_witness :
  let created := service ServiceTypeClusterIP [] selector [] [] (Some PreferDualStack) in
  let defaulted := setIPFamilies created [IPv4Protocol; IPv6Protocol] in
  tryDefaultValidateServiceClusterIPFields dualStackCluster created = inr defaulted
  ∧ IPFamilyPolicy (Spec defaulted) ≠ None
  ∧ IPFamilies (Spec defaulted) ≠ [].
Proof.
  intros created defaulted.
  assert (tryDefaultValidateServiceClusterIPFields dualStackCluster created
          = inr defaulted) as Hrun by (vm_compute; reflexivity).
  split; [exact Hrun|].
  destruct (defaulter_validates_families dualStackCluster created defaulted)
    as (Hpolicy & Hfamilies & _); [discriminate|eexists; vm_compute; reflexivity
                                  |exact Hrun|].
  split; [exact Hpolicy|exact Hfamilies].
Defined.

(** X2, at a Service that requires dual stack on a cluster with IPv4
    only. *)
Lemma defaulter_rejects_dual_stack_on_single_stack_witness :
  let created := service ServiceTypeClusterIP [] selector [] [] (Some RequireDualStack) in
  size (serviceIPAllocatorsByFamily singleStackCluster) = 1%nat
  ∧ ∃ err, tryDefaultValidateServiceClusterIPFields singleStackCluster created = inl err
           ∧ isInvalid err = true.
Proof.
  intros created. split; [vm_compute; reflexivity|].
  refine (proj1 (defaulter_rejects_dual_stack_on_single_stack singleStackCluster
                   created _ _ _ _)).
  - discriminate.
  - reflexivity.
  - vm_compute. lia.
  - intros [Hnone _]. discriminate.
Defined.

(** X3, at a Service that names an IPv6 family and no policy on a cluster
    with both families. *)
Lemma defaulter_standard_families_witness :
  let created := service ServiceTypeClusterIP [] selector [] [IPv6Protocol] None in
  tryDefaultValidateServiceClusterIPFields dualStackCluster created
  = inr (setIPFamilies (setIPFamilyPolicy created (Some SingleStack))
           (standardFamilies dualStackCluster SingleStack [IPv6Protocol]))
  ∧ standardFamilies dualStackCluster SingleStack [IPv6Protocol] = [IPv6Protocol].
Proof.
  intros created. split; [|vm_compute; reflexivity].
  refine (defaulter_standard_families dualStackCluster created _ _ _ _ _ _).
  - discriminate.
  - intros [Hnone _]. discriminate.
  - left. reflexivity.
  - simpl. lia.
  - intros family Hin. apply list_elem_of_singleton in Hin as ->.
    eexists. vm_compute. reflexivity.
  - discriminate.
Defined.

(** X5, at the Create of a dual-stack NodePort Service whose persisting
    fails. *)
Lemma Create_never_panics_witness :
  let created := service ServiceTypeNodePort [port "http" 80 0] selector [] []
                   (Some PreferDualStack) in
  ∃ result,
    snd (Create (collaborators storeDown) dualStackCluster created false)
    = Returns result.
Proof.
  intros created.
  refine (Create_never_panics (collaborators storeDown) dualStackCluster created
            false _).
  eexists. vm_compute. reflexivity.
Defined.

(** X7, at a request with three entries of which one names a node port. *)
Lemma initNodePorts_reserves_every_node_port_witness :
  let created := service ServiceTypeNodePort
                   [port "a" 80 0; port "b" 80 30001; port "dns" 53 0]
                   selector [] [] None in
  let result := initNodePorts created (StartOperation nodePorts false) in
  snd result = None
  ∧ port "dns" 53 30002 ∈ Ports (Spec (fst (fst result)))
  ∧ NodePort (port "dns" 53 30002) ∈ Used (pa (snd (fst result))).
Proof.
  intros created result.
  assert (initNodePorts created (StartOperation nodePorts false)
          = (fst (fst result), snd (fst result), None)) as Hrun
      by (vm_compute; reflexivity).
  assert (port "dns" 53 30002 ∈ Ports (Spec (fst (fst result)))) as Hin
      by (vm_compute; do 2 right; left).
  split; [vm_compute; reflexivity|]. split; [exact Hin|].
  destruct (initNodePorts_reserves_every_node_port created
              (StartOperation nodePorts false) _ _
              ltac:(simpl; lia) ltac:(simpl; lia) Hrun _ Hin)
    as (_ & _ & _ & Hused).
  apply Hused. reflexivity.
Defined.

(** X8, at the same request. *)
Lemma initNodePorts_keeps_named_node_ports_witness :
  let created := service ServiceTypeNodePort
                   [port "a" 80 0; port "b" 80 30001; port "dns" 53 0]
                   selector [] [] None in
  let result := initNodePorts created (StartOperation nodePorts false) in
  snd result = None
  ∧ length (Ports (Spec (fst (fst result)))) = 3%nat.
Proof.
  intros created result.
  assert (initNodePorts created (StartOperation nodePorts false)
          = (fst (fst result), snd (fst result), None)) as Hrun
      by (vm_compute; reflexivity).
  split; [vm_compute; reflexivity|].
  exact (proj1 (initNodePorts_keeps_named_node_ports created
                  (StartOperation nodePorts false) _ _
                  ltac:(simpl; lia) ltac:(simpl; lia) Hrun)).
Defined.

(** X9, at a dual-stack Service that names its IPv4 address. *)
Lemma allocServiceClusterIPs_pairs_families_witness :
  let created := service ServiceTypeClusterIP [] selector ["10.0.0.2"]
                   [IPv4Protocol; IPv6Protocol] (Some RequireDualStack) in
  let result := allocServiceClusterIPs IPv4First IPv6First dualStackCluster created in
  snd result = Returns (Some {[IPv4Protocol := "10.0.0.2";
                               IPv6Protocol := "2001:db8:1::1"]}, None)
  ∧ length (ClusterIPs (Spec (snd (fst result)))) = 2%nat.
Proof.
  intros created result.
  assert (allocServiceClusterIPs IPv4First IPv6First dualStackCluster created
          = (fst (fst result), snd (fst result),
             Returns (Some {[IPv4Protocol := "10.0.0.2";
                             IPv6Protocol := "2001:db8:1::1"]}, None))) as Hrun
      by (vm_compute; reflexivity).
  split; [vm_compute; reflexivity|].
  destruct (allocServiceClusterIPs_pairs_families IPv4First IPv6First
              dualStackCluster created _ _ _
              ltac:(repeat constructor; set_solver) Hrun) as (_ & Hlen & _).
  exact Hlen.
Defined.

(** X10, at an update that adds an entry without node port to a Service
    that holds 30000. *)
Lemma updateNodePorts_no_duplicates_witness :
  let updated := service ServiceTypeNodePort [port "http" 80 30000; port "dns" 53 0]
                   selector ["10.0.0.1"] [IPv4Protocol] (Some SingleStack) in
  let result := updateNodePorts storedNodePortService updated
                  (StartOperation nodePorts false) in
  snd result = None
  ∧ length (Ports (Spec (fst (fst result)))) = 2%nat.
Proof.
  intros updated result.
  assert (updateNodePorts storedNodePortService updated (StartOperation nodePorts false)
          = (fst (fst result), snd (fst result), None)) as Hrun
      by (vm_compute; reflexivity).
  split; [vm_compute; reflexivity|].
  exact (proj1 (updateNodePorts_no_duplicates _ _ _ _ _ Hrun)).
Defined.

(** X11, at an update with two TCP entries that name 30001. *)
Lemma updateNodePorts_rejects_duplicates_witness :
  let updated := service ServiceTypeNodePort [port "a" 80 30001; port "b" 81 30001]
                   selector ["10.0.0.1"] [IPv4Protocol] (Some SingleStack) in
  ∃ err, (updateNodePorts storedNodePortService updated
            (StartOperation nodePorts false)).2 = Some err.
Proof.
  intros updated.
  refine (updateNodePorts_rejects_duplicates storedNodePortService updated
            (StartOperation nodePorts false) 0 1 (port "a" 80 30001)
            (port "b" 81 30001) _ _ _ _ _ _).
  - reflexivity.
  - reflexivity.
  - lia.
  - reflexivity.
  - reflexivity.
  - simpl. lia.
Defined.

(** X12, at the update of X10. *)
Lemma updateNodePorts_fills_node_ports_witness :
  let updated := service ServiceTypeNodePort [port "http" 80 30000; port "dns" 53 0]
                   selector ["10.0.0.1"] [IPv4Protocol] (Some SingleStack) in
  let result := updateNodePorts storedNodePortService updated
                  (StartOperation nodePorts false) in
  snd result = None
  ∧ Ports (Spec (fst (fst result))) !! 1%nat = Some (port "dns" 53 30001)
  ∧ NodePort (port "dns" 53 30001) ≠ 0.
Proof.
  intros updated result.
  assert (updateNodePorts storedNodePortService updated (StartOperation nodePorts false)
          = (fst (fst result), snd (fst result), None)) as Hrun
      by (vm_compute; reflexivity).
  assert (Ports (Spec (fst (fst result))) !! 1%nat = Some (port "dns" 53 30001)) as Hp
      by (vm_compute; reflexivity).
  split; [vm_compute; reflexivity|]. split; [exact Hp|].
  refine (proj1 (updateNodePorts_fills_node_ports storedNodePortService updated
                   (StartOperation nodePorts false) _ _ _ _ Hrun 1%nat
                   (port "dns" 53 0) _ eq_refl Hp)).
  - simpl. lia.
  - simpl. lia.
Defined.

(** X13, at a dry-run update that names 30001 in place of 30000: the
    release of 30000 is scheduled all the same. *)
Lemma updateNodePorts_commit_frees_dropped_witness :
  let updated := service ServiceTypeNodePort [port "http" 80 30001]
                   selector ["10.0.0.1"] [IPv4Protocol] (Some SingleStack) in
  let result := updateNodePorts storedNodePortService updated
                  (StartOperation nodePorts true) in
  snd result = None
  ∧ dryRun (snd (fst result)) = true
  ∧ (30000 ∈ releaseDeferred (snd (fst result))
     ↔ 30000 ∈ collectServiceNodePorts storedNodePortService
       ∧ 30000 ∉ collectServiceNodePorts (fst (fst result))).
Proof.
  intros updated result.
  assert (updateNodePorts storedNodePortService updated (StartOperation nodePorts true)
          = (fst (fst result), snd (fst result), None)) as Hrun
      by (vm_compute; reflexivity).
  split; [vm_compute; reflexivity|]. split; [vm_compute; reflexivity|].
  exact (proj1 (updateNodePorts_commit_frees_dropped storedNodePortService updated
                  (StartOperation nodePorts true) _ _ eq_refl Hrun) 30000).
Defined.

(** X14, at an update that names the node port the Service holds. *)
Lemma updateNodePorts_keeps_held_ports_witness :
  let updated := service ServiceTypeNodePort [port "web" 8080 30000]
                   selector ["10.0.0.1"] [IPv4Protocol] (Some SingleStack) in
  ∃ nodePortOp',
    updateNodePorts storedNodePortService updated (StartOperation nodePorts false)
    = (updated, nodePortOp', None)
    ∧ pa nodePortOp' = nodePorts.
Proof.
  intros updated.
  destruct (updateNodePorts_keeps_held_ports storedNodePortService updated
              (StartOperation nodePorts false))
    as (nodePortOp' & Hrun & Hpa & _).
  - intros p Hp. apply list_elem_of_singleton in Hp as ->.
    split; [simpl; lia|vm_compute; left].
  - repeat constructor. set_solver.
  - exists nodePortOp'. split; [exact Hrun|exact Hpa].
Defined.

(** X15, at an update that turns a LoadBalancer to
    [ExternalTrafficPolicy = Local] and names no health-check port. *)
Lemma healthCheckNodePortUpdate_becomes_needed_witness :
  let old := setExternalTrafficPolicy (localLoadBalancer 0)
               ServiceExternalTrafficPolicyTypeCluster in
  let result := healthCheckNodePortUpdate old (localLoadBalancer 0)
                  (StartOperation nodePorts false) in
  snd result = (true, None)
  ∧ HealthCheckNodePort (Spec (fst (fst result))) = 30001.
Proof.
  intros old result.
  assert (healthCheckNodePortUpdate old (localLoadBalancer 0)
            (StartOperation nodePorts false)
          = (fst (fst result), snd (fst result), (true, None))) as Hrun
      by (vm_compute; reflexivity).
  split; [vm_compute; reflexivity|].
  destruct (healthCheckNodePortUpdate_becomes_needed old (localLoadBalancer 0)
              (StartOperation nodePorts false) _ _ _ _
              ltac:(simpl; lia) ltac:(simpl; lia) eq_refl eq_refl Hrun)
    as [(Hfalse & _)|(_ & _ & _ & _ & _ & _)]; [discriminate|].
  vm_compute. reflexivity.
Defined.

(** X16, at an update that turns a LoadBalancer with health-check port
    30000 to [ExternalTrafficPolicy = Cluster]. *)
Lemma healthCheckNodePortUpdate_no_longer_needed_witness :
  let updated := setExternalTrafficPolicy (localLoadBalancer 30000)
                   ServiceExternalTrafficPolicyTypeCluster in
  let result := healthCheckNodePortUpdate (localLoadBalancer 30000) updated
                  (StartOperation nodePorts false) in
  snd result = (true, None)
  ∧ 30000 ∉ Used (pa (Commit (snd (fst result)))).
Proof.
  intros updated result.
  destruct (healthCheckNodePortUpdate_no_longer_needed (localLoadBalancer 30000)
              updated (StartOperation nodePorts false)
              (fst (fst result)) (snd (fst result)) (snd result)
              eq_refl eq_refl ltac:(vm_compute; reflexivity))
    as (Hresult & _ & _ & _ & Hfree & _).
  split; [exact Hresult|]. apply Hfree. reflexivity.
Defined.

(** X17, at an update of a ClusterIP Service to NodePort whose persisting
    fails after a node port has been staged. *)
Lemma Update_failure_restores_allocators_witness :
  let updated := service ServiceTypeNodePort [port "http" 80 0] selector ["10.0.0.1"]
                   [IPv4Protocol] (Some SingleStack) in
  let u := updateCollaborators storedService updated updateStoreDown in
  Update u singleStackCluster "foo" false false
  = (singleStackCluster,
     Returns (None, false, Some (ErrOther "etcdserver: request timed out"))).
Proof.
  intros updated u.
  assert (∃ rs', Update u singleStackCluster "foo" false false
                 = (rs', Returns (None, false,
                                  Some (ErrOther "etcdserver: request timed out"))))
    as [rs' Hrun] by (eexists; vm_compute; reflexivity).
  rewrite Hrun. f_equal.
  refine (Update_failure_restores_allocators u singleStackCluster "foo" false
            rs' None false _ _ Hrun).
  intros oldService [= <-] i family ip Hfamily Hip.
  destruct i as [|i]; [|discriminate].
  injection Hfamily as <-. injection Hip as <-.
  split; [discriminate|]. intros a Ha.
  exists (ipallocator.mkRange false (λ s, negb (hasColon s))
            (firstFree ["10.0.0.1"; "10.0.0.2"; "10.0.0.3"]) ∅).
  vm_compute in Ha. injection Ha as <-. vm_compute. reflexivity.
Defined.

(** X18, at the deletion of a NodePort Service that holds 30000. *)
Lemma Delete_frees_node_ports_witness :
  let d := deleteCollaborators storedNodePortService None in
  let result := Delete d singleStackCluster "foo" false in
  snd result = Returns (Some (StatusSuccess "foo"), true, None)
  ∧ 30000 ∉ Used (serviceNodePorts (fst result)).
Proof.
  intros d result.
  assert (Delete d singleStackCluster "foo" false
          = (fst result, Returns (Some (StatusSuccess "foo"), true, None))) as Hrun
      by (vm_compute; reflexivity).
  split; [vm_compute; reflexivity|].
  destruct (Delete_frees_node_ports d singleStackCluster "foo" storedNodePortService
              _ _ _ eq_refl Hrun) as (_ & _ & _ & _ & Hused).
  intros Hin. apply Hused in Hin as (_ & Hport & _). apply Hport.
  split; [lia|]. exists (port "http" 80 30000). split; [left|reflexivity].
Defined.

(** X19, at a deletion whose endpoints deletion fails. *)
Lemma Delete_leaves_allocators_alone_witness :
  let d := deleteCollaborators storedNodePortService
             (Some (ErrOther "etcdserver: request timed out")) in
  Delete d singleStackCluster "foo" false
  = (singleStackCluster,
     Returns (None, false, Some (ErrOther "etcdserver: request timed out"))).
Proof.
  intros d.
  assert (∃ rs', Delete d singleStackCluster "foo" false
                 = (rs', Returns (None, false,
                                  Some (ErrOther "etcdserver: request timed out"))))
    as [rs' Hrun] by (eexists; vm_compute; reflexivity).
  rewrite Hrun. f_equal.
  refine (Delete_leaves_allocators_alone d singleStackCluster "foo" false rs'
            None false _ Hrun _).
  right. discriminate.
Defined.

(** X20, at an update that adds IPv6 to a Service that holds 10.0.0.1. *)
Lemma upgrade_allocates_secondary_only_witness :
  let updated := service ServiceTypeClusterIP [port "http" 80 0] selector ["10.0.0.1"]
                   [IPv4Protocol; IPv6Protocol] (Some RequireDualStack) in
  let result := handleClusterIPsForUpdatedService IPv4First IPv6First IPv4First
                  dualStackCluster storedService updated in
  snd result = Returns (Some {[IPv6Protocol := "2001:db8:1::1"]}, None, None)
  ∧ serviceIPAllocatorsByFamily (fst (fst result)) !! IPv4Protocol
    = serviceIPAllocatorsByFamily dualStackCluster !! IPv4Protocol.
Proof.
  intros updated result.
  assert (handleClusterIPsForUpdatedService IPv4First IPv6First IPv4First
            dualStackCluster storedService updated
          = (fst (fst result), snd (fst result),
             Returns (Some {[IPv6Protocol := "2001:db8:1::1"]}, None, None))) as Hrun
      by (vm_compute; reflexivity).
  split; [vm_compute; reflexivity|].
  edestruct (upgrade_allocates_secondary_only IPv4First IPv6First IPv4First
               dualStackCluster storedService updated)
    as (family & Hfamily & _ & Hother & _);
    [| | | | |exact Hrun|];
    [discriminate|discriminate|reflexivity|reflexivity|reflexivity|].
  injection Hfamily as <-. apply Hother. discriminate.
Defined.

(** X21, at an update that takes IPv6 from a Service that holds 10.0.0.1
    and 2001:db8:1::1. *)
Lemma downgrade_releases_secondary_only_witness :
  let updated := service ServiceTypeClusterIP [port "http" 80 0] selector ["10.0.0.1"]
                   [IPv4Protocol] (Some SingleStack) in
  let result := handleClusterIPsForUpdatedService IPv4First IPv6First IPv4First
                  dualStackClusterInUse storedDualStackService updated in
  snd result = Returns (None, Some {[IPv6Protocol := "2001:db8:1::1"]}, None)
  ∧ snd (fst result) = updated.
Proof.
  intros updated result.
  assert (handleClusterIPsForUpdatedService IPv4First IPv6First IPv4First
            dualStackClusterInUse storedDualStackService updated
          = (fst (fst result), snd (fst result),
             Returns (None, Some {[IPv6Protocol := "2001:db8:1::1"]}, None))) as Hrun
      by (vm_compute; reflexivity).
  split; [vm_compute; reflexivity|].
  edestruct (downgrade_releases_secondary_only IPv4First IPv6First IPv4First
               dualStackClusterInUse storedDualStackService updated)
    as (family & ip & _ & _ & _ & Hsame & _);
    [| | | | |exact Hrun|];
    [discriminate|discriminate|reflexivity|reflexivity|reflexivity|].
  exact Hsame.
Defined.

(** X22, at an update that adds IPv6 and carries no cluster IP. *)
Lemma handleClusterIPsForUpdatedService_index_panics_witness :
  let updated := service ServiceTypeClusterIP [port "http" 80 0] selector []
                   [IPv4Protocol; IPv6Protocol] (Some RequireDualStack) in
  ∃ service',
    handleClusterIPsForUpdatedService IPv4First IPv6First IPv4First
      dualStackCluster storedService updated
    = (dualStackCluster, service', Panics).
Proof.
  intros updated.
  refine (handleClusterIPsForUpdatedService_index_panics IPv4First IPv6First
            IPv4First dualStackCluster storedService updated _ _ _ _).
  - discriminate.
  - discriminate.
  - reflexivity.
  - left. split; [reflexivity|]. split; reflexivity.
Defined.

(** X28, at the request foo:http with the seed 5: the search starts at
    the subset with the addresses and returns the address of pod-a. *)
Lemma ResourceLocation_returns_valid_endpoint_witness :
  ResourceLocation (locationCollaborators 5) "foo:http"
  = inr (mkURL "http" "10.1.0.5:8080")
  ∧ ∃ pod, getPod (locationCollaborators 5) "pod-a" = inr (ObjPod (Some pod))
           ∧ "10.1.0.5" ∈ PodIPs pod.
Proof.
  assert (ResourceLocation (locationCollaborators 5) "foo:http"
          = inr (mkURL "http" "10.1.0.5:8080")) as Hrun by (vm_compute; reflexivity).
  split; [exact Hrun|].
  destruct (ResourceLocation_returns_valid_endpoint _ _ _ Hrun)
    as (svcScheme & svcName & portStr & portName & eps & ss & port & addr
        & targetRef & pod & _ & _ & _ & _ & _ & _ & _ & _ & _ & _ & _ & _).
  exists (mkPod ["10.1.0.5"]). split; [vm_compute; reflexivity|left].
Defined.

(** X29, at the same request with the seed 0: the search starts at the
    subset without address. *)
Lemma ResourceLocation_finds_qualifying_endpoint_witness :
  ∃ location, ResourceLocation (locationCollaborators 0) "foo:http" = inr location.
Proof.
  refine (ResourceLocation_finds_qualifying_endpoint (locationCollaborators 0)
            "foo:http" "http" "foo" "http" "http" backends
            (mkEndpointSubset
               [mkEndpointAddress "10.1.0.9" None;
                mkEndpointAddress "10.1.0.5" (Some (mkObjectReference "bar" "pod-a"))]
               [mkEndpointPort "https" 8443; mkEndpointPort "http" 8080])
            (mkEndpointPort "http" 8080)
            (mkEndpointAddress "10.1.0.5" (Some (mkObjectReference "bar" "pod-a")))
            _ _ _ _ _ _ _ _).
  - vm_compute. reflexivity.
  - vm_compute. reflexivity.
  - vm_compute. reflexivity.
  - right. left.
  - right. left.
  - reflexivity.
  - right. left.
  - vm_compute. reflexivity.
Defined.

(** X30, at the Create of a dual-stack NodePort Service that names one of
    its two node ports, on a store that returns what it stores, and the
    Delete of the Service created. *)
Lemma Create_then_Delete_restores_allocators_witness :
  let request := service ServiceTypeNodePort [port "http" 80 0; port "https" 443 30443]
                   selector [] [] (Some PreferDualStack) in
  let c := collaborators (λ stored, inr stored) in
  let afterCreate := Create c dualStackCluster request false in
  let created := match snd afterCreate with
                 | Returns (Some created, _) => created
                 | _ => request
                 end in
  let afterDelete := Delete (deleteCollaborators created None) (fst afterCreate)
                       "foo" false in
  snd afterCreate = Returns (Some created, None)
  ∧ ClusterIPs (Spec created) = ["10.0.0.2"; "2001:db8:1::1"]
  ∧ snd afterDelete = Returns (Some (StatusSuccess "foo"), true, None)
  ∧ fst afterDelete = dualStackCluster.
Proof.
  intros request c afterCreate created afterDelete.
  split; [vm_compute; reflexivity|]. split; [vm_compute; reflexivity|].
  split; [vm_compute; reflexivity|].
  refine (Create_then_Delete_restores_allocators c (deleteCollaborators created None)
            dualStackCluster request (fst afterCreate) created "foo" (fst afterDelete)
            (Some (StatusSuccess "foo")) true _ _ _ _ _ _ _ _ _).
  - simpl. lia.
  - simpl. lia.
  - intros stored out [= <-]. reflexivity.
  - vm_compute. reflexivity.
  - vm_compute. repeat constructor; set_solver.
  - intros Hnodeport. exfalso. apply Hnodeport. vm_compute. reflexivity.
  - intros prepared [= <-]. vm_compute. reflexivity.
  - reflexivity.
  - vm_compute. reflexivity.
Defined.

End FurtherSamples.
